(** * Proximity-verified delivery: the backend and its anchor registry

    A shallow embedding of

    - [contracts/AnchorRegistry.sol] (module [AnchorRegistry]),
    - [backend/db.js] (the record store, module-free part "Record store"),
    - [backend/server.js] (the request handlers, part "Handlers"),
    - [checkHealth] of [scripts/run_demo.js], the caller of GET /health,

    followed by the properties proved about them.

    Conventions.  A JavaScript string is a [string] (its UTF-8 bytes), a
    millisecond timestamp is a [Z], a SQLite table is the [list] of its rows
    in insertion order.  A JavaScript number that is an integer is the [Z]
    it equals, and the sum or product of two of them is rounded as a double
    is ([to_double]).  An exception is the [Throw] of [outcome]; a rejected
    promise that is awaited is the same [Throw].  The functions of Node and of
    the npm packages the server calls (SHA-256, secp256k1, base64, JSON.parse,
    JSON.stringify on numbers, Date formatting, String.prototype.trim, the
    binding of a value to a statement of SQLite) are the fields of
    [Platform]. *)

From stdpp Require Import gmap strings list.
From Stdlib Require Import ZArith NArith String Ascii Lia.
From Stdlib.Strings Require Import Byte.

Local Open Scope string_scope.
Set Warnings "-register-all".

(* ===================================================================== *)
(** ** AnchorRegistry.sol *)
(* ===================================================================== *)

Module AnchorRegistry.

(** [bytes32] and [address] are read as the numbers they encode. *)
Abbreviation bytes32 := N (only parsing).
Abbreviation address := N (only parsing).

(** event AnchorStored(bytes32 indexed anchorHash, address indexed actor,
                       uint256 timestamp, string eventId) *)
Record AnchorStored := {
  log_anchorHash : bytes32;
  log_actor : address;
  log_timestamp : N;
  log_eventId : string
}.

(** Contract storage ([mapping(bytes32 => bool) public anchored]) together
    with the event log of the chain. *)
Record state := {
  anchored : gmap N bool;
  logs : list AnchorStored
}.

(** What a transaction sees of its context. *)
Record tx_env := {
  msg_sender : address;
  block_timestamp : N
}.

Inductive result :=
| Success (st' : state)
| Revert (reason : string).

Definition genesis : state := {| anchored := ∅; logs := [] |}.

(** A mapping reads [false] at a key that was never written. *)
Definition isAnchored (st : state) (anchorHash : bytes32) : bool :=
  default false (anchored st !! anchorHash).

Definition emit (st : state) (e : AnchorStored) : state :=
  {| anchored := anchored st; logs := logs st ++ [e] |}.

Definition set_anchored (st : state) (anchorHash : bytes32) : state :=
  {| anchored := <[anchorHash := true]> (anchored st); logs := logs st |}.

Definition storeAnchor (env : tx_env) (anchorHash : bytes32) (eventId : string)
    (st : state) : result :=
  if isAnchored st anchorHash then Revert "Anchor already exists"
  else
    Success (emit (set_anchored st anchorHash)
               {| log_anchorHash := anchorHash; log_actor := msg_sender env;
                  log_timestamp := block_timestamp env; log_eventId := eventId |}).

(** The loop of [storeAnchorBatch], over the two arrays side by side. *)
Fixpoint storeAnchorBatch_loop (env : tx_env) (anchorHashes : list bytes32)
    (eventIds : list string) (st : state) : state :=
  match anchorHashes, eventIds with
  | h :: hs, id :: ids =>
      let st1 :=
        if isAnchored st h then st
        else emit (set_anchored st h)
               {| log_anchorHash := h; log_actor := msg_sender env;
                  log_timestamp := block_timestamp env; log_eventId := id |} in
      storeAnchorBatch_loop env hs ids st1
  | _, _ => st
  end.

Definition storeAnchorBatch (env : tx_env) (anchorHashes : list bytes32)
    (eventIds : list string) (st : state) : result :=
  if Nat.eqb (List.length anchorHashes) (List.length eventIds)
  then Success (storeAnchorBatch_loop env anchorHashes eventIds st)
  else Revert "Array length mismatch".

(** A transaction sent to the contract, and the chain after it: a reverted
    transaction leaves storage and log as they were. *)
Inductive call :=
| StoreAnchor (anchorHash : bytes32) (eventId : string)
| StoreAnchorBatch (anchorHashes : list bytes32) (eventIds : list string).

Definition run_call (env : tx_env) (c : call) (st : state) : result :=
  match c with
  | StoreAnchor h id => storeAnchor env h id st
  | StoreAnchorBatch hs ids => storeAnchorBatch env hs ids st
  end.

Definition transact (st : state) (tx : tx_env * call) : state * option string :=
  match run_call (fst tx) (snd tx) st with
  | Success st' => (st', None)
  | Revert reason => (st, Some reason)
  end.

Definition chain_after (txs : list (tx_env * call)) : state :=
  fold_left (fun st tx => fst (transact st tx)) txs genesis.

(** The ledger records of one hash: the [AnchorStored] entries that carry it. *)
Definition records_of (st : state) (anchorHash : bytes32) : list AnchorStored :=
  List.filter (fun e => N.eqb (log_anchorHash e) anchorHash) (logs st).

End AnchorRegistry.

(* ===================================================================== *)
(** ** JavaScript values, exceptions and the platform *)
(* ===================================================================== *)

(** The result of running code that may throw. *)
Inductive outcome (A : Type) : Type :=
| Ret (a : A)
| Throw (e : string).
Arguments Ret {A} a.
Arguments Throw {A} e.

(** A value produced by [JSON.parse]; numbers are kept on the integers. *)
Inductive json :=
| JNull
| JBool (b : bool)
| JNum (n : Z)
| JStr (s : string)
| JArr (items : list json)
| JObj (fields : list (string * json)).

(** A value that may be [undefined]. *)
Abbreviation jsval := (option json) (only parsing).

Fixpoint assoc (k : string) (fields : list (string * json)) : jsval :=
  match fields with
  | [] => None
  | (k', v) :: rest => if String.eqb k k' then Some v else assoc k rest
  end.

(** [v.k] for one of the property names the server reads ([message],
    [signature], [session_id], [challenge_nonce]): an own property of an
    object, [undefined] on any other non-null value, a TypeError on [null]. *)
Definition get_prop (v : json) (k : string) : outcome jsval :=
  match v with
  | JNull => Throw "TypeError"
  | JObj fields => Ret (assoc k fields)
  | _ => Ret None
  end.

(** [!v] *)
Definition falsy (v : jsval) : bool :=
  match v with
  | None | Some JNull => true
  | Some (JBool b) => negb b
  | Some (JNum n) => Z.eqb n 0
  | Some (JStr s) => String.eqb s ""
  | Some (JArr _) | Some (JObj _) => false
  end.

(** [typeof v !== 'string'] *)
Definition not_a_string (v : jsval) : bool :=
  match v with
  | Some (JStr _) => false
  | _ => true
  end.

(** [v !== s] for a string [s]. *)
Definition strict_ne (v : jsval) (s : string) : bool :=
  match v with
  | Some (JStr t) => negb (String.eqb t s)
  | _ => true
  end.

(** [v !== x] for a value [x] of a request body: two values are the same
    when they are the same string, the same number, the same boolean or both
    [null]; an array or an object of one parse is never the array or object
    of another. *)
Definition strict_ne_value (v : jsval) (x : json) : bool :=
  match x with
  | JStr s => strict_ne v s
  | JNum n => match v with Some (JNum m) => negb (Z.eqb m n) | _ => true end
  | JBool b => match v with Some (JBool c) => negb (Bool.eqb c b) | _ => true end
  | JNull => match v with Some JNull => false | _ => true end
  | JArr _ | JObj _ => true
  end.

(** [!s] for a request field that is a string or absent. *)
Definition missing (s : option string) : bool :=
  match s with
  | None => true
  | Some t => String.eqb t ""
  end.

(** *** Numbers

    The double nearest to an integer, ties to the even significand of 53
    bits: what [+] and [*] yield when their exact result is the integer.
    Integers up to 2^53 in magnitude are doubles; beyond 2^1024 the source
    holds [Infinity], which compares with every reading of the clock as the
    integer does. *)
Definition to_double (z : Z) : Z :=
  let a := Z.abs z in
  let e := (Z.log2 a - 52)%Z in
  if (e <=? 0)%Z then z
  else
    let q := Z.shiftr a e in
    let r := Z.land a (Z.ones e) in
    let half := Z.shiftl 1 (e - 1) in
    let q' := if (r <? half)%Z then q
              else if (half <? r)%Z then (q + 1)%Z
              else if Z.even q then q else (q + 1)%Z in
    (Z.sgn z * Z.shiftl q' e)%Z.

(** What the server takes from Node and its packages. *)
Class Platform := {
  (** crypto.createHash('sha256').update(s).digest('hex') *)
  sha256_hex : string -> string;
  (** ec.keyFromPublic(hex, 'hex'): [false] when it throws *)
  ec_keyFromPublic : string -> bool;
  (** ec.keyFromPublic(pk, 'hex').verify(msgHash, {r, s}) *)
  ec_verify : string -> string -> string -> string -> outcome bool;
  (** Buffer.from(s, 'base64').toString('utf8') for a string [s] *)
  base64_utf8 : string -> string;
  (** Buffer.from(v, 'base64').toString('utf8') for a value [v] that is no
      string: [None] when it throws a TypeError *)
  buffer_utf8 : json -> option string;
  (** JSON.parse(s): [None] when it throws a SyntaxError *)
  JSON_parse : string -> option json;
  (** JSON.stringify(n) for a number [n] *)
  number_json : Z -> string;
  (** new Date(ms).toISOString(): [None] when it throws a RangeError *)
  toISOString : Z -> option string;
  (** s.trim() *)
  str_trim : string -> string;
  (** the text SQLite makes, where a TEXT column is compared with it or
      stores it, of a parameter that node-sqlite3 binds from a value that is
      no string (a number or a boolean as a number, an array or an object as
      its [toString()]) *)
  bind_text : json -> string
}.

(** *** Random bytes and their hexadecimal form *)

(** The bytes [crypto.randomBytes] hands out during one request, in order. *)
Definition rng := nat -> byte.

Definition randomBytes (r : rng) (off len : nat) : list byte :=
  List.map r (seq off len).

Definition hex_digit (n : N) : ascii :=
  match n with
  | 0 => "0" | 1 => "1" | 2 => "2" | 3 => "3" | 4 => "4" | 5 => "5"
  | 6 => "6" | 7 => "7" | 8 => "8" | 9 => "9" | 10 => "a" | 11 => "b"
  | 12 => "c" | 13 => "d" | 14 => "e" | _ => "f"
  end%N%char.

Definition hex_of_byte (b : byte) : string :=
  String (hex_digit (Byte.to_N b / 16)) (String (hex_digit (Byte.to_N b mod 16)) "").

(** buf.toString('hex') *)
Fixpoint hex_of_bytes (bs : list byte) : string :=
  match bs with
  | [] => ""
  | b :: rest => hex_of_byte b ++ hex_of_bytes rest
  end.

(** [generateToken(length = 32)], reading the stream from [off]. *)
Definition generateToken (r : rng) (off : nat) (length : nat) : string :=
  hex_of_bytes (randomBytes r off length).

(** [generateId(prefix)] *)
Definition generateId (r : rng) (off : nat) (prefix : string) : string :=
  prefix ++ "_" ++ hex_of_bytes (randomBytes r off 8).

(** *** Character classes of the regular expressions *)

Definition is_digit (c : ascii) : bool :=
  let n := N_of_ascii c in (48 <=? n)%N && (n <=? 57)%N.

Definition is_hex_char (c : ascii) : bool :=
  let n := N_of_ascii c in
  is_digit c || ((97 <=? n)%N && (n <=? 102)%N) || ((65 <=? n)%N && (n <=? 70)%N).

Definition is_id_char (c : ascii) : bool :=
  let n := N_of_ascii c in
  is_digit c || ((97 <=? n)%N && (n <=? 122)%N) || ((65 <=? n)%N && (n <=? 90)%N)
  || (n =? 95)%N || (n =? 45)%N.

Fixpoint all_chars (p : ascii -> bool) (s : string) : bool :=
  match s with
  | EmptyString => true
  | String c rest => p c && all_chars p rest
  end.

(** *** JSON.stringify on strings *)

Definition dquote : ascii := "034"%char.
Definition backslash : ascii := "092"%char.

(** The escape JSON.stringify writes for one character of a string. *)
Definition escape_char (c : ascii) : string :=
  let n := N_of_ascii c in
  if (n =? 34)%N then String backslash (String dquote "")
  else if (n =? 92)%N then String backslash (String backslash "")
  else if (n =? 8)%N then String backslash "b"
  else if (n =? 12)%N then String backslash "f"
  else if (n =? 10)%N then String backslash "n"
  else if (n =? 13)%N then String backslash "r"
  else if (n =? 9)%N then String backslash "t"
  else if (n <? 32)%N then
    String backslash ("u00" ++ String (hex_digit (n / 16)) (String (hex_digit (n mod 16)) ""))
  else String c "".

Fixpoint escape (s : string) : string :=
  match s with
  | EmptyString => ""
  | String c rest => escape_char c ++ escape rest
  end.

(** JSON.stringify(s) for a string [s]. *)
Definition quote (s : string) : string :=
  String dquote (escape s ++ String dquote "").

Fixpoint join (sep : string) (parts : list string) : string :=
  match parts with
  | [] => ""
  | [p] => p
  | p :: rest => p ++ sep ++ join sep rest
  end.

(** One member ["k":v] of an object. *)
Definition member (k : string) (v : string) : string :=
  quote k ++ ":" ++ v.

(* ===================================================================== *)
(** ** Record store (db.js) *)
(* ===================================================================== *)

(** A row of [sessions]. *)
Record session := {
  session_id : string;
  s_customer_id : string;
  s_order_id : string;
  ephemeral_token : string;
  token_type : string;
  s_created_at : Z;
  s_expires_at : Z;
  s_status : string
}.

(** A row of [challenges]; [used] is the 0/1 column. *)
Record challenge := {
  challenge_id : string;
  c_session_id : string;
  c_dp_id : string;
  challenge_nonce : string;
  c_created_at : Z;
  c_expires_at : Z;
  used : bool
}.

(** A row of [delivery_events]; a nullable column is an [option]. *)
Record delivery_event := {
  event_id : string;
  e_session_id : string;
  e_order_id : string;
  e_customer_id : string;
  e_dp_id : string;
  ephemeral_token_hash : string;
  e_challenge_nonce : string;
  dp_signature : string;
  evidence_hashes : option string;
  timestamp : string;
  backend_received_at : string;
  anchor_hash : option string;
  tx_hash : option string;
  anchored_at : option string;
  e_status : string
}.

(** A row of [dp_keys]. *)
Record dp_key := {
  dp_id : string;
  public_key : string;
  key_type : string;
  registered_at : Z;
  k_status : string
}.

Record db := {
  sessions : list session;
  challenges : list challenge;
  delivery_events : list delivery_event;
  dp_keys : list dp_key
}.

Definition empty_db : db :=
  {| sessions := []; challenges := []; delivery_events := []; dp_keys := [] |}.

Definition with_sessions (d : db) (l : list session) : db :=
  {| sessions := l; challenges := challenges d;
     delivery_events := delivery_events d; dp_keys := dp_keys d |}.

Definition with_challenges (d : db) (l : list challenge) : db :=
  {| sessions := sessions d; challenges := l;
     delivery_events := delivery_events d; dp_keys := dp_keys d |}.

Definition with_events (d : db) (l : list delivery_event) : db :=
  {| sessions := sessions d; challenges := challenges d;
     delivery_events := l; dp_keys := dp_keys d |}.

Definition with_keys (d : db) (l : list dp_key) : db :=
  {| sessions := sessions d; challenges := challenges d;
     delivery_events := delivery_events d; dp_keys := l |}.

(** *** Sessions *)

(** SELECT * FROM sessions WHERE session_id = ? *)
Definition getSession (d : db) (id : string) : option session :=
  List.find (fun s => String.eqb (session_id s) id) (sessions d).

(** INSERT INTO sessions (...): [status] takes its default, and a taken
    primary key makes the statement fail. *)
Definition createSession (d : db) (id customer_id order_id token type : string)
    (created_at expires_at : Z) : outcome db :=
  match getSession d id with
  | Some _ => Throw "SQLITE_CONSTRAINT"
  | None =>
      Ret (with_sessions d (sessions d ++
             [{| session_id := id; s_customer_id := customer_id;
                 s_order_id := order_id; ephemeral_token := token;
                 token_type := type; s_created_at := created_at;
                 s_expires_at := expires_at; s_status := "active" |}]))
  end.

Definition set_status (status : string) (s : session) : session :=
  {| session_id := session_id s; s_customer_id := s_customer_id s;
     s_order_id := s_order_id s; ephemeral_token := ephemeral_token s;
     token_type := token_type s; s_created_at := s_created_at s;
     s_expires_at := s_expires_at s; s_status := status |}.

(** UPDATE sessions SET status = ? WHERE session_id = ? *)
Definition updateSessionStatus (d : db) (id status : string) : db :=
  with_sessions d
    (List.map (fun s => if String.eqb (session_id s) id then set_status status s else s)
       (sessions d)).

(** *** Challenges *)

Definition challenge_by_id (d : db) (id : string) : option challenge :=
  List.find (fun c => String.eqb (challenge_id c) id) (challenges d).

(** INSERT INTO challenges (...): [used] takes its default 0. *)
Definition createChallenge (d : db) (id sid dp nonce : string)
    (created_at expires_at : Z) : outcome db :=
  match challenge_by_id d id with
  | Some _ => Throw "SQLITE_CONSTRAINT"
  | None =>
      Ret (with_challenges d (challenges d ++
             [{| challenge_id := id; c_session_id := sid; c_dp_id := dp;
                 challenge_nonce := nonce; c_created_at := created_at;
                 c_expires_at := expires_at; used := false |}]))
  end.

(** WHERE session_id = ? AND dp_id = ? AND used = 0 *)
Definition open_for (sid dp : string) (c : challenge) : bool :=
  String.eqb (c_session_id c) sid && String.eqb (c_dp_id c) dp && negb (used c).

(** ORDER BY created_at DESC LIMIT 1, one row at a time.  SQLite does not
    say which of two rows with equal [created_at] comes first; the earlier
    inserted one is kept here. *)
Definition later_of (best : option challenge) (c : challenge) : option challenge :=
  match best with
  | None => Some c
  | Some b => if (c_created_at b <? c_created_at c)%Z then Some c else Some b
  end.

Definition getChallenge (d : db) (sid dp : string) : option challenge :=
  fold_left later_of (List.filter (open_for sid dp) (challenges d)) None.

Definition set_used (c : challenge) : challenge :=
  {| challenge_id := challenge_id c; c_session_id := c_session_id c;
     c_dp_id := c_dp_id c; challenge_nonce := challenge_nonce c;
     c_created_at := c_created_at c; c_expires_at := c_expires_at c;
     used := true |}.

(** UPDATE challenges SET used = 1 WHERE challenge_id = ? *)
Definition markChallengeUsed (d : db) (id : string) : db :=
  with_challenges d
    (List.map (fun c => if String.eqb (challenge_id c) id then set_used c else c)
       (challenges d)).

(** *** Delivery events *)

(** SELECT * FROM delivery_events WHERE event_id = ? *)
Definition getDeliveryEvent (d : db) (id : string) : option delivery_event :=
  List.find (fun e => String.eqb (event_id e) id) (delivery_events d).

(** INSERT INTO delivery_events (...): the four anchoring columns take
    their defaults (NULL, NULL, NULL, 'pending'). *)
Definition createDeliveryEvent (d : db) (eventData : delivery_event) : outcome db :=
  match getDeliveryEvent d (event_id eventData) with
  | Some _ => Throw "SQLITE_CONSTRAINT"
  | None => Ret (with_events d (delivery_events d ++ [eventData]))
  end.

Definition set_anchor (h tx t : string) (e : delivery_event) : delivery_event :=
  {| event_id := event_id e; e_session_id := e_session_id e;
     e_order_id := e_order_id e; e_customer_id := e_customer_id e;
     e_dp_id := e_dp_id e; ephemeral_token_hash := ephemeral_token_hash e;
     e_challenge_nonce := e_challenge_nonce e; dp_signature := dp_signature e;
     evidence_hashes := evidence_hashes e; timestamp := timestamp e;
     backend_received_at := backend_received_at e;
     anchor_hash := Some h; tx_hash := Some tx; anchored_at := Some t;
     e_status := "anchored" |}.

(** UPDATE delivery_events SET anchor_hash = ?, tx_hash = ?, anchored_at = ?,
    status = 'anchored' WHERE event_id = ? *)
Definition updateEventAnchor (d : db) (id h tx t : string) : db :=
  with_events d
    (List.map (fun e => if String.eqb (event_id e) id then set_anchor h tx t e else e)
       (delivery_events d)).

(** *** Delivery-partner keys *)

(** SELECT * FROM dp_keys WHERE dp_id = ? AND status = "active" *)
Definition getDPKey (d : db) (id : string) : option dp_key :=
  List.find (fun k => String.eqb (dp_id k) id && String.eqb (k_status k) "active")
    (dp_keys d).

(** INSERT OR REPLACE INTO dp_keys (dp_id, public_key, key_type, registered_at):
    a row with the same primary key is deleted first. *)
Definition registerDPKey (d : db) (id key : string) (now : Z) : db :=
  with_keys d
    (List.filter (fun k => negb (String.eqb (dp_id k) id)) (dp_keys d) ++
       [{| dp_id := id; public_key := key; key_type := "secp256k1";
           registered_at := now; k_status := "active" |}]).

(* ===================================================================== *)
(** ** Server state and the handler monad *)
(* ===================================================================== *)

(** The store behind [db], and the module variable [contract]: [None] until
    [initBlockchain] succeeds, afterwards the registry the handle points at. *)
Record world := {
  store : db;
  contract : option AnchorRegistry.state
}.

Definition with_store (w : world) (d : db) : world :=
  {| store := d; contract := contract w |}.

Definition with_contract (w : world) (c : AnchorRegistry.state) : world :=
  {| store := store w; contract := Some c |}.

(** What one request reads from outside the server: the successive readings
    of [Date.now()], the successive results of [new Date().toISOString()],
    the random bytes, and the fate of a transaction it sends: [rpc_ok] says
    that the node answers a call and takes the transaction, [wait_ok] that
    [tx.wait()] then resolves, with a receipt of hash [receipt_hash]. *)
Record io := {
  clock : nat -> Z;
  iso_clock : nat -> string;
  random : rng;
  tx : AnchorRegistry.tx_env;
  receipt_hash : string;
  rpc_ok : bool;
  wait_ok : bool
}.

(** Code that reads and writes the world and may throw; what was written
    before a throw stays written. *)
Definition M (A : Type) : Type := world -> outcome A * world.

Definition ret {A} (a : A) : M A := fun w => (Ret a, w).

Definition throw {A} (e : string) : M A := fun w => (Throw e, w).

Definition bind {A B} (m : M A) (k : A -> M B) : M B :=
  fun w =>
    match m w with
    | (Ret a, w') => k a w'
    | (Throw e, w') => (Throw e, w')
    end.

Notation "'let*' x ':=' m 'in' k" := (bind m (fun x => k))
  (at level 10, x name, m at level 100, k at level 200).
Notation "m ';;' k" := (bind m (fun _ => k))
  (at level 100, k at level 200, right associativity).

(** Code that may throw and leaves the world alone. *)
Definition lift {A} (o : outcome A) : M A := fun w => (o, w).

(** await db.get... *)
Definition query {A} (f : db -> A) : M A := fun w => (Ret (f (store w)), w).

(** await db.run(UPDATE ...) *)
Definition update (f : db -> db) : M unit :=
  fun w => (Ret tt, with_store w (f (store w))).

(** await db.run(INSERT ...) *)
Definition insert (f : db -> outcome db) : M unit :=
  fun w =>
    match f (store w) with
    | Ret d => (Ret tt, with_store w d)
    | Throw e => (Throw e, w)
    end.

(** try { m } catch (e) { h e } *)
Definition try_catch {A} (m : M A) (h : string -> M A) : M A :=
  fun w =>
    match m w with
    | (Ret a, w') => (Ret a, w')
    | (Throw e, w') => h e w'
    end.

(** *** Requests and responses *)

(** The body of POST /api/v1/sessions, for the requests whose two ids are
    strings or absent and whose [ttl_seconds] is absent or a number that is
    an integer, as [JSON.parse] read it; the handler validates neither. *)
Record session_req := {
  sr_customer_id : option string;
  sr_order_id : option string;
  sr_ttl_seconds : option Z
}.

(** The body of POST /api/v1/deliveries: each member is any value of the
    JSON body, or absent. *)
Record delivery_req := {
  dr_session_id : jsval;
  dr_dp_id : jsval;
  dr_signed_blob : jsval;
  dr_evidence_hashes : jsval
}.

(** The body of the report of GET /api/v1/deliveries/:event_id/verify. *)
Record verification := {
  v_event_id : string;
  v_session_id : string;
  v_order_id : string;
  v_dp_id : string;
  v_timestamp : string;
  v_status : string;
  v_tx_hash : option string;
  v_anchor_hash : option string;
  v_anchored_at : option string;
  blockchain_verified : bool
}.

Inductive response :=
| Error (status : Z) (error : string)
| SessionCreated (session_id ephemeral_token token_type expires_at : string)
    (ttl_seconds : Z)
| ChallengeIssued (challenge_nonce expires_at : string)
| Verified (event_id : string) (txHash : option string)
| Report (r : verification)
| Registered (dp_id : string).

(** The outer [try { ... } catch (error) { res.status(500)... }] of a handler. *)
Definition handle (m : M response) (w : world) : response * world :=
  match m w with
  | (Ret r, w') => (r, w')
  | (Throw _, w') => (Error 500 "Internal server error", w')
  end.

(** A request field that passed its [!field] test. *)
Definition given (s : option string) : option string :=
  if missing s then None else s.

(** A member of a request body that passed its [!member] test, as received. *)
Definition present (v : jsval) : option json :=
  if falsy v then None else v.

(** An argument that passed [!v || typeof v !== 'string']. *)
Definition string_arg (v : jsval) : option string :=
  if falsy v || not_a_string v then None
  else match v with
       | Some (JStr s) => Some s
       | _ => None
       end.

(** *** 0x-prefixed hexadecimal to bytes32, as ethers encodes the argument *)

Definition hex_value (c : ascii) : option N :=
  let n := N_of_ascii c in
  if is_digit c then Some (n - 48)%N
  else if (97 <=? n)%N && (n <=? 102)%N then Some (n - 87)%N
  else if (65 <=? n)%N && (n <=? 70)%N then Some (n - 55)%N
  else None.

Fixpoint hex_number (acc : N) (s : string) : option N :=
  match s with
  | EmptyString => Some acc
  | String c rest =>
      match hex_value c with
      | Some d => hex_number (16 * acc + d)%N rest
      | None => None
      end
  end.

Definition bytes32_of_hex (s : string) : option N :=
  match s with
  | String "0" (String "x" digits) =>
      if Nat.eqb (String.length digits) 64 then hex_number 0 digits else None
  | _ => None
  end.

(* ===================================================================== *)
(** ** Handlers (server.js) *)
(* ===================================================================== *)

Section Server.

Context {P : Platform}.

Definition hashString (data : string) : string := sha256_hex data.

(** [hashString] on a value that need not be a string: [update] of the hash
    throws on anything JSON can yield but a string. *)
Definition hashString_any (data : jsval) : outcome string :=
  match data with
  | Some (JStr s) => Ret (hashString s)
  | _ => Throw "ERR_INVALID_ARG_TYPE"
  end.

(** The text under which the store looks up, and keeps, a value bound to
    a statement where the column is TEXT. *)
Definition sql_text (v : json) : string :=
  match v with
  | JStr s => s
  | _ => bind_text v
  end.

(** JSON.stringify(v); the members of an object are listed in the order of
    its keys. *)
Fixpoint stringify (v : json) : string :=
  match v with
  | JNull => "null"
  | JBool b => if b then "true" else "false"
  | JNum n => number_json n
  | JStr s => quote s
  | JArr items => "[" ++ join "," (List.map stringify items) ++ "]"
  | JObj fields =>
      "{" ++ join "," (List.map (fun kv => let '(k, x) := kv in member k (stringify x))
                         fields) ++ "}"
  end.

(** Buffer.from(v, 'base64').toString('utf8') *)
Definition blob_text (v : json) : outcome string :=
  match v with
  | JStr s => Ret (base64_utf8 s)
  | _ => match buffer_utf8 v with
         | Some text => Ret text
         | None => Throw "TypeError"
         end
  end.

(** [eventData.evidence_hashes || []], stringified. *)
Definition evidence_or_empty (e : option string) : string :=
  match e with
  | Some s => if String.eqb s "" then "[]" else quote s
  | None => "[]"
  end.

(** The text [canonicalizeEvent] writes for an event whose members
    [session_id] and [dp_id] have the JSON texts [session_id] and [dp_id]
    and whose other members are the strings of [eventData]. *)
Definition canonical_members (session_id dp_id : string) (eventData : delivery_event)
    : string :=
  "{" ++ member "session_id" session_id
  ++ "," ++ member "order_id" (quote (e_order_id eventData))
  ++ "," ++ member "customer_id" (quote (e_customer_id eventData))
  ++ "," ++ member "dp_id" dp_id
  ++ "," ++ member "ephemeral_token_hash" (quote (ephemeral_token_hash eventData))
  ++ "," ++ member "challenge_nonce" (quote (e_challenge_nonce eventData))
  ++ "," ++ member "dp_signature" (quote (dp_signature eventData))
  ++ "," ++ member "evidence_hashes" (evidence_or_empty (evidence_hashes eventData))
  ++ "," ++ member "timestamp" (quote (timestamp eventData))
  ++ "," ++ member "backend_received_at" (quote (backend_received_at eventData))
  ++ "}".

(** [canonicalizeEvent] on an event whose members are strings, as a row of
    the store has them. *)
Definition canonicalizeEvent (eventData : delivery_event) : string :=
  canonical_members (quote (e_session_id eventData)) (quote (e_dp_id eventData))
    eventData.

(** [canonicalizeEvent] on the object [eventData] of the delivery handler:
    its members [session_id] and [dp_id] are the values of the request body
    as received, the store keeps their texts, and the other members are
    the strings the store keeps. *)
Definition canonicalizeEvent_built (session_id dp_id : json)
    (eventData : delivery_event) : string :=
  canonical_members (stringify session_id) (stringify dp_id) eventData.

(** The body of [verifySignature], inside its [try]. *)
Definition verifySignature_try (publicKeyHex message signatureHex : jsval)
    : outcome bool :=
  match string_arg publicKeyHex with
  | None => Ret false
  | Some pk =>
      match string_arg signatureHex with
      | None => Ret false
      | Some sg =>
          if negb (all_chars is_hex_char sg) then Ret false
          else if negb (Nat.eqb (String.length sg) 128) then Ret false
          else if negb (ec_keyFromPublic pk) then Throw "invalid public key"
          else
            match hashString_any message with
            | Throw e => Throw e
            | Ret msgHash =>
                ec_verify pk msgHash (substring 0 64 sg) (substring 64 64 sg)
            end
      end
  end.

(** [verifySignature]: the body in its [try], and
    [catch (error) { ...; return false; }] around it. *)
Definition verifySignature (publicKeyHex message signatureHex : jsval)
    : outcome bool :=
  match verifySignature_try publicKeyHex message signatureHex with
  | Ret b => Ret b
  | Throw _ => Ret false
  end.

(** *** POST /api/v1/sessions *)

Definition post_sessions_body (req : session_req) (env : io) : M response :=
  let ttl_seconds := default 300%Z (sr_ttl_seconds req) in
  match given (sr_customer_id req), given (sr_order_id req) with
  | Some customer_id, Some order_id =>
      let session_id := generateId (random env) 0 "s" in
      let ephemeral_token := generateToken (random env) 8 32 in
      let created_at := clock env 0 in
      let expires_at := to_double (created_at + to_double (ttl_seconds * 1000)) in
      insert (fun d => createSession d session_id customer_id order_id
                         ephemeral_token "BLE" created_at expires_at) ;;
      match toISOString expires_at with
      | None => throw "RangeError"
      | Some iso => ret (SessionCreated session_id ephemeral_token "BLE" iso ttl_seconds)
      end
  | _, _ => ret (Error 400 "customer_id and order_id required")
  end.

Definition post_sessions (req : session_req) (env : io) (w : world)
    : response * world :=
  handle (post_sessions_body req env) w.

(** *** POST /api/v1/sessions/:session_id/challenge *)

(** [session_id] is the path parameter, a string; [dp_id] is the member of
    the body, a string or absent. *)
Definition post_challenge_body (session_id : string) (dp_id : option string)
    (env : io) : M response :=
  match given dp_id with
  | None => ret (Error 400 "dp_id required")
  | Some dp_id =>
      let* session := query (fun d => getSession d session_id) in
      match session with
      | None => ret (Error 404 "Session not found")
      | Some session =>
          if (s_expires_at session <? clock env 0)%Z
          then ret (Error 400 "Session expired")
          else if negb (String.eqb (s_status session) "active")
          then ret (Error 400 "Session not active")
          else
            let* dpKey := query (fun d => getDPKey d dp_id) in
            match dpKey with
            | None => ret (Error 403 "Delivery partner not registered")
            | Some _ =>
                let challenge_id := generateId (random env) 0 "ch" in
                let challenge_nonce := generateToken (random env) 8 16 in
                let created_at := clock env 1 in
                let expires_at := (created_at + 60 * 1000)%Z in
                insert (fun d => createChallenge d challenge_id session_id dp_id
                                   challenge_nonce created_at expires_at) ;;
                match toISOString expires_at with
                | None => throw "RangeError"
                | Some iso => ret (ChallengeIssued challenge_nonce iso)
                end
            end
      end
  end.

Definition post_challenge (session_id : string) (dp_id : option string)
    (env : io) (w : world) : response * world :=
  handle (post_challenge_body session_id dp_id env) w.

(** *** POST /api/v1/deliveries *)

(** The local variables the handler still needs once every check has
    passed; [session_id], [dp_id] and [evidence_hashes] are the values of
    the request body. *)
Record ticket := {
  t_session_id : json;
  t_dp_id : json;
  t_session : session;
  t_challenge : challenge;
  t_signature : string;
  t_evidence_hashes : json
}.

(** [await contract.storeAnchor(anchor_hash, event_id)]: the call fails when
    the node cannot be reached, when the argument is no bytes32, and when
    the contract reverts, which the estimate of the gas finds before
    anything is sent; otherwise the transaction is on the chain. *)
Definition contract_storeAnchor (env : io) (anchor_hash event_id : string) : M unit :=
  fun w =>
    match contract w with
    | None => (Throw "contract is undefined", w)
    | Some chain =>
        if negb (rpc_ok env) then (Throw "network error", w)
        else
          match bytes32_of_hex anchor_hash with
          | None => (Throw "invalid BytesLike value", w)
          | Some h =>
              match AnchorRegistry.storeAnchor (tx env) h event_id chain with
              | AnchorRegistry.Success chain' => (Ret tt, with_contract w chain')
              | AnchorRegistry.Revert reason => (Throw reason, w)
              end
          end
    end.

(** [contract.isAnchored(anchor_hash)] *)
Definition contract_isAnchored (env : io) (anchor_hash : string)
    (chain : AnchorRegistry.state) : outcome bool :=
  if negb (rpc_ok env) then Throw "network error"
  else
    match bytes32_of_hex anchor_hash with
    | None => Throw "invalid BytesLike value"
    | Some h => Ret (AnchorRegistry.isAnchored chain h)
    end.

(** [await tx.wait()]: the hash of the receipt, or a rejection that leaves
    the transaction where it is. *)
Definition tx_wait (env : io) : M string :=
  if wait_ok env then ret (receipt_hash env) else throw "transaction not confirmed".

(** The block "Anchor to blockchain" for the event object whose members
    [session_id] and [dp_id] are the values of the request: [txHash] stays
    [null] without a contract and whenever the inner [try] fails. *)
Definition anchor (session_id dp_id : json) (eventData : delivery_event) (env : io)
    : M (option string) :=
  fun w =>
    match contract w with
    | None => (Ret None, w)
    | Some _ =>
        try_catch
          (let canonicalJson := canonicalizeEvent_built session_id dp_id eventData in
           let anchor_hash := "0x" ++ hashString canonicalJson in
           contract_storeAnchor env anchor_hash (event_id eventData) ;;
           let* txHash := tx_wait env in
           let anchored_at := iso_clock env 2 in
           update (fun d => updateEventAnchor d (event_id eventData) anchor_hash
                              txHash anchored_at) ;;
           ret (Some txHash))
          (fun _ => ret None) w
    end.

(** From the top of the handler to the last check: only reads. *)
Definition deliveries_checks (req : delivery_req) (env : io) : M (response + ticket) :=
  match present (dr_session_id req), present (dr_dp_id req),
        present (dr_signed_blob req) with
  | Some session_id, Some dp_id, Some signed_blob =>
      let* session := query (fun d => getSession d (sql_text session_id)) in
      match session with
      | None => ret (inl (Error 404 "Session not found"))
      | Some session =>
      let* challenge :=
        query (fun d => getChallenge d (sql_text session_id) (sql_text dp_id)) in
      match challenge with
      | None => ret (inl (Error 400 "No active challenge found"))
      | Some challenge =>
      if (c_expires_at challenge <? clock env 0)%Z
      then ret (inl (Error 400 "Challenge expired"))
      else
      let* dpKey := query (fun d => getDPKey d (sql_text dp_id)) in
      match dpKey with
      | None => ret (inl (Error 403 "Delivery partner not registered"))
      | Some dpKey =>
      let* text := lift (blob_text signed_blob) in
      match JSON_parse text with
      | None => throw "SyntaxError"
      | Some signedData =>
      let* message := lift (get_prop signedData "message") in
      let* signature := lift (get_prop signedData "signature") in
      let* isValid := lift (verifySignature (Some (JStr (public_key dpKey)))
                              message signature) in
      if negb isValid
      then ret (inl (Error 401 "Invalid signature"))
      else
      match message, signature with
      | Some (JStr message), Some (JStr signature) =>
          match JSON_parse message with
          | None => throw "SyntaxError"
          | Some messageData =>
          let* m_session_id := lift (get_prop messageData "session_id") in
          let* m_nonce := lift (get_prop messageData "challenge_nonce") in
          if strict_ne_value m_session_id session_id
             || strict_ne m_nonce (challenge_nonce challenge)
          then ret (inl (Error 400 "Message data mismatch"))
          else ret (inr {| t_session_id := session_id; t_dp_id := dp_id;
                           t_session := session; t_challenge := challenge;
                           t_signature := signature;
                           t_evidence_hashes :=
                             default (JArr []) (dr_evidence_hashes req) |})
          end
      | _, _ => throw "not reached: verifySignature accepts strings only"
      end
      end
      end
      end
      end
  | _, _, _ => ret (inl (Error 400 "session_id, dp_id, and signed_blob required"))
  end.

(** The event the handler builds from its local variables, as the store
    keeps it: [session_id] and [dp_id] are bound as they were received. *)
Definition eventData_of (t : ticket) (env : io) : delivery_event :=
  {| event_id := generateId (random env) 0 "evt";
     e_session_id := sql_text (t_session_id t);
     e_order_id := s_order_id (t_session t);
     e_customer_id := s_customer_id (t_session t);
     e_dp_id := sql_text (t_dp_id t);
     ephemeral_token_hash := "sha256:" ++ hashString (ephemeral_token (t_session t));
     e_challenge_nonce := challenge_nonce (t_challenge t);
     dp_signature := t_signature t;
     evidence_hashes := Some (stringify (t_evidence_hashes t));
     timestamp := iso_clock env 0;
     backend_received_at := iso_clock env 1;
     anchor_hash := None; tx_hash := None; anchored_at := None;
     e_status := "pending" |}.

(** From "Mark challenge as used" to the response: the writes. *)
Definition deliveries_commit (t : ticket) (env : io) : M response :=
  update (fun d => markChallengeUsed d (challenge_id (t_challenge t))) ;;
  let eventData := eventData_of t env in
  insert (fun d => createDeliveryEvent d eventData) ;;
  update (fun d => updateSessionStatus d (sql_text (t_session_id t)) "completed") ;;
  let* txHash := anchor (t_session_id t) (t_dp_id t) eventData env in
  ret (Verified (event_id eventData) txHash).

Definition post_deliveries_body (req : delivery_req) (env : io) : M response :=
  let* checked := deliveries_checks req env in
  match checked with
  | inl rejected => ret rejected
  | inr t => deliveries_commit t env
  end.

Definition post_deliveries (req : delivery_req) (env : io) (w : world)
    : response * world :=
  handle (post_deliveries_body req env) w.

(** *** GET /api/v1/deliveries/:event_id/verify *)

Definition get_verify_body (id : string) (env : io) : M response :=
  let* event := query (fun d => getDeliveryEvent d id) in
  match event with
  | None => ret (Error 404 "Event not found")
  | Some event =>
      fun w =>
        let blockchainVerified :=
          match contract w, given (anchor_hash event) with
          | Some chain, Some h =>
              match contract_isAnchored env h chain with
              | Ret isAnchored => isAnchored
              | Throw _ => false
              end
          | _, _ => false
          end in
        ret (Report {| v_event_id := event_id event;
                       v_session_id := e_session_id event;
                       v_order_id := e_order_id event;
                       v_dp_id := e_dp_id event;
                       v_timestamp := timestamp event;
                       v_status := e_status event;
                       v_tx_hash := tx_hash event;
                       v_anchor_hash := anchor_hash event;
                       v_anchored_at := anchored_at event;
                       blockchain_verified := blockchainVerified |}) w
  end.

Definition get_verify (id : string) (env : io) (w : world) : response * world :=
  handle (get_verify_body id env) w.

(** *** POST /api/v1/dp/register *)

Definition blank (s : string) : bool := Nat.eqb (String.length (str_trim s)) 0.

(** From the top of the handler to the look-up of the partner: only reads.
    What passes is the id and the trimmed key. *)
Definition register_checks (dp_id public_key : jsval) : M (response + string * string) :=
  match string_arg dp_id with
  | None => ret (inl (Error 400 "dp_id must be a non-empty string"))
  | Some id =>
  if blank id then ret (inl (Error 400 "dp_id must be a non-empty string"))
  else
  match string_arg public_key with
  | None => ret (inl (Error 400 "public_key must be a non-empty string"))
  | Some key =>
  if blank key then ret (inl (Error 400 "public_key must be a non-empty string"))
  else if negb (all_chars is_id_char id && Nat.leb 1 (String.length id)
                && Nat.leb (String.length id) 128)
  then ret (inl (Error 400 "dp_id must be alphanumeric (1-128 chars)"))
  else
  let trimmedKey := str_trim key in
  if negb (all_chars is_hex_char trimmedKey && Nat.eqb (String.length trimmedKey) 130)
  then ret (inl (Error 400 "public_key must be 130 hex chars (secp256k1 uncompressed)"))
  else if negb (ec_keyFromPublic trimmedKey)
  then ret (inl (Error 400 "Invalid public key format"))
  else
  let* existingKey := query (fun d => getDPKey d id) in
  match existingKey with
  | Some _ => ret (inl (Error 409 "DP already registered"))
  | None => ret (inr (id, trimmedKey))
  end
  end
  end.

(** From [await db.registerDPKey(...)] to the response: the write. *)
Definition register_commit (id trimmedKey : string) (env : io) : M response :=
  update (fun d => registerDPKey d id trimmedKey (clock env 0)) ;;
  ret (Registered id).

Definition post_dp_register_body (dp_id public_key : jsval) (env : io) : M response :=
  let* checked := register_checks dp_id public_key in
  match checked with
  | inl rejected => ret rejected
  | inr (id, trimmedKey) => register_commit id trimmedKey env
  end.

(** The handler's own [catch]: a constraint error is a 409. *)
Definition register_handle (m : M response) (w : world) : response * world :=
  match m w with
  | (Ret r, w') => (r, w')
  | (Throw e, w') =>
      if String.eqb e "SQLITE_CONSTRAINT" then (Error 409 "DP already registered", w')
      else (Error 500 "Internal server error", w')
  end.

Definition post_dp_register (dp_id public_key : jsval) (env : io) (w : world)
    : response * world :=
  register_handle (post_dp_register_body dp_id public_key env) w.

(** *** The server, one request after the other

    [serve_all] is the run in which no two requests overlap: each handler
    finishes before the next request starts.  The runs in which requests
    overlap are those of [overlapped] and [registrations_overlapped]
    below. *)

Inductive request :=
| PostSessions (req : session_req)
| PostChallenge (session_id : string) (dp_id : option string)
| PostDeliveries (req : delivery_req)
| GetVerify (event_id : string)
| PostRegister (dp_id public_key : jsval).

Definition serve (rq : request) (env : io) (w : world) : response * world :=
  match rq with
  | PostSessions req => post_sessions req env w
  | PostChallenge session_id dp_id => post_challenge session_id dp_id env w
  | PostDeliveries req => post_deliveries req env w
  | GetVerify id => get_verify id env w
  | PostRegister dp_id public_key => post_dp_register dp_id public_key env w
  end.

Fixpoint serve_all (rqs : list (request * io)) (w : world) : world :=
  match rqs with
  | [] => w
  | (rq, env) :: rest => serve_all rest (snd (serve rq env w))
  end.

(** *** Two deliveries in flight

    Every [await] of the handler hands control to the other requests.  The
    halves below cut the handler at the [await] between its last check and
    its first write. *)

Definition deliveries_begin (req : delivery_req) (env : io) (w : world)
    : response + ticket :=
  match deliveries_checks req env w with
  | (Ret checked, _) => checked
  | (Throw _, _) => inl (Error 500 "Internal server error")
  end.

Definition deliveries_end (t : ticket) (env : io) (w : world) : response * world :=
  handle (deliveries_commit t env) w.

(** One request carried from the cut to its response. *)
Definition resume (checked : response + ticket) (env : io) (w : world)
    : response * world :=
  match checked with
  | inl rejected => (rejected, w)
  | inr t => deliveries_end t env w
  end.

(** Two requests that overlap: the checks of both run on the same store,
    then the writes of the first, then the writes of the second. *)
Definition overlapped (req1 : delivery_req) (env1 : io) (req2 : delivery_req)
    (env2 : io) (w : world) : response * response * world :=
  let checked1 := deliveries_begin req1 env1 w in
  let checked2 := deliveries_begin req2 env2 w in
  let done1 := resume checked1 env1 w in
  let done2 := resume checked2 env2 (snd done1) in
  (fst done1, fst done2, snd done2).

(** *** Two registrations in flight

    The registration handler cut at the [await] between its look-up of the
    partner and its write. *)

Definition register_begin (dp_id public_key : jsval) (w : world)
    : response + string * string :=
  match register_checks dp_id public_key w with
  | (Ret checked, _) => checked
  | (Throw _, _) => inl (Error 500 "Internal server error")
  end.

Definition register_end (id trimmedKey : string) (env : io) (w : world)
    : response * world :=
  register_handle (register_commit id trimmedKey env) w.

Definition register_resume (checked : response + string * string) (env : io)
    (w : world) : response * world :=
  match checked with
  | inl rejected => (rejected, w)
  | inr (id, trimmedKey) => register_end id trimmedKey env w
  end.

(** Two registrations that overlap: the look-ups of both run on the same
    store, then the write of the first, then the write of the second. *)
Definition registrations_overlapped (dp_id1 public_key1 : jsval) (env1 : io)
    (dp_id2 public_key2 : jsval) (env2 : io) (w : world)
    : response * response * world :=
  let checked1 := register_begin dp_id1 public_key1 w in
  let checked2 := register_begin dp_id2 public_key2 w in
  let done1 := register_resume checked1 env1 w in
  let done2 := register_resume checked2 env2 (snd done1) in
  (fst done1, fst done2, snd done2).

End Server.

(* ===================================================================== *)
(** ** GET /health (server.js) and its caller (scripts/run_demo.js) *)
(* ===================================================================== *)

(** The body of the answer of GET /health. *)
Record health := {
  h_status : string;
  h_blockchain : string;
  h_timestamp : string
}.

(** The handler reads the module variable [contract] and the clock; it
    sends no request to the node. *)
Definition get_health (env : io) (w : world) : health :=
  {| h_status := "ok";
     h_blockchain := match contract w with
                     | Some _ => "connected"
                     | None => "disconnected"
                     end;
     h_timestamp := iso_clock env 0 |}.

(** How one probe of [checkHealth] ends: the answer has status 200; it has
    another status or the request fails; neither happens. *)
Inductive probe := Healthy | Unhealthy | Pending.

(** The [for] loop of [checkHealth(maxAttempts)] on the probes of an
    environment, counting the pauses of 1000 ms; [None] when a probe never
    settles. *)
Fixpoint checkHealth_loop (probes : nat -> probe) (maxAttempts remaining paused : nat)
    : option (outcome bool * nat) :=
  match remaining with
  | O => Some (Throw "Backend health check failed", paused)
  | S rest =>
      let i := maxAttempts - remaining in
      match probes i with
      | Healthy => Some (Ret true, paused)
      | Pending => None
      | Unhealthy =>
          checkHealth_loop probes maxAttempts rest
            (if Nat.ltb i (maxAttempts - 1) then S paused else paused)
      end
  end.

Definition checkHealth (probes : nat -> probe) (maxAttempts : nat)
    : option (outcome bool * nat) :=
  checkHealth_loop probes maxAttempts maxAttempts 0.

(* ===================================================================== *)
(** ** Reading back what [quote] wrote *)
(* ===================================================================== *)

Definition simple_escape (e : ascii) : option ascii :=
  let n := N_of_ascii e in
  if (n =? 34)%N then Some dquote
  else if (n =? 92)%N then Some backslash
  else if (n =? 98)%N then Some "008"%char
  else if (n =? 102)%N then Some "012"%char
  else if (n =? 110)%N then Some "010"%char
  else if (n =? 114)%N then Some "013"%char
  else if (n =? 116)%N then Some "009"%char
  else None.

(** The character of a [\u00XY] escape. *)
Definition low_escape (a b x y : ascii) : option ascii :=
  match hex_value a, hex_value b, hex_value x, hex_value y with
  | Some 0%N, Some 0%N, Some h, Some l => Some (ascii_of_N (16 * h + l))
  | _, _, _, _ => None
  end.

(** Reads the inside of a string literal up to its closing quote: the text
    it denotes and what follows the quote. *)
Fixpoint unquote_tail (s : string) : option (string * string) :=
  match s with
  | EmptyString => None
  | String c rest =>
      if Ascii.eqb c dquote then Some ("", rest)
      else if Ascii.eqb c backslash then
        match rest with
        | String e rest' =>
            match simple_escape e with
            | Some ch =>
                match unquote_tail rest' with
                | Some (text, after) => Some (String ch text, after)
                | None => None
                end
            | None =>
                match e, rest' with
                | "u"%char, String a (String b (String x (String y rest''))) =>
                    match low_escape a b x y, unquote_tail rest'' with
                    | Some ch, Some (text, after) => Some (String ch text, after)
                    | _, _ => None
                    end
                | _, _ => None
                end
            end
        | EmptyString => None
        end
      else if (N_of_ascii c <? 32)%N then None
      else
        match unquote_tail rest with
        | Some (text, after) => Some (String c text, after)
        | None => None
        end
  end.

(** Reads one string literal at the head of [s]. *)
Definition unquote (s : string) : option (string * string) :=
  match s with
  | String c rest => if Ascii.eqb c dquote then unquote_tail rest else None
  | EmptyString => None
  end.

(* ===================================================================== *)
(** ** A small platform for the examples

    Stand-ins for the Node functions, enough to run the handlers on the
    requests of the examples: a 256-bit checksum for SHA-256, a signature
    check that compares with a checksum of key and digest, the identity for
    base64, a JSON reader for [null] and for objects whose members are
    strings written without white space, decimal digits for a number, no
    buffer from a value that is no string, and for the text the store makes
    of such a value its digits, 1 or 0, or "[object Object]". *)
(* ===================================================================== *)

Module Demo.

Definition low_256 : N := Eval vm_compute in N.ones 256.

Fixpoint checksum (acc : N) (s : string) : N :=
  match s with
  | EmptyString => acc
  | String c rest => checksum (N.land (acc * 257 + N_of_ascii c + 1) low_256) rest
  end.

Fixpoint hex_fixed (digits : nat) (x : N) : string :=
  match digits with
  | O => ""
  | S k => hex_fixed k (x / 16)%N ++ String (hex_digit (x mod 16)%N) ""
  end.

Definition digest (s : string) : string := hex_fixed 64 (checksum 7 s).

(** The 128 characters a key holder writes under a digest. *)
Definition sign (publicKeyHex msgHash : string) : string :=
  digest (publicKeyHex ++ "/r/" ++ msgHash) ++ digest (publicKeyHex ++ "/s/" ++ msgHash).

Definition keyFromPublic (hex : string) : bool :=
  all_chars is_hex_char hex && Nat.eqb (String.length hex) 130.

Definition verify (publicKeyHex msgHash r s : string) : outcome bool :=
  Ret (String.eqb (r ++ s) (sign publicKeyHex msgHash)).

(** Members ["k":"v"] separated by commas, up to the closing brace. *)
Fixpoint members (fuel : nat) (s : string) : option (list (string * json)) :=
  match fuel with
  | O => None
  | S fuel' =>
      match unquote s with
      | Some (k, String ":" after_colon) =>
          match unquote after_colon with
          | Some (v, String "}" EmptyString) => Some [(k, JStr v)]
          | Some (v, String "," more) =>
              match members fuel' more with
              | Some rest => Some ((k, JStr v) :: rest)
              | None => None
              end
          | _ => None
          end
      | _ => None
      end
  end.

Definition parse (s : string) : option json :=
  if String.eqb s "null" then Some JNull
  else if String.eqb s "{}" then Some (JObj [])
  else
    match s with
    | String "{" body =>
        match members (String.length body) body with
        | Some fields => Some (JObj fields)
        | None => None
        end
    | _ => None
    end.

Fixpoint decimal (fuel : nat) (n : N) : string :=
  match fuel with
  | O => ""
  | S fuel' =>
      (if (n <? 10)%N then "" else decimal fuel' (n / 10)%N)
      ++ String (hex_digit (n mod 10)%N) ""
  end.

(** A Date holds at most 8.64e15 ms either side of the epoch. *)
Definition iso (ms : Z) : option string :=
  if (Z.abs ms <=? 8640000000000000)%Z
  then Some ((if (ms <? 0)%Z then "-" else "") ++ decimal 20 (Z.abs_N ms) ++ "ms")
  else None.

Fixpoint drop_spaces (s : string) : string :=
  match s with
  | String " " rest => drop_spaces rest
  | _ => s
  end.

Fixpoint reverse (acc s : string) : string :=
  match s with
  | EmptyString => acc
  | String c rest => reverse (String c acc) rest
  end.

Definition trim (s : string) : string :=
  reverse "" (drop_spaces (reverse "" (drop_spaces s))).

Definition digits (n : Z) : string :=
  (if (n <? 0)%Z then "-" else "") ++ decimal 20 (Z.abs_N n).

Definition text_of (v : json) : string :=
  match v with
  | JNum n => digits n
  | JBool b => if b then "1" else "0"
  | _ => "[object Object]"
  end.

#[local] Instance platform : Platform := {|
  sha256_hex := digest;
  ec_keyFromPublic := keyFromPublic;
  ec_verify := verify;
  base64_utf8 := fun s => s;
  buffer_utf8 := fun _ => None;
  JSON_parse := parse;
  number_json := digits;
  toISOString := iso;
  str_trim := trim;
  bind_text := text_of
|}.

(** What simulate_dp_submit.js signs and sends: the message is
    JSON.stringify of the five fields, the blob JSON.stringify of message
    and signature. *)
Definition message (session_id token_hash nonce time dp : string) : string :=
  "{" ++ member "session_id" (quote session_id)
  ++ "," ++ member "ephemeral_token_hash" (quote token_hash)
  ++ "," ++ member "challenge_nonce" (quote nonce)
  ++ "," ++ member "timestamp" (quote time)
  ++ "," ++ member "dp_id" (quote dp) ++ "}".

Definition signed_blob (msg signatureHex : string) : string :=
  "{" ++ member "message" (quote msg)
  ++ "," ++ member "signature" (quote signatureHex) ++ "}".

(** The randomness and clock of a request in the examples: every random
    byte is [b], every reading of the clock is [t]. *)
Definition env (b : byte) (t : Z) : io :=
  {| clock := fun _ => t; iso_clock := fun _ => "T" ++ decimal 20 (Z.to_N t);
     random := fun _ => b;
     tx := {| AnchorRegistry.msg_sender := 1; AnchorRegistry.block_timestamp := Z.to_N t |};
     receipt_hash := "0xtx" ++ decimal 20 (Z.to_N t); rpc_ok := true;
     wait_ok := true |}.

Definition key : string :=
  "04" ++ hex_fixed 128 0.

Definition fresh (c : option AnchorRegistry.state) : world :=
  {| store := empty_db; contract := c |}.

End Demo.

(* ===================================================================== *)
(** * Properties *)
(* ===================================================================== *)

Local Open Scope list_scope.

(** ** The anchor registry *)

Section RegistryFacts.

Import AnchorRegistry.

(** A hash has one ledger record when the mapping holds it and none otherwise. *)
Definition one_record_each (st : state) : Prop :=
  forall h, List.length (records_of st h) = if isAnchored st h then 1 else 0.

Lemma isAnchored_set st h h' :
  isAnchored (set_anchored st h) h' = if N.eqb h h' then true else isAnchored st h'.
Proof.
  unfold isAnchored, set_anchored; simpl.
  destruct (N.eqb_spec h h') as [->|Hne].
  - now rewrite lookup_insert_eq.
  - now rewrite lookup_insert_ne.
Qed.

Lemma isAnchored_emit st e h : isAnchored (emit st e) h = isAnchored st h.
Proof. reflexivity. Qed.

Lemma records_emit st e h :
  records_of (emit st e) h =
  records_of st h ++ (if N.eqb (log_anchorHash e) h then [e] else []).
Proof.
  unfold records_of, emit; simpl. rewrite List.filter_app. simpl.
  now destruct (N.eqb (log_anchorHash e) h).
Qed.

Lemma one_record_anchor st env h id :
  one_record_each st -> isAnchored st h = false ->
  one_record_each
    (emit (set_anchored st h)
       {| log_anchorHash := h; log_actor := msg_sender env;
          log_timestamp := block_timestamp env; log_eventId := id |}).
Proof.
  intros Hinv Hfree h'. rewrite records_emit, isAnchored_emit, isAnchored_set.
  simpl. rewrite List.length_app.
  change (records_of (set_anchored st h) h') with (records_of st h').
  rewrite (Hinv h'). destruct (N.eqb_spec h h') as [<-|Hne].
  - now rewrite Hfree.
  - simpl. destruct (isAnchored st h'); reflexivity.
Qed.

Lemma one_record_batch env hs : forall ids st,
  one_record_each st -> one_record_each (storeAnchorBatch_loop env hs ids st).
Proof.
  induction hs as [|h hs IH]; intros [|id ids] st Hinv; simpl; trivial.
  apply IH. destruct (isAnchored st h) eqn:Hh; trivial.
  now apply one_record_anchor.
Qed.

Lemma one_record_transact st tx :
  one_record_each st -> one_record_each (fst (transact st tx)).
Proof.
  intros Hinv. destruct tx as [env [h id|hs ids]]; unfold transact; simpl.
  - unfold storeAnchor. destruct (isAnchored st h) eqn:Hh; simpl; trivial.
    now apply one_record_anchor.
  - unfold storeAnchorBatch.
    destruct (Nat.eqb _ _); simpl; trivial. now apply one_record_batch.
Qed.

Lemma one_record_fold txs : forall st,
  one_record_each st ->
  one_record_each (fold_left (fun st tx => fst (transact st tx)) txs st).
Proof.
  induction txs as [|tx txs IH]; intros st Hinv; simpl; trivial.
  apply IH. now apply one_record_transact.
Qed.

Lemma one_record_chain txs : one_record_each (chain_after txs).
Proof. apply one_record_fold. intros h. reflexivity. Qed.

(** C4, as the contract has it: on any chain, once [storeAnchor] has
    accepted a hash, submitting that hash again (by anyone, under any event
    id) reverts with "Anchor already exists"; the reverted call leaves the
    chain as it was, where the hash has exactly one ledger record.  Only the
    batch entry point takes the hash again without an error, and it too
    leaves the chain as it was. *)
Theorem storeAnchor_resubmission_reverts :
  forall txs env1 id1 h st1,
    storeAnchor env1 h id1 (chain_after txs) = Success st1 ->
    forall env2 id2,
      transact st1 (env2, StoreAnchor h id2) = (st1, Some "Anchor already exists")
      /\ transact st1 (env2, StoreAnchorBatch [h] [id2]) = (st1, None)
      /\ List.length (records_of st1 h) = 1.
Proof.
  intros txs env1 id1 h st1 Hfirst env2 id2.
  assert (Hinv : one_record_each st1).
  { pose proof (one_record_chain txs) as Hc. unfold storeAnchor in Hfirst.
    destruct (isAnchored (chain_after txs) h) eqn:Hh; [discriminate|].
    injection Hfirst as <-. now apply one_record_anchor. }
  assert (Hset : isAnchored st1 h = true).
  { unfold storeAnchor in Hfirst.
    destruct (isAnchored (chain_after txs) h); [discriminate|].
    injection Hfirst as <-. rewrite isAnchored_emit, isAnchored_set.
    now rewrite N.eqb_refl. }
  split; [|split].
  - unfold transact; simpl. unfold storeAnchor. now rewrite Hset.
  - unfold transact; simpl. unfold storeAnchorBatch; simpl. now rewrite Hset.
  - rewrite (Hinv h). now rewrite Hset.
Qed.

(** The same on a fresh chain, at hash 7. *)
Lemma storeAnchor_resubmission_reverts_witness :
  let env := {| msg_sender := 1; block_timestamp := 10 |} in
  exists st1,
    storeAnchor env 7 "evt_1" (chain_after []) = Success st1
    /\ transact st1 (env, StoreAnchor 7 "evt_2") = (st1, Some "Anchor already exists")
    /\ transact st1 (env, StoreAnchorBatch [7%N] ["evt_2"]) = (st1, None)
    /\ List.length (records_of st1 7) = 1.
Proof.
  eexists. split; [reflexivity|].
  apply (storeAnchor_resubmission_reverts [] _ "evt_1" 7 _ eq_refl).
Defined.

(** C4 as the spec words it fails: the second submission of a hash is an
    error (the transaction reverts). *)
Lemma storeAnchor_twice_errors :
  snd (transact
         (fst (transact genesis
                 ({| msg_sender := 1; block_timestamp := 10 |}, StoreAnchor 7 "evt_1")))
         ({| msg_sender := 1; block_timestamp := 11 |}, StoreAnchor 7 "evt_1"))
  = Some "Anchor already exists".
Proof. reflexivity. Qed.

End RegistryFacts.

(** ** The handlers *)

Ltac open_checks :=
  unfold deliveries_checks, bind, query, lift, ret, throw; simpl.

Section HandlerFacts.

Context {P : Platform}.

(** *** How a delivery request meets the checks *)

(** The request names a stored session and a registered partner, and
    [challenge] is the challenge the handler picks for the pair, not yet
    expired on the handler's clock. *)
Definition selects (req : delivery_req) (env : io) (w : world)
    (sid dp : json) (session : session) (challenge : challenge)
    (dpKey : dp_key) : Prop :=
  present (dr_session_id req) = Some sid
  /\ present (dr_dp_id req) = Some dp
  /\ getSession (store w) (sql_text sid) = Some session
  /\ getChallenge (store w) (sql_text sid) (sql_text dp) = Some challenge
  /\ (c_expires_at challenge <? clock env 0)%Z = false
  /\ getDPKey (store w) (sql_text dp) = Some dpKey.

(** The blob of the request decodes to an object (or another non-null
    value) whose [message] and [signature] are the two values. *)
Definition carries (req : delivery_req) (message signature : jsval) : Prop :=
  exists blob text signedData,
    present (dr_signed_blob req) = Some blob
    /\ blob_text blob = Ret text
    /\ JSON_parse text = Some signedData
    /\ get_prop signedData "message" = Ret message
    /\ get_prop signedData "signature" = Ret signature.

(** The key check accepts the signature over the message as received. *)
Definition signed_by (dpKey : dp_key) (message signature : string) : Prop :=
  verifySignature (Some (JStr (public_key dpKey))) (Some (JStr message))
    (Some (JStr signature)) = Ret true.

(** The message parses and names the session, by the very value of the
    request, and the challenge's nonce. *)
Definition consistent (message : string) (sid : json) (nonce : string)
    (messageData : json) : Prop :=
  JSON_parse message = Some messageData
  /\ get_prop messageData "session_id" = Ret (Some sid)
  /\ strict_ne_value (Some sid) sid = false
  /\ get_prop messageData "challenge_nonce" = Ret (Some (JStr nonce)).

Lemma checks_read_only req env w : snd (deliveries_checks req env w) = w.
Proof.
  open_checks.
  destruct (present (dr_session_id req)); [|reflexivity].
  destruct (present (dr_dp_id req)); [|reflexivity].
  destruct (present (dr_signed_blob req)) as [blob|]; [|reflexivity].
  destruct (getSession _ _); [|reflexivity].
  destruct (getChallenge _ _ _); [|reflexivity].
  destruct (_ <? _)%Z; [reflexivity|].
  destruct (getDPKey _ _); [|reflexivity].
  destruct (blob_text blob) as [text|]; [|reflexivity].
  destruct (JSON_parse _) as [signedData|]; [|reflexivity].
  destruct (get_prop signedData "message") as [message|]; [|reflexivity].
  destruct (get_prop signedData "signature") as [signature|]; [|reflexivity].
  destruct (verifySignature _ _ _) as [[|]|]; try reflexivity.
  destruct message as [[| | | m | |]|]; try reflexivity.
  destruct signature as [[| | | sg | |]|]; try reflexivity.
  destruct (JSON_parse m) as [messageData|]; [|reflexivity].
  destruct (get_prop messageData "session_id"); [|reflexivity].
  destruct (get_prop messageData "challenge_nonce"); [|reflexivity].
  destruct (_ || _); reflexivity.
Qed.

Lemma strict_ne_same s : strict_ne (Some (JStr s)) s = false.
Proof. simpl. now rewrite String.eqb_refl. Qed.

Lemma strict_ne_value_same s : strict_ne_value (Some (JStr s)) (JStr s) = false.
Proof. apply strict_ne_same. Qed.

(** Every check passes: the handler goes on with these local variables. *)
Lemma checks_pass req env w sid dp session challenge dpKey message signature
    messageData :
  selects req env w sid dp session challenge dpKey ->
  carries req (Some (JStr message)) (Some (JStr signature)) ->
  signed_by dpKey message signature ->
  consistent message sid (challenge_nonce challenge) messageData ->
  deliveries_checks req env w =
    (Ret (inr {| t_session_id := sid; t_dp_id := dp; t_session := session;
                 t_challenge := challenge; t_signature := signature;
                 t_evidence_hashes := default (JArr []) (dr_evidence_hashes req) |}), w).
Proof.
  intros (Hs & Hd & Hsess & Hch & Hexp & Hkey)
         (blob & text & signedData & Hb & Htext & Hparse & Hm & Hsig) Hvalid
         (Hmsg & Hsid & Hsame & Hn).
  open_checks. rewrite Hs, Hd, Hb. simpl. rewrite Hsess, Hch, Hexp, Hkey, Htext, Hparse.
  rewrite Hm, Hsig. unfold signed_by in Hvalid. rewrite Hvalid. simpl.
  rewrite Hmsg, Hsid, Hn. now rewrite Hsame, strict_ne_same.
Qed.

(** The key check refuses: 401, whatever else the request holds. *)
Lemma checks_invalid_signature req env w sid dp session challenge dpKey
    message signature :
  selects req env w sid dp session challenge dpKey ->
  carries req message signature ->
  verifySignature (Some (JStr (public_key dpKey))) message signature = Ret false ->
  deliveries_checks req env w = (Ret (inl (Error 401 "Invalid signature")), w).
Proof.
  intros (Hs & Hd & Hsess & Hch & Hexp & Hkey)
         (blob & text & signedData & Hb & Htext & Hparse & Hm & Hsig) Hbad.
  open_checks. rewrite Hs, Hd, Hb. simpl. rewrite Hsess, Hch, Hexp, Hkey, Htext, Hparse.
  rewrite Hm, Hsig, Hbad. reflexivity.
Qed.

(** *** The second half of a delivery *)

(** The store after the three writes of the handler, before anchoring. *)
Definition recorded (d : db) (t : ticket) (env : io) : db :=
  updateSessionStatus
    (with_events (markChallengeUsed d (challenge_id (t_challenge t)))
       (delivery_events d ++ [eventData_of t env]))
    (sql_text (t_session_id t)) "completed".

(** The anchor hash the handler computes for the event of a ticket. *)
Definition anchor_hash_of (t : ticket) (env : io) : string :=
  "0x" ++ hashString
            (canonicalizeEvent_built (t_session_id t) (t_dp_id t) (eventData_of t env)).

(** Anchoring never throws; it either leaves the store alone or stores the
    hash on the chain and the reference on the event. *)
Lemma anchor_effect t env w :
  exists txHash w',
    anchor (t_session_id t) (t_dp_id t) (eventData_of t env) env w = (Ret txHash, w')
    /\ ((txHash = None /\ store w' = store w)
        \/ (exists chain',
              txHash = Some (receipt_hash env)
              /\ contract w' = Some chain'
              /\ store w' =
                 updateEventAnchor (store w) (event_id (eventData_of t env))
                   (anchor_hash_of t env) (receipt_hash env) (iso_clock env 2))).
Proof.
  unfold anchor. destruct (contract w) as [chain|] eqn:Hc.
  2:{ exists None, w. split; [reflexivity|]. now left. }
  unfold try_catch, bind, contract_storeAnchor, tx_wait. rewrite Hc.
  destruct (negb (rpc_ok env)).
  { exists None, w. split; [reflexivity|]. now left. }
  fold (anchor_hash_of t env).
  destruct (bytes32_of_hex _) as [h|].
  2:{ exists None, w. split; [reflexivity|]. now left. }
  destruct (AnchorRegistry.storeAnchor _ _ _ _) as [chain'|reason].
  2:{ exists None, w. split; [reflexivity|]. now left. }
  destruct (wait_ok env).
  - eexists _, _. split; [reflexivity|]. right. exists chain'. repeat split.
  - eexists _, _. split; [reflexivity|]. left. now split.
Qed.

Lemma getDeliveryEvent_mark d cid id :
  getDeliveryEvent (markChallengeUsed d cid) id = getDeliveryEvent d id.
Proof. reflexivity. Qed.

(** With a fresh event id the second half answers "verified", having
    written the three updates and then anchored or not. *)
Lemma commit_verified t env w :
  getDeliveryEvent (store w) (event_id (eventData_of t env)) = None ->
  exists txHash w',
    deliveries_commit t env w = (Ret (Verified (event_id (eventData_of t env)) txHash), w')
    /\ ((txHash = None /\ store w' = recorded (store w) t env)
        \/ (exists chain',
              txHash = Some (receipt_hash env)
              /\ contract w' = Some chain'
              /\ store w' =
                 updateEventAnchor (recorded (store w) t env)
                   (event_id (eventData_of t env))
                   (anchor_hash_of t env) (receipt_hash env) (iso_clock env 2))).
Proof.
  intros Hfresh. unfold deliveries_commit.
  unfold bind at 1. unfold update at 1.
  unfold bind at 1. unfold insert at 1.
  cbn [store with_store]. unfold createDeliveryEvent.
  rewrite getDeliveryEvent_mark, Hfresh.
  unfold bind at 1. unfold update at 1. cbn [store with_store].
  unfold bind at 1.
  match goal with |- context [anchor _ _ _ env ?w0] =>
    destruct (anchor_effect t env w0) as (txHash & w' & Ha & Hcase) end.
  cbn [delivery_events markChallengeUsed with_challenges] in Ha.
  cbn [delivery_events markChallengeUsed with_challenges].
  rewrite Ha. exists txHash, w'. split; [reflexivity|].
  destruct Hcase as [[-> Hst]|(chain' & -> & Hc & Hst)]; [left|right].
  - split; [reflexivity|exact Hst].
  - exists chain'. repeat split; assumption.
Qed.

(** The event without its anchoring fields, as it is first inserted. *)
Definition unanchored (e : delivery_event) : delivery_event :=
  {| event_id := event_id e; e_session_id := e_session_id e;
     e_order_id := e_order_id e; e_customer_id := e_customer_id e;
     e_dp_id := e_dp_id e; ephemeral_token_hash := ephemeral_token_hash e;
     e_challenge_nonce := e_challenge_nonce e; dp_signature := dp_signature e;
     evidence_hashes := evidence_hashes e; timestamp := timestamp e;
     backend_received_at := backend_received_at e;
     anchor_hash := None; tx_hash := None; anchored_at := None;
     e_status := "pending" |}.

(** The store holds the event a ticket mints, anchored or not. *)
Definition minted (d : db) (t : ticket) (env : io) : Prop :=
  exists e, In e (delivery_events d) /\ unanchored e = eventData_of t env.

Lemma unanchored_set_anchor h txh time e :
  unanchored (set_anchor h txh time e) = unanchored e.
Proof. reflexivity. Qed.

Lemma minted_recorded d t env : minted (recorded d t env) t env.
Proof.
  exists (eventData_of t env). split; [|reflexivity].
  unfold recorded, updateSessionStatus; simpl. apply in_or_app. right. now left.
Qed.

Lemma minted_anchored d t env h txh time :
  minted d t env ->
  minted (updateEventAnchor d (event_id (eventData_of t env)) h txh time) t env.
Proof.
  intros (e & Hin & He). unfold updateEventAnchor; simpl.
  exists (set_anchor h txh time e). split.
  - apply in_map_iff. exists e. split; [|assumption].
    replace (event_id e) with (event_id (unanchored e)) by reflexivity.
    rewrite He. now rewrite String.eqb_refl.
  - now rewrite unanchored_set_anchor.
Qed.

Lemma challenges_recorded d t env :
  challenges (recorded d t env) =
  challenges (markChallengeUsed d (challenge_id (t_challenge t))).
Proof. reflexivity. Qed.

Lemma post_deliveries_split req env w :
  post_deliveries req env w =
  match deliveries_begin req env w with
  | inl rejected => (rejected, w)
  | inr t => deliveries_end t env w
  end.
Proof.
  unfold post_deliveries, deliveries_begin, deliveries_end, handle,
    post_deliveries_body, bind.
  pose proof (checks_read_only req env w) as Hw.
  destruct (deliveries_checks req env w) as [[[r|t]|e] w']; simpl in Hw; subst w';
    reflexivity.
Qed.

(** What the second half leaves behind when the event id is fresh. *)
Lemma end_verified t env w :
  getDeliveryEvent (store w) (event_id (eventData_of t env)) = None ->
  exists txHash w',
    deliveries_end t env w = (Verified (event_id (eventData_of t env)) txHash, w')
    /\ minted (store w') t env
    /\ challenges (store w') =
       challenges (markChallengeUsed (store w) (challenge_id (t_challenge t))).
Proof.
  intros Hfresh.
  destruct (commit_verified t env w Hfresh) as (txHash & w' & Hc & Hcase).
  exists txHash, w'. unfold deliveries_end, handle. rewrite Hc.
  split; [reflexivity|].
  destruct Hcase as [[_ ->]|(chain' & _ & _ & ->)].
  - cbn [store with_store]. split; [apply minted_recorded | reflexivity].
  - split; [apply minted_anchored; apply minted_recorded | reflexivity].
Qed.

(** A request that passes every check of the handler is answered
    "verified": its challenge is marked used and its event is stored. *)
Lemma post_deliveries_accepts req env w sid dp session challenge dpKey
    message signature messageData :
  selects req env w sid dp session challenge dpKey ->
  carries req (Some (JStr message)) (Some (JStr signature)) ->
  signed_by dpKey message signature ->
  consistent message sid (challenge_nonce challenge) messageData ->
  getDeliveryEvent (store w) (generateId (random env) 0 "evt") = None ->
  let t := {| t_session_id := sid; t_dp_id := dp; t_session := session;
              t_challenge := challenge; t_signature := signature;
              t_evidence_hashes := default (JArr []) (dr_evidence_hashes req) |} in
  exists txHash w',
    post_deliveries req env w = (Verified (generateId (random env) 0 "evt") txHash, w')
    /\ minted (store w') t env
    /\ challenges (store w') =
       challenges (markChallengeUsed (store w) (challenge_id challenge)).
Proof.
  intros Hsel Hcar Hsig Hcons Hfresh t.
  rewrite post_deliveries_split. unfold deliveries_begin.
  rewrite (checks_pass _ _ _ _ _ _ _ _ _ _ _ Hsel Hcar Hsig Hcons).
  apply (end_verified t env w Hfresh).
Qed.

End HandlerFacts.

(** ** Worlds and requests of the examples *)

Module Scenario.

#[local] Existing Instance Demo.platform.

Definition sid : string := "s_6262626262626262".
Definition dp : string := "dp_1".

(** One partner registered at 1000, one session opened at 2000 for
    [ttl] seconds, one challenge issued to the partner at [asked]. *)
Definition issued (ttl asked : Z) (c : option AnchorRegistry.state) : world :=
  serve_all
    [ (PostRegister (Some (JStr dp)) (Some (JStr Demo.key)), Demo.env "a" 1000);
      (PostSessions {| sr_customer_id := Some "cus_1"; sr_order_id := Some "ord_1";
                       sr_ttl_seconds := Some ttl |}, Demo.env "b" 2000);
      (PostChallenge sid (Some dp), Demo.env "c" asked) ]
    (Demo.fresh c).

Definition token : string := generateToken (fun _ => "b"%byte) 8 32.
Definition nonce : string := generateToken (fun _ => "c"%byte) 8 16.

(** The message of a proof that embeds [token_hash], and the request that
    carries it signed with the partner's key. *)
Definition message (token_hash : string) : string :=
  Demo.message sid token_hash nonce "T4000" dp.

Definition proof (token_hash : string) : delivery_req :=
  {| dr_session_id := Some (JStr sid); dr_dp_id := Some (JStr dp);
     dr_signed_blob :=
       Some (JStr (Demo.signed_blob (message token_hash)
                     (Demo.sign Demo.key (Demo.digest (message token_hash)))));
     dr_evidence_hashes := Some (JArr [JStr "sha256:aa"]) |}.

Definition right_hash : string := ("sha256:" ++ Demo.digest token)%string.
Definition wrong_hash : string := ("sha256:" ++ Demo.digest "guessed")%string.

End Scenario.

(** ** Proof verification: what is not checked *)

Section Unchecked.

Context {P : Platform}.

(** C1 on the code: a proof whose embedded secret hash differs from the hash
    of the session's token, validly signed and naming the session and the
    challenge's nonce, is answered "verified" and its event is stored. *)
Theorem secret_mismatch_is_accepted
    req env w sid dp session challenge dpKey message signature messageData :
  selects req env w sid dp session challenge dpKey ->
  carries req (Some (JStr message)) (Some (JStr signature)) ->
  signed_by dpKey message signature ->
  consistent message sid (challenge_nonce challenge) messageData ->
  get_prop messageData "ephemeral_token_hash" <>
    Ret (Some (JStr ("sha256:" ++ hashString (ephemeral_token session))%string)) ->
  getDeliveryEvent (store w) (generateId (random env) 0 "evt") = None ->
  exists txHash w',
    post_deliveries req env w = (Verified (generateId (random env) 0 "evt") txHash, w')
    /\ minted (store w')
         {| t_session_id := sid; t_dp_id := dp; t_session := session;
            t_challenge := challenge; t_signature := signature;
            t_evidence_hashes := default (JArr []) (dr_evidence_hashes req) |} env.
Proof.
  intros Hsel Hcar Hsig Hcons _ Hfresh.
  destruct (post_deliveries_accepts _ _ _ _ _ _ _ _ _ _ _ Hsel Hcar Hsig Hcons Hfresh)
    as (txHash & w' & Hr & Hm & _).
  now exists txHash, w'.
Qed.

(** C2 on the code: a proof for a session that is no longer active, or
    whose expiry has passed, is answered "verified" as long as its
    challenge is still open. *)
Theorem stale_session_is_accepted
    req env w sid dp session challenge dpKey message signature messageData :
  selects req env w sid dp session challenge dpKey ->
  carries req (Some (JStr message)) (Some (JStr signature)) ->
  signed_by dpKey message signature ->
  consistent message sid (challenge_nonce challenge) messageData ->
  s_status session <> "active" \/ (s_expires_at session < clock env 0)%Z ->
  getDeliveryEvent (store w) (generateId (random env) 0 "evt") = None ->
  exists txHash w',
    post_deliveries req env w = (Verified (generateId (random env) 0 "evt") txHash, w')
    /\ minted (store w')
         {| t_session_id := sid; t_dp_id := dp; t_session := session;
            t_challenge := challenge; t_signature := signature;
            t_evidence_hashes := default (JArr []) (dr_evidence_hashes req) |} env.
Proof.
  intros Hsel Hcar Hsig Hcons _ Hfresh.
  destruct (post_deliveries_accepts _ _ _ _ _ _ _ _ _ _ _ Hsel Hcar Hsig Hcons Hfresh)
    as (txHash & w' & Hr & Hm & _).
  now exists txHash, w'.
Qed.

End Unchecked.

Ltac by_running := vm_compute; reflexivity.

(** *** The examples meet the checks *)

Module ScenarioFacts.

Import Scenario.
#[local] Existing Instance Demo.platform.

Definition the_session (expires_at : Z) : session :=
  {| session_id := sid; s_customer_id := "cus_1"; s_order_id := "ord_1";
     ephemeral_token := token; token_type := "BLE"; s_created_at := 2000;
     s_expires_at := expires_at; s_status := "active" |}.

Definition the_challenge (asked : Z) : challenge :=
  {| challenge_id := "ch_6363636363636363"; c_session_id := sid; c_dp_id := dp;
     challenge_nonce := nonce; c_created_at := asked;
     c_expires_at := asked + 60000; used := false |}.

Definition the_key : dp_key :=
  {| dp_id := dp; public_key := Demo.key; key_type := "secp256k1";
     registered_at := 1000; k_status := "active" |}.

Definition signature (token_hash : string) : string :=
  Demo.sign Demo.key (Demo.digest (message token_hash)).

Definition parsed (token_hash : string) : json :=
  JObj [("session_id", JStr sid); ("ephemeral_token_hash", JStr token_hash);
        ("challenge_nonce", JStr nonce); ("timestamp", JStr "T4000");
        ("dp_id", JStr dp)].

Definition decoded (token_hash : string) : json :=
  JObj [("message", JStr (message token_hash));
        ("signature", JStr (signature token_hash))].

Lemma hashes_differ : wrong_hash <> right_hash.
Proof. intros H; vm_compute in H; discriminate. Qed.

Lemma selects_fresh req :
  dr_session_id req = Some (JStr sid) -> dr_dp_id req = Some (JStr dp) ->
  selects req (Demo.env "d" 4000) (issued 300 3000 None) (JStr sid) (JStr dp)
    (the_session 302000) (the_challenge 3000) the_key.
Proof. intros Hs Hd. unfold selects. rewrite Hs, Hd. repeat apply conj; by_running. Qed.

Lemma selects_stale req :
  dr_session_id req = Some (JStr sid) -> dr_dp_id req = Some (JStr dp) ->
  selects req (Demo.env "d" 30000) (issued 10 11000 None) (JStr sid) (JStr dp)
    (the_session 12000) (the_challenge 11000) the_key.
Proof. intros Hs Hd. unfold selects. rewrite Hs, Hd. repeat apply conj; by_running. Qed.

Lemma carries_wrong :
  carries (proof wrong_hash) (Some (JStr (message wrong_hash)))
    (Some (JStr (signature wrong_hash))).
Proof.
  exists (JStr (Demo.signed_blob (message wrong_hash) (signature wrong_hash))),
    (Demo.signed_blob (message wrong_hash) (signature wrong_hash)), (decoded wrong_hash).
  repeat apply conj; by_running.
Qed.

Lemma carries_right :
  carries (proof right_hash) (Some (JStr (message right_hash)))
    (Some (JStr (signature right_hash))).
Proof.
  exists (JStr (Demo.signed_blob (message right_hash) (signature right_hash))),
    (Demo.signed_blob (message right_hash) (signature right_hash)), (decoded right_hash).
  repeat apply conj; by_running.
Qed.

Lemma signed_wrong : signed_by the_key (message wrong_hash) (signature wrong_hash).
Proof. by_running. Qed.

Lemma signed_right : signed_by the_key (message right_hash) (signature right_hash).
Proof. by_running. Qed.

Lemma consistent_wrong :
  consistent (message wrong_hash) (JStr sid) nonce (parsed wrong_hash).
Proof. repeat apply conj; by_running. Qed.

Lemma consistent_right :
  consistent (message right_hash) (JStr sid) nonce (parsed right_hash).
Proof. repeat apply conj; by_running. Qed.

End ScenarioFacts.

(** A proof embedding the hash of a guessed token, delivered at 4000. *)
Lemma secret_mismatch_is_accepted_witness :
  Scenario.wrong_hash <> Scenario.right_hash
  /\ exists txHash w',
       post_deliveries (P := Demo.platform) (Scenario.proof Scenario.wrong_hash)
         (Demo.env "d" 4000) (Scenario.issued 300 3000 None)
       = (Verified "evt_6464646464646464" txHash, w').
Proof.
  split; [exact ScenarioFacts.hashes_differ|].
  assert (Hne : get_prop (ScenarioFacts.parsed Scenario.wrong_hash) "ephemeral_token_hash"
                <> Ret (Some (JStr ("sha256:"
                     ++ hashString (P := Demo.platform)
                          (ephemeral_token (ScenarioFacts.the_session 302000)))%string)))
    by (intros H; vm_compute in H; discriminate).
  pose proof (secret_mismatch_is_accepted _ _ _ _ _ _ _ _ _ _ _
                (ScenarioFacts.selects_fresh (Scenario.proof Scenario.wrong_hash) eq_refl eq_refl)
                ScenarioFacts.carries_wrong
                ScenarioFacts.signed_wrong ScenarioFacts.consistent_wrong Hne eq_refl)
    as (txHash & w' & Hr & _).
  now exists txHash, w'.
Defined.

(** A session opened for 10 seconds at 2000, its challenge asked at 11000,
    the proof delivered at 30000. *)
Lemma stale_session_is_accepted_witness :
  (s_expires_at (ScenarioFacts.the_session 12000) < clock (Demo.env "d" 30000) 0)%Z
  /\ exists txHash w',
       post_deliveries (P := Demo.platform) (Scenario.proof Scenario.right_hash)
         (Demo.env "d" 30000) (Scenario.issued 10 11000 None)
       = (Verified "evt_6464646464646464" txHash, w').
Proof.
  split; [reflexivity|].
  pose proof (stale_session_is_accepted _ _ _ _ _ _ _ _ _ _ _
                (ScenarioFacts.selects_stale (Scenario.proof Scenario.right_hash) eq_refl eq_refl)
                ScenarioFacts.carries_right
                ScenarioFacts.signed_right ScenarioFacts.consistent_right
                (or_intror eq_refl) eq_refl)
    as (txHash & w' & Hr & _).
  now exists txHash, w'.
Defined.

(** ** Signature verification *)

Section SignatureFacts.

Context {P : Platform}.

(** The arguments [verifySignature] cannot check: a key that is no
    non-empty string or does not parse, a signature that is no string, holds
    a character that is no hexadecimal digit, or is not 128 characters long. *)
Definition unverifiable (publicKeyHex signatureHex : jsval) : Prop :=
  string_arg publicKeyHex = None
  \/ (exists pk, string_arg publicKeyHex = Some pk /\ ec_keyFromPublic pk = false)
  \/ not_a_string signatureHex = true
  \/ (exists sg, signatureHex = Some (JStr sg)
                /\ (all_chars is_hex_char sg = false \/ String.length sg <> 128%nat)).

Lemma string_arg_not_a_string v : not_a_string v = true -> string_arg v = None.
Proof. intros H. unfold string_arg. rewrite H. now rewrite orb_true_r. Qed.

Lemma string_arg_of_string s :
  string_arg (Some (JStr s)) = if String.eqb s "" then None else Some s.
Proof. unfold string_arg; simpl. now destruct (String.eqb s ""). Qed.

Lemma verifySignature_returns publicKeyHex message signatureHex :
  exists b, verifySignature publicKeyHex message signatureHex = Ret b.
Proof.
  unfold verifySignature.
  destruct (verifySignature_try publicKeyHex message signatureHex) as [b|e];
    eauto.
Qed.

Lemma verifySignature_unverifiable publicKeyHex message signatureHex :
  unverifiable publicKeyHex signatureHex ->
  verifySignature publicKeyHex message signatureHex = Ret false.
Proof.
  unfold verifySignature, verifySignature_try.
  intros [Hpk|[(pk & Hpk & Hparse)|[Hsig|(sg & -> & Hsg)]]].
  - now rewrite Hpk.
  - rewrite Hpk. destruct (string_arg signatureHex) as [sg|]; [|reflexivity].
    destruct (negb (all_chars is_hex_char sg)); [reflexivity|].
    destruct (negb (Nat.eqb (String.length sg) 128)); [reflexivity|].
    now rewrite Hparse.
  - rewrite (string_arg_not_a_string _ Hsig).
    now destruct (string_arg publicKeyHex).
  - destruct (string_arg publicKeyHex) as [pk|]; [|reflexivity].
    rewrite string_arg_of_string. destruct (String.eqb sg ""); [reflexivity|].
    destruct Hsg as [Hhex|Hlen].
    + now rewrite Hhex.
    + destruct (negb (all_chars is_hex_char sg)); [reflexivity|].
      apply Nat.eqb_neq in Hlen. now rewrite Hlen.
Qed.

(** C10: [verifySignature] returns a boolean on every input, never an
    exception; it returns [false] on every unverifiable pair of key and
    signature; and a delivery that reaches the signature check with such a
    pair is answered 401 "Invalid signature", the store untouched. *)
Theorem verifySignature_never_raises
    publicKeyHex message signatureHex req env w sid dp session challenge dpKey
    carried_message carried_signature :
  (exists b, verifySignature publicKeyHex message signatureHex = Ret b)
  /\ (unverifiable publicKeyHex signatureHex ->
      verifySignature publicKeyHex message signatureHex = Ret false)
  /\ (selects req env w sid dp session challenge dpKey ->
      carries req carried_message carried_signature ->
      unverifiable (Some (JStr (public_key dpKey))) carried_signature ->
      post_deliveries req env w = (Error 401 "Invalid signature", w)).
Proof.
  split; [apply verifySignature_returns|].
  split; [apply verifySignature_unverifiable|].
  intros Hsel Hcar Hbad. rewrite post_deliveries_split. unfold deliveries_begin.
  rewrite (checks_invalid_signature _ _ _ _ _ _ _ _ _ _ Hsel Hcar
             (verifySignature_unverifiable _ carried_message _ Hbad)).
  reflexivity.
Qed.

End SignatureFacts.

(** A proof whose signature is the two letters "zz". *)
Definition unsigned_proof : delivery_req :=
  {| dr_session_id := Some (JStr Scenario.sid); dr_dp_id := Some (JStr Scenario.dp);
     dr_signed_blob :=
       Some (JStr (Demo.signed_blob (Scenario.message Scenario.right_hash) "zz"));
     dr_evidence_hashes := None |}.

Lemma verifySignature_never_raises_witness :
  verifySignature (P := Demo.platform) (Some (JStr Demo.key))
    (Some (JStr (Scenario.message Scenario.right_hash))) (Some (JStr "zz")) = Ret false
  /\ post_deliveries (P := Demo.platform) unsigned_proof (Demo.env "d" 4000)
       (Scenario.issued 300 3000 None)
     = (Error 401 "Invalid signature", Scenario.issued 300 3000 None).
Proof.
  assert (Hbad : unverifiable (P := Demo.platform) (Some (JStr Demo.key)) (Some (JStr "zz"))).
  { right. right. right. exists "zz". split; [reflexivity|]. left. reflexivity. }
  assert (Hcar : carries (P := Demo.platform) unsigned_proof
                   (Some (JStr (Scenario.message Scenario.right_hash)))
                   (Some (JStr "zz"))).
  { exists (JStr (Demo.signed_blob (Scenario.message Scenario.right_hash) "zz")),
      (Demo.signed_blob (Scenario.message Scenario.right_hash) "zz"),
      (JObj [("message", JStr (Scenario.message Scenario.right_hash));
             ("signature", JStr "zz")]).
    repeat apply conj; by_running. }
  pose proof (verifySignature_never_raises (P := Demo.platform)
                (Some (JStr Demo.key))
                (Some (JStr (Scenario.message Scenario.right_hash)))
                (Some (JStr "zz")) unsigned_proof (Demo.env "d" 4000)
                (Scenario.issued 300 3000 None) (JStr Scenario.sid) (JStr Scenario.dp)
                (ScenarioFacts.the_session 302000) (ScenarioFacts.the_challenge 3000)
                ScenarioFacts.the_key
                (Some (JStr (Scenario.message Scenario.right_hash)))
                (Some (JStr "zz"))) as (_ & Hfalse & Hreject).
  split.
  - exact (Hfalse Hbad).
  - exact (Hreject (ScenarioFacts.selects_fresh unsigned_proof eq_refl eq_refl) Hcar Hbad).
Defined.

(** ** Tokens: random bytes in hexadecimal *)

Definition unhex_byte (hi lo : ascii) : option byte :=
  match hex_value hi, hex_value lo with
  | Some h, Some l => Byte.of_N (16 * h + l)
  | _, _ => None
  end.

Lemma unhex_hex_digits b :
  unhex_byte (hex_digit (Byte.to_N b / 16)) (hex_digit (Byte.to_N b mod 16)) = Some b.
Proof. destruct b; vm_compute; reflexivity. Qed.

Lemma hex_of_bytes_cons b bs :
  hex_of_bytes (b :: bs) =
  String (hex_digit (Byte.to_N b / 16))
    (String (hex_digit (Byte.to_N b mod 16)) (hex_of_bytes bs)).
Proof. reflexivity. Qed.

(** The hexadecimal form loses nothing of the bytes. *)
Lemma hex_of_bytes_inj bs : forall bs', hex_of_bytes bs = hex_of_bytes bs' -> bs = bs'.
Proof.
  induction bs as [|b bs IH]; intros [|b' bs'] H; trivial;
    try (rewrite hex_of_bytes_cons in H; simpl in H; discriminate).
  rewrite !hex_of_bytes_cons in H. injection H as Hhi Hlo Hrest.
  pose proof (unhex_hex_digits b) as Hb. rewrite Hhi, Hlo, unhex_hex_digits in Hb.
  injection Hb as <-. f_equal. now apply IH.
Qed.

Lemma length_hex_of_bytes bs : String.length (hex_of_bytes bs) = 2 * List.length bs.
Proof.
  induction bs as [|b bs IH]; [reflexivity|].
  rewrite hex_of_bytes_cons. simpl. rewrite IH. lia.
Qed.

Lemma length_randomBytes r off len : List.length (randomBytes r off len) = len.
Proof. unfold randomBytes. now rewrite List.length_map, List.length_seq. Qed.

(** ** Activation and challenge issuance *)

Section IssuanceFacts.

Context {P : Platform}.

Lemma find_app_fresh {A} (f : A -> bool) l x :
  List.find f l = None -> f x = true -> List.find f (l ++ [x]) = Some x.
Proof.
  induction l as [|y l IH]; simpl; intros Hl Hx.
  - now rewrite Hx.
  - destruct (f y); [discriminate|]. now apply IH.
Qed.

(** The row activation inserts. *)
Definition activated (req : session_req) (env : io) (customer_id order_id : string)
    : session :=
  {| session_id := generateId (random env) 0 "s";
     s_customer_id := customer_id; s_order_id := order_id;
     ephemeral_token := generateToken (random env) 8 32;
     token_type := "BLE"; s_created_at := clock env 0;
     s_expires_at :=
       to_double (clock env 0 + to_double (default 300 (sr_ttl_seconds req) * 1000));
     s_status := "active" |}%Z.

(** Integers up to 2^53 in magnitude are doubles. *)
Definition safe_integer (z : Z) : Prop := (Z.abs z <= 2 ^ 53)%Z.

(** A lifetime and a clock reading whose product and sum stay below the
    largest double. *)
Definition finite_range (ttl_seconds created_at : Z) : Prop :=
  (Z.abs ttl_seconds < 2 ^ 1000)%Z /\ (Z.abs created_at < 2 ^ 1000)%Z.

Lemma to_double_safe z : safe_integer z -> to_double z = z.
Proof.
  unfold safe_integer, to_double. intros Hz.
  destruct (Z.eq_dec (Z.abs z) (2 ^ 53)) as [Heq|Hne].
  - destruct (Z.abs_spec z) as [[_ Ha]|[_ Ha]]; rewrite Ha in Heq.
    + subst z. vm_compute. reflexivity.
    + assert (z = (- 2 ^ 53)%Z) as -> by lia. vm_compute. reflexivity.
  - assert (Hlt : (Z.abs z < 2 ^ 53)%Z) by lia.
    assert (Hlog : (Z.log2 (Z.abs z) < 53)%Z).
    { destruct (Z.eq_dec (Z.abs z) 0) as [->|Hpos]; [reflexivity|].
      apply Z.log2_lt_pow2; lia. }
    destruct (Z.leb_spec (Z.log2 (Z.abs z) - 52) 0); [reflexivity|lia].
Qed.

(** Activation writes to [sessions] only. *)
Lemma post_sessions_frame req env w :
  let w' := snd (post_sessions req env w) in
  challenges (store w') = challenges (store w)
  /\ delivery_events (store w') = delivery_events (store w)
  /\ dp_keys (store w') = dp_keys (store w)
  /\ contract w' = contract w
  /\ (sessions (store w') = sessions (store w)
      \/ exists customer_id order_id,
           sessions (store w') =
             sessions (store w) ++ [activated req env customer_id order_id]
           /\ getSession (store w) (generateId (random env) 0 "s") = None).
Proof.
  unfold post_sessions, handle, post_sessions_body.
  destruct (given (sr_customer_id req)) as [customer_id|];
    [|cbn; repeat split; now left].
  destruct (given (sr_order_id req)) as [order_id|]; [|cbn; repeat split; now left].
  unfold bind, insert, createSession.
  destruct (getSession (store w) _) eqn:Hfresh; [cbn; repeat split; now left|].
  destruct (toISOString _); cbn; (repeat split; right; exists customer_id, order_id;
    split; [reflexivity | first [exact Hfresh | reflexivity]]).
Qed.

(** C7, as the handler has it: activation answers 400 exactly when the
    customer id or the order id is missing or empty, and then stores
    nothing.  Every other request whose session id is not taken stores a
    session, whatever the integer [ttl_seconds] is (300 when absent): zero,
    negative or as large as one likes.  Within the range of the doubles the
    session's expiry is the double nearest to
    [created_at + 1000 * ttl_seconds], which is that sum itself as long as
    product and sum do not exceed 2^53 in magnitude; the answer carries the
    id and the token when the expiry can be written as a date.  No request
    makes the handler store a session of another expiry. *)
Theorem post_sessions_stores_created_plus_ttl req env w :
  let ttl := default 300%Z (sr_ttl_seconds req) in
  (given (sr_customer_id req) = None \/ given (sr_order_id req) = None ->
   post_sessions req env w = (Error 400 "customer_id and order_id required", w))
  /\ (forall customer_id order_id,
        given (sr_customer_id req) = Some customer_id ->
        given (sr_order_id req) = Some order_id ->
        getSession (store w) (generateId (random env) 0 "s") = None ->
        (forall msg, fst (post_sessions req env w) <> Error 400 msg)
        /\ exists s,
             sessions (store (snd (post_sessions req env w))) = sessions (store w) ++ [s]
             /\ session_id s = generateId (random env) 0 "s"
             /\ s_customer_id s = customer_id /\ s_order_id s = order_id
             /\ s_created_at s = clock env 0 /\ s_status s = "active"
             /\ getSession (store (snd (post_sessions req env w))) (session_id s)
                = Some s)
  /\ (forall customer_id order_id,
        given (sr_customer_id req) = Some customer_id ->
        given (sr_order_id req) = Some order_id ->
        getSession (store w) (generateId (random env) 0 "s") = None ->
        finite_range ttl (clock env 0) ->
        let s := activated req env customer_id order_id in
        snd (post_sessions req env w)
          = with_store w (with_sessions (store w) (sessions (store w) ++ [s]))
        /\ s_expires_at s = to_double (s_created_at s + to_double (1000 * ttl))
        /\ (safe_integer (1000 * ttl) -> safe_integer (s_created_at s + 1000 * ttl) ->
            s_expires_at s = (s_created_at s + 1000 * ttl)%Z)
        /\ (forall iso,
              toISOString (s_expires_at s) = Some iso ->
              fst (post_sessions req env w)
                = SessionCreated (session_id s) (ephemeral_token s) "BLE" iso ttl))
  /\ (finite_range ttl (clock env 0) ->
      sessions (store (snd (post_sessions req env w))) = sessions (store w)
      \/ exists s,
           sessions (store (snd (post_sessions req env w))) = sessions (store w) ++ [s]
           /\ s_expires_at s = to_double (s_created_at s + to_double (1000 * ttl))).
Proof.
  cbv zeta.
  assert (Hrun : forall customer_id order_id,
            given (sr_customer_id req) = Some customer_id ->
            given (sr_order_id req) = Some order_id ->
            getSession (store w) (generateId (random env) 0 "s") = None ->
            let s := activated req env customer_id order_id in
            post_sessions req env w =
              (match toISOString (s_expires_at s) with
               | Some iso => SessionCreated (session_id s) (ephemeral_token s) "BLE" iso
                               (default 300%Z (sr_ttl_seconds req))
               | None => Error 500 "Internal server error"
               end,
               with_store w (with_sessions (store w) (sessions (store w) ++ [s])))).
  { intros customer_id order_id Hc Ho Hfresh. cbv zeta.
    unfold post_sessions, handle, post_sessions_body.
    rewrite Hc, Ho. unfold bind, insert, createSession. rewrite Hfresh.
    unfold activated. cbn [s_expires_at session_id ephemeral_token].
    destruct (toISOString _); reflexivity. }
  assert (Hexp : forall customer_id order_id,
            s_expires_at (activated req env customer_id order_id)
            = to_double (clock env 0
                         + to_double (1000 * default 300%Z (sr_ttl_seconds req)))).
  { intros customer_id order_id. unfold activated. cbn [s_expires_at].
    now rewrite (Z.mul_comm 1000). }
  split; [|split; [|split]].
  - intros Hmiss. unfold post_sessions, handle, post_sessions_body.
    destruct Hmiss as [-> | Ho]; [reflexivity|].
    rewrite Ho. now destruct (given (sr_customer_id req)).
  - intros customer_id order_id Hc Ho Hfresh.
    rewrite (Hrun customer_id order_id Hc Ho Hfresh). cbn [fst snd]. split.
    + intros msg. destruct (toISOString _); discriminate.
    + exists (activated req env customer_id order_id).
      cbn [store with_store sessions with_sessions].
      repeat (split; [reflexivity|]).
      unfold getSession. cbn [sessions with_sessions].
      apply find_app_fresh; [exact Hfresh|]. apply String.eqb_refl.
  - intros customer_id order_id Hc Ho Hfresh _. cbv zeta.
    rewrite (Hrun customer_id order_id Hc Ho Hfresh). cbn [fst snd].
    split; [reflexivity|]. split; [apply Hexp|]. split.
    + intros Hp Hs. rewrite Hexp. cbn [s_created_at activated].
      rewrite (to_double_safe _ Hp). now apply to_double_safe.
    + intros iso Hiso. now rewrite Hiso.
  - intros _. destruct (post_sessions_frame req env w)
      as (_ & _ & _ & _ & [He|(customer_id & order_id & He & _)]); [now left|].
    right. eexists. split; [exact He|]. apply Hexp.
Qed.

(** The row challenge issuance inserts. *)
Definition issued_challenge (session_id dp : string) (env : io) : challenge :=
  {| challenge_id := generateId (random env) 0 "ch";
     c_session_id := session_id; c_dp_id := dp;
     challenge_nonce := generateToken (random env) 8 16;
     c_created_at := clock env 1;
     c_expires_at := clock env 1 + 60 * 1000; used := false |}%Z.

(** Issuance writes to [challenges] only, and only a row of a new id. *)
Lemma post_challenge_frame session_id dp_id env w :
  let w' := snd (post_challenge session_id dp_id env w) in
  sessions (store w') = sessions (store w)
  /\ delivery_events (store w') = delivery_events (store w)
  /\ dp_keys (store w') = dp_keys (store w)
  /\ contract w' = contract w
  /\ (challenges (store w') = challenges (store w)
      \/ exists dp,
           challenges (store w') =
             challenges (store w) ++ [issued_challenge session_id dp env]
           /\ challenge_by_id (store w) (generateId (random env) 0 "ch") = None).
Proof.
  unfold post_challenge, handle, post_challenge_body.
  destruct (given dp_id) as [dp|]; [|cbn; repeat split; now left].
  unfold bind, query.
  destruct (getSession _ _) as [session|]; [|cbn; repeat split; now left].
  destruct (_ <? _)%Z; [cbn; repeat split; now left|].
  destruct (negb _); [cbn; repeat split; now left|].
  destruct (getDPKey _ _); [|cbn; repeat split; now left].
  unfold insert, createChallenge.
  destruct (challenge_by_id (store w) _) eqn:Hfresh; [cbn; repeat split; now left|].
  destruct (toISOString _); cbn; (repeat split; right; exists dp; split;
    [reflexivity | first [exact Hfresh | reflexivity]]).
Qed.

(** C9, as the handler has it: for an active, unexpired session and a
    registered partner, the challenge stored has a nonce that is the
    hexadecimal form of 16 random bytes (32 characters that determine the 16
    bytes) and expires 60000 ms after its creation, whatever the session's
    lifetime: the window is the shorter of the two exactly when the session
    was opened for more than 60000 ms.  No request makes the handler store a
    challenge of another nonce length or window. *)
Theorem post_challenge_issues_128_bits_for_60_seconds session_id dp_id env w :
  (forall dp session dpKey,
     given dp_id = Some dp ->
     getSession (store w) session_id = Some session ->
     (s_expires_at session <? clock env 0)%Z = false ->
     s_status session = "active" ->
     getDPKey (store w) dp = Some dpKey ->
     challenge_by_id (store w) (generateId (random env) 0 "ch") = None ->
     let c := issued_challenge session_id dp env in
     snd (post_challenge session_id dp_id env w)
       = with_store w (with_challenges (store w) (challenges (store w) ++ [c]))
     /\ (forall iso, toISOString (c_expires_at c) = Some iso ->
           fst (post_challenge session_id dp_id env w)
             = ChallengeIssued (challenge_nonce c) iso)
     /\ challenge_nonce c = hex_of_bytes (randomBytes (random env) 8 16)
     /\ String.length (challenge_nonce c) = 32%nat
     /\ (forall r', hex_of_bytes (randomBytes r' 8 16) = challenge_nonce c ->
           randomBytes r' 8 16 = randomBytes (random env) 8 16)
     /\ (c_expires_at c - c_created_at c = 60000)%Z
     /\ ((c_expires_at c - c_created_at c
            < s_expires_at session - s_created_at session)%Z
         <-> (60000 < s_expires_at session - s_created_at session)%Z))
  /\ (challenges (store (snd (post_challenge session_id dp_id env w)))
        = challenges (store w)
      \/ exists c,
           challenges (store (snd (post_challenge session_id dp_id env w)))
             = challenges (store w) ++ [c]
           /\ String.length (challenge_nonce c) = 32%nat
           /\ (c_expires_at c - c_created_at c = 60000)%Z).
Proof.
  split; [|destruct (post_challenge_frame session_id dp_id env w)
             as (_ & _ & _ & _ & [He|(dp & He & _)]); [now left|];
           right; eexists; split; [exact He|]; split;
           [unfold issued_challenge, generateToken; cbn [challenge_nonce];
            now rewrite length_hex_of_bytes, length_randomBytes
           |unfold issued_challenge; cbn [c_expires_at c_created_at]; lia]].
  intros dp session dpKey Hdp Hs Hexp Hact Hkey Hfresh. cbv zeta.
  set (c := issued_challenge session_id dp env).
  assert (Hrun : post_challenge session_id dp_id env w =
            (match toISOString (c_expires_at c) with
             | Some iso => ChallengeIssued (challenge_nonce c) iso
             | None => Error 500 "Internal server error"
             end,
             with_store w (with_challenges (store w) (challenges (store w) ++ [c])))).
  { unfold post_challenge, handle, post_challenge_body. rewrite Hdp.
    unfold bind, query, insert, createChallenge. rewrite Hs, Hexp, Hact.
    rewrite String.eqb_refl. cbn [negb].
    rewrite Hkey, Hfresh. unfold c, issued_challenge.
    cbn [c_expires_at challenge_nonce]. destruct (toISOString _); reflexivity. }
  rewrite Hrun. cbn [fst snd]. split; [reflexivity|].
  split; [intros iso Hiso; now rewrite Hiso|].
  split; [reflexivity|].
  split.
  { unfold c, issued_challenge, generateToken. cbn [challenge_nonce].
    now rewrite length_hex_of_bytes, length_randomBytes. }
  split.
  { intros r' Hr'. now apply hex_of_bytes_inj. }
  unfold c, issued_challenge. cbn [c_expires_at c_created_at]. split; lia.
Qed.

End IssuanceFacts.

(** An activation for five minutes at 2000. *)
Lemma post_sessions_stores_created_plus_ttl_witness :
  let req := {| sr_customer_id := Some "cus_1"; sr_order_id := Some "ord_1";
                sr_ttl_seconds := Some 300%Z |} in
  let s := activated req (Demo.env "b" 2000) "cus_1" "ord_1" in
  snd (post_sessions (P := Demo.platform) req (Demo.env "b" 2000) (Demo.fresh None))
  = with_store (Demo.fresh None) (with_sessions empty_db [s])
  /\ s_expires_at s = (2000 + 1000 * 300)%Z.
Proof.
  intros req s.
  pose proof (post_sessions_stores_created_plus_ttl (P := Demo.platform) req
                (Demo.env "b" 2000) (Demo.fresh None)) as (_ & _ & H & _).
  assert (Hrange : finite_range 300 2000) by (split; reflexivity).
  pose proof (H "cus_1" "ord_1" eq_refl eq_refl eq_refl Hrange)
    as (Hw & _ & Hexact & _).
  split; [exact Hw|]. apply Hexact; unfold safe_integer; vm_compute; discriminate.
Defined.

(** Beyond 2^53 the expiry is rounded: a session opened at 2001 for
    9007199254741 seconds expires at 9007199254743000, one millisecond short
    of the sum. *)
Lemma activation_rounds_large_expiry :
  let r := post_sessions (P := Demo.platform)
             {| sr_customer_id := Some "cus_1"; sr_order_id := Some "ord_1";
                sr_ttl_seconds := Some 9007199254741%Z |} (Demo.env "b" 2001)
             (Demo.fresh None) in
  exists s, getSession (store (snd r)) Scenario.sid = Some s
            /\ s_created_at s = 2001%Z
            /\ s_expires_at s = 9007199254743000%Z
            /\ s_expires_at s <> (2001 + 1000 * 9007199254741)%Z.
Proof.
  eexists. repeat apply conj; try by_running. vm_compute. discriminate.
Qed.

(** C7 as the spec words it fails: a request with [ttl_seconds = -5] is not
    refused; it opens a session that expired 3 seconds before it began. *)
Lemma activation_accepts_negative_ttl :
  let r := post_sessions (P := Demo.platform)
             {| sr_customer_id := Some "cus_1"; sr_order_id := Some "ord_1";
                sr_ttl_seconds := Some (-5)%Z |} (Demo.env "b" 2000)
             (Demo.fresh None) in
  (exists iso, fst r = SessionCreated Scenario.sid Scenario.token "BLE" iso (-5))
  /\ exists s, getSession (store (snd r)) Scenario.sid = Some s
               /\ s_created_at s = 2000%Z /\ s_expires_at s = (-3000)%Z.
Proof.
  split.
  - eexists. by_running.
  - eexists. repeat apply conj; by_running.
Qed.

(** The partner registered and the session open for five minutes; the
    challenge asked at 3000. *)
Definition opened : world :=
  serve_all (P := Demo.platform)
    [ (PostRegister (Some (JStr Scenario.dp)) (Some (JStr Demo.key)), Demo.env "a" 1000);
      (PostSessions {| sr_customer_id := Some "cus_1"; sr_order_id := Some "ord_1";
                       sr_ttl_seconds := Some 300%Z |}, Demo.env "b" 2000) ]
    (Demo.fresh None).

Lemma post_challenge_issues_128_bits_for_60_seconds_witness :
  exists c,
    challenges (store (snd (post_challenge (P := Demo.platform) Scenario.sid
                              (Some Scenario.dp) (Demo.env "c" 3000) opened))) = [c]
    /\ challenge_nonce c = Scenario.nonce
    /\ (c_expires_at c - c_created_at c = 60000)%Z.
Proof.
  pose proof (post_challenge_issues_128_bits_for_60_seconds (P := Demo.platform)
                Scenario.sid (Some Scenario.dp) (Demo.env "c" 3000) opened)
    as [H _].
  pose proof (H Scenario.dp (ScenarioFacts.the_session 302000) ScenarioFacts.the_key
                eq_refl eq_refl eq_refl eq_refl eq_refl eq_refl)
    as (Hstore & _ & Hnonce & _ & _ & Hwindow & _).
  eexists. rewrite Hstore. split; [reflexivity|]. split; [exact Hnonce|exact Hwindow].
Defined.

(** C9 as the spec words it fails: activation permits a session of 30
    seconds, and the challenge issued for it keeps its 60 seconds, ending
    after the session does. *)
Lemma challenge_outlives_short_session :
  let w := Scenario.issued 30 3000 None in
  exists s c,
    getSession (store w) Scenario.sid = Some s
    /\ getChallenge (store w) Scenario.sid Scenario.dp = Some c
    /\ (s_expires_at s - s_created_at s = 30000)%Z
    /\ (c_expires_at c - c_created_at c = 60000)%Z
    /\ (s_expires_at s < c_expires_at c)%Z.
Proof.
  eexists _, _. repeat apply conj; by_running.
Qed.

(** ** Proofs that do not decode *)

Section DecodingFacts.

Context {P : Platform}.

(** [JSON.parse] throws on the text, or yields [null]. *)
Definition unreadable (text : string) : Prop :=
  JSON_parse text = None \/ JSON_parse text = Some JNull.

(** The bundle yields no text (it is no string and no buffer can be made
    of it), or a text that is unreadable. *)
Definition undecodable (blob : json) : Prop :=
  (exists e, blob_text blob = Throw e)
  \/ exists text, blob_text blob = Ret text /\ unreadable text.

(** C8, as the handler has it: the bundle is decoded after the look-ups.
    When it does not decode, the answer is the error of the first look-up
    that fails and, when none fails, the handler's catch-all 500 "Internal
    server error"; a validly signed message that does not parse ends in the
    same 500.  The store is left as it was in every case. *)
Theorem undecodable_proof_is_internal_error req env w sid dp blob :
  present (dr_session_id req) = Some sid ->
  present (dr_dp_id req) = Some dp ->
  present (dr_signed_blob req) = Some blob ->
  (undecodable blob ->
   post_deliveries req env w =
     match getSession (store w) (sql_text sid) with
     | None => (Error 404 "Session not found", w)
     | Some _ =>
         match getChallenge (store w) (sql_text sid) (sql_text dp) with
         | None => (Error 400 "No active challenge found", w)
         | Some challenge =>
             if (c_expires_at challenge <? clock env 0)%Z
             then (Error 400 "Challenge expired", w)
             else
               match getDPKey (store w) (sql_text dp) with
               | None => (Error 403 "Delivery partner not registered", w)
               | Some _ => (Error 500 "Internal server error", w)
               end
         end
     end)
  /\ (forall session challenge dpKey message signature,
        selects req env w sid dp session challenge dpKey ->
        carries req (Some (JStr message)) (Some (JStr signature)) ->
        signed_by dpKey message signature ->
        unreadable message ->
        post_deliveries req env w = (Error 500 "Internal server error", w)).
Proof.
  intros Hs Hd Hb. split.
  - intros Hbad. unfold post_deliveries, handle, post_deliveries_body, bind.
    open_checks. rewrite Hs, Hd, Hb.
    destruct (getSession (store w) (sql_text sid)); [|reflexivity].
    destruct (getChallenge (store w) (sql_text sid) (sql_text dp)) as [challenge|];
      [|reflexivity].
    destruct (c_expires_at challenge <? clock env 0)%Z; [reflexivity|].
    destruct (getDPKey (store w) (sql_text dp)); [|reflexivity].
    destruct Hbad as [(e & ->)|(text & -> & [-> | ->])]; reflexivity.
  - intros session challenge dpKey message signature
      (Hs' & Hd' & Hsess & Hch & Hexp & Hkey)
      (blob' & text & signedData & Hb' & Htext & Hparse & Hm & Hsig) Hvalid Hbad.
    unfold post_deliveries, handle, post_deliveries_body, bind.
    open_checks. rewrite Hs', Hd', Hb'. simpl.
    rewrite Hsess, Hch, Hexp, Hkey, Htext, Hparse, Hm, Hsig.
    unfold signed_by in Hvalid. rewrite Hvalid. simpl.
    destruct Hbad as [-> | ->]; reflexivity.
Qed.

End DecodingFacts.

(** A bundle that is no base64 of JSON, for the open challenge of the examples. *)
Definition garbled_proof : delivery_req :=
  {| dr_session_id := Some (JStr Scenario.sid); dr_dp_id := Some (JStr Scenario.dp);
     dr_signed_blob := Some (JStr "%%%"); dr_evidence_hashes := None |}.

Lemma undecodable_proof_is_internal_error_witness :
  post_deliveries (P := Demo.platform) garbled_proof (Demo.env "d" 4000)
    (Scenario.issued 300 3000 None)
  = (Error 500 "Internal server error", Scenario.issued 300 3000 None).
Proof.
  pose proof (undecodable_proof_is_internal_error (P := Demo.platform) garbled_proof
                (Demo.env "d" 4000) (Scenario.issued 300 3000 None)
                (JStr Scenario.sid) (JStr Scenario.dp) (JStr "%%%")
                eq_refl eq_refl eq_refl) as [H _].
  assert (Hbad : undecodable (P := Demo.platform) (JStr "%%%")).
  { right. exists "%%%". split; [reflexivity|]. left. reflexivity. }
  rewrite (H Hbad). by_running.
Defined.

(** C8 as the spec words it fails: the undecodable bundle is answered with
    the generic 500, not with a failure kind of its own; and for a session
    that does not exist it is answered 404, the bundle never looked at. *)
Lemma malformed_proof_has_no_kind_of_its_own :
  fst (post_deliveries (P := Demo.platform) garbled_proof (Demo.env "d" 4000)
         (Scenario.issued 300 3000 None))
  = Error 500 "Internal server error"
  /\ fst (post_deliveries (P := Demo.platform) garbled_proof (Demo.env "d" 4000)
            (Demo.fresh None))
     = Error 404 "Session not found".
Proof. split; by_running. Qed.

(** ** The canonical form of an event *)

Local Open Scope string_scope.

Lemma append_cons c (a b : string) : String c a ++ b = String c (a ++ b).
Proof. reflexivity. Qed.

















Local Close Scope string_scope.




(** ** What a request does to the store *)

Section Effects.

Context {P : Platform}.

Lemma strict_ne_false v s : strict_ne v s = false -> v = Some (JStr s).
Proof.
  destruct v as [[| | |t| |]|]; simpl; try discriminate.
  intros H. apply negb_false_iff, String.eqb_eq in H. now subst.
Qed.

Lemma strict_ne_value_false v x :
  strict_ne_value v x = false -> v = Some x /\ strict_ne_value (Some x) x = false.
Proof.
  destruct x as [|b|n|s| |]; simpl; try discriminate.
  - destruct v as [[| | | | |]|]; try discriminate. now split.
  - destruct v as [[|c| | | |]|]; try discriminate. intros H.
    apply negb_false_iff, Bool.eqb_prop in H. subst c.
    split; [reflexivity|]. now destruct b.
  - destruct v as [[| |m| | |]|]; try discriminate. intros H.
    apply negb_false_iff, Z.eqb_eq in H. subst m.
    split; [reflexivity|]. now rewrite Z.eqb_refl.
  - intros H. pose proof (strict_ne_false _ _ H) as ->.
    split; [reflexivity|]. now rewrite String.eqb_refl.
Qed.

Lemma string_arg_some v s : string_arg v = Some s -> v = Some (JStr s).
Proof.
  unfold string_arg. destruct (falsy v || not_a_string v); [discriminate|].
  destruct v as [[| | |t| |]|]; try discriminate. now intros [= ->].
Qed.

Lemma verifySignature_true_strings pk message signature :
  verifySignature pk message signature = Ret true ->
  exists m sg, message = Some (JStr m) /\ signature = Some (JStr sg).
Proof.
  unfold verifySignature, verifySignature_try.
  destruct (string_arg pk); [|discriminate].
  destruct (string_arg signature) as [sg|] eqn:Hsg; [|discriminate].
  apply string_arg_some in Hsg. subst signature.
  destruct (negb _); [discriminate|]. destruct (negb _); [discriminate|].
  destruct (negb _); [discriminate|].
  destruct message as [[| | |m| |]|]; simpl; try discriminate.
  intros _. now exists m, sg.
Qed.

(** What the checks hand to the second half: the request met every check. *)
Definition admitted (req : delivery_req) (env : io) (w : world) (t : ticket) : Prop :=
  exists session_key message messageData,
    selects req env w (t_session_id t) (t_dp_id t) (t_session t) (t_challenge t)
      session_key
    /\ carries req (Some (JStr message)) (Some (JStr (t_signature t)))
    /\ signed_by session_key message (t_signature t)
    /\ consistent message (t_session_id t) (challenge_nonce (t_challenge t)) messageData
    /\ t_evidence_hashes t = default (JArr []) (dr_evidence_hashes req).

(** The checks end in an error response or in a ticket. *)
Lemma checks_outcome req env w :
  (exists code msg, deliveries_begin req env w = inl (Error code msg))
  \/ (exists t, deliveries_begin req env w = inr t /\ admitted req env w t).
Proof.
  unfold deliveries_begin. open_checks.
  destruct (present (dr_session_id req)) as [sid|] eqn:Hs; [|left; eauto].
  destruct (present (dr_dp_id req)) as [dp|] eqn:Hd; [|left; eauto].
  destruct (present (dr_signed_blob req)) as [blob|] eqn:Hb; [|left; eauto].
  destruct (getSession _ _) as [session|] eqn:Hsess; [|left; eauto].
  destruct (getChallenge _ _ _) as [challenge|] eqn:Hch; [|left; eauto].
  destruct (_ <? _)%Z eqn:Hexp; [left; eauto|].
  destruct (getDPKey _ _) as [dpKey|] eqn:Hkey; [|left; eauto].
  destruct (blob_text blob) as [text|] eqn:Htext; [|left; eauto].
  destruct (JSON_parse _) as [signedData|] eqn:Hparse; [|left; eauto].
  destruct (get_prop signedData "message") as [message|] eqn:Hm; [|left; eauto].
  destruct (get_prop signedData "signature") as [signature|] eqn:Hsig; [|left; eauto].
  destruct (verifySignature _ _ _) as [[|]|] eqn:Hvalid; simpl; try (left; eauto; fail).
  destruct (verifySignature_true_strings _ _ _ Hvalid) as (m & sg & -> & ->).
  destruct (JSON_parse m) as [messageData|] eqn:Hmsg; [|left; eauto].
  destruct (get_prop messageData "session_id") as [m_sid|] eqn:Hmsid; [|left; eauto].
  destruct (get_prop messageData "challenge_nonce") as [m_nonce|] eqn:Hmn;
    [|left; eauto].
  destruct (strict_ne_value m_sid sid) eqn:Hne1; simpl; [left; eauto|].
  destruct (strict_ne m_nonce (challenge_nonce challenge)) eqn:Hne2; [left; eauto|].
  apply strict_ne_value_false in Hne1 as [-> Hsame].
  apply strict_ne_false in Hne2. subst m_nonce.
  right. eexists. split; [reflexivity|].
  exists dpKey, m, messageData. cbn.
  split; [repeat apply conj; assumption|].
  split; [exists blob, text, signedData; repeat apply conj; assumption|].
  split; [exact Hvalid|]. split; [repeat apply conj; assumption|reflexivity].
Qed.

(** The second half when the event id is taken: the insert fails after the
    challenge was marked, and the handler answers 500. *)
Lemma end_conflict t env w e :
  getDeliveryEvent (store w) (event_id (eventData_of t env)) = Some e ->
  deliveries_end t env w =
    (Error 500 "Internal server error",
     with_store w (markChallengeUsed (store w) (challenge_id (t_challenge t)))).
Proof.
  intros Htaken. unfold deliveries_end, handle, deliveries_commit.
  unfold bind at 1. unfold update at 1.
  unfold bind at 1. unfold insert at 1.
  cbn [store with_store]. unfold createDeliveryEvent.
  rewrite getDeliveryEvent_mark, Htaken. reflexivity.
Qed.

(** Every way a delivery request can end. *)
Lemma post_deliveries_cases req env w :
  (exists code msg, post_deliveries req env w = (Error code msg, w))
  \/ (exists t,
        deliveries_begin req env w = inr t
        /\ admitted req env w t
        /\ ((exists e,
               getDeliveryEvent (store w) (event_id (eventData_of t env)) = Some e
               /\ post_deliveries req env w =
                    (Error 500 "Internal server error",
                     with_store w
                       (markChallengeUsed (store w) (challenge_id (t_challenge t)))))
            \/ (getDeliveryEvent (store w) (event_id (eventData_of t env)) = None
                /\ exists txHash w',
                     post_deliveries req env w =
                       (Verified (event_id (eventData_of t env)) txHash, w')
                     /\ ((txHash = None
                          /\ store w' = recorded (store w) t env)
                         \/ (exists chain',
                               txHash = Some (receipt_hash env)
                               /\ contract w' = Some chain'
                               /\ store w' =
                                  updateEventAnchor (recorded (store w) t env)
                                    (event_id (eventData_of t env))
                                    (anchor_hash_of t env)
                                    (receipt_hash env) (iso_clock env 2)))))).
Proof.
  rewrite post_deliveries_split.
  destruct (checks_outcome req env w) as [(code & msg & ->)|(t & -> & Hadm)].
  - left. eauto.
  - right. exists t. split; [reflexivity|]. split; [exact Hadm|].
    destruct (getDeliveryEvent (store w) (event_id (eventData_of t env))) as [e|] eqn:He.
    + left. exists e. split; [reflexivity|]. exact (end_conflict t env w e He).
    + right. split; [reflexivity|].
      destruct (commit_verified t env w He) as (txHash & w' & Hc & Hcase).
      exists txHash, w'. unfold deliveries_end, handle. rewrite Hc.
      split; [reflexivity|exact Hcase].
Qed.

End Effects.

Section Frames.

Context {P : Platform}.

(** Registration writes to [dp_keys] only, and only for an id without an
    active key. *)
Lemma post_dp_register_frame dp_id public_key env w :
  let w' := snd (post_dp_register dp_id public_key env w) in
  sessions (store w') = sessions (store w)
  /\ challenges (store w') = challenges (store w)
  /\ delivery_events (store w') = delivery_events (store w)
  /\ contract w' = contract w
  /\ (w' = w
      \/ exists id key,
           getDPKey (store w) id = None
           /\ store w' = registerDPKey (store w) id key (clock env 0)).
Proof.
  unfold post_dp_register, register_handle, post_dp_register_body, register_commit,
    bind, register_checks.
  destruct (string_arg dp_id) as [id|]; [|cbn; repeat split; now left].
  destruct (blank id); [cbn; repeat split; now left|].
  destruct (string_arg public_key) as [key|]; [|cbn; repeat split; now left].
  destruct (blank key); [cbn; repeat split; now left|].
  destruct (negb _); [cbn; repeat split; now left|].
  destruct (negb _); [cbn; repeat split; now left|].
  destruct (negb _); [cbn; repeat split; now left|].
  unfold bind, query.
  destruct (getDPKey (store w) id) eqn:Hnone; [cbn; repeat split; now left|].
  cbn. repeat split. right. exists id, (str_trim key). now split.
Qed.

Lemma get_verify_frame id env w : snd (get_verify id env w) = w.
Proof.
  unfold get_verify, handle, get_verify_body, bind, query.
  now destruct (getDeliveryEvent _ _).
Qed.

(** *** Anchored events carry the hash of the event as it was built *)

(** [h] is the anchor hash of the event object the handler built for the
    row [e]: the hash of the canonical form of the row's members, but for
    [session_id] and [dp_id], which are written as two values of which the
    row holds the texts. *)
Definition hash_as_built (e : delivery_event) (h : string) : Prop :=
  exists session_id dp_id,
    sql_text session_id = e_session_id e /\ sql_text dp_id = e_dp_id e
    /\ h = ("0x" ++ hashString (canonicalizeEvent_built session_id dp_id e))%string.

(** For two strings the handler's object and the row have the same
    canonical form. *)
Lemma canonicalizeEvent_built_strings e :
  canonicalizeEvent_built (JStr (e_session_id e)) (JStr (e_dp_id e)) e
  = canonicalizeEvent e.
Proof. reflexivity. Qed.

Lemma hash_as_built_ticket t env txh time :
  hash_as_built (set_anchor (anchor_hash_of t env) txh time (eventData_of t env))
    (anchor_hash_of t env).
Proof. exists (t_session_id t), (t_dp_id t). repeat split. Qed.

Lemma hash_as_built_pending t env :
  hash_as_built (eventData_of t env) (anchor_hash_of t env).
Proof. exists (t_session_id t), (t_dp_id t). repeat split. Qed.

Definition events_sound (d : db) : Prop :=
  forall e h,
    In e (delivery_events d) -> anchor_hash e = Some h -> hash_as_built e h.

Lemma getDeliveryEvent_none d id e :
  getDeliveryEvent d id = None -> In e (delivery_events d) -> event_id e <> id.
Proof.
  unfold getDeliveryEvent. intros Hnone Hin Heq.
  pose proof (find_none _ _ Hnone e Hin) as H. simpl in H.
  rewrite Heq, String.eqb_refl in H. discriminate.
Qed.

Lemma events_sound_recorded d t env :
  events_sound d -> events_sound (recorded d t env).
Proof.
  intros Hs e h Hin Hh. unfold recorded, updateSessionStatus in Hin. simpl in Hin.
  apply in_app_or in Hin as [Hin|[<-|[]]]; [now apply (Hs e h)|discriminate].
Qed.

Lemma events_sound_anchored d t env txh time :
  getDeliveryEvent d (event_id (eventData_of t env)) = None ->
  events_sound d ->
  events_sound
    (updateEventAnchor (recorded d t env) (event_id (eventData_of t env))
       (anchor_hash_of t env) txh time).
Proof.
  intros Hfresh Hs e h Hin Hh. unfold updateEventAnchor in Hin.
  cbn [delivery_events with_events] in Hin.
  apply in_map_iff in Hin as (e0 & He & Hin0).
  unfold recorded, updateSessionStatus in Hin0.
  cbn [delivery_events with_events with_sessions] in Hin0.
  apply in_app_or in Hin0 as [Hold|[<-|[]]].
  - pose proof (getDeliveryEvent_none _ _ _ Hfresh Hold) as Hne.
    apply String.eqb_neq in Hne. rewrite Hne in He. subst e0.
    now apply (Hs e h).
  - rewrite String.eqb_refl in He. subst e. simpl in Hh. injection Hh as <-.
    apply hash_as_built_ticket.
Qed.

Lemma events_sound_serve rq env w :
  events_sound (store w) -> events_sound (store (snd (serve rq env w))).
Proof.
  intros Hs. destruct rq as [req|sid dp_id|req|id|dp_id public_key]; simpl.
  - destruct (post_sessions_frame req env w) as (_ & He & _).
    unfold events_sound. now rewrite He.
  - destruct (post_challenge_frame sid dp_id env w) as (_ & He & _).
    unfold events_sound. now rewrite He.
  - destruct (post_deliveries_cases req env w)
      as [(code & msg & ->)|(t & _ & _ & [(e & _ & ->)|(Hfresh & txHash & w' & -> & Hcase)])];
      simpl; trivial.
    destruct Hcase as [[_ ->]|(chain' & _ & _ & Hst)]; simpl.
    + now apply events_sound_recorded.
    + rewrite Hst. now apply events_sound_anchored.
  - now rewrite get_verify_frame.
  - destruct (post_dp_register_frame dp_id public_key env w) as (_ & _ & He & _).
    unfold events_sound. now rewrite He.
Qed.

Lemma events_sound_serve_all rqs : forall w,
  events_sound (store w) -> events_sound (store (serve_all rqs w)).
Proof.
  induction rqs as [|[rq env] rqs IH]; intros w Hs; simpl; trivial.
  apply IH. now apply events_sound_serve.
Qed.

End Frames.

(** ** Verification of a stored event *)

Section VerifyFacts.

Context {P : Platform}.

(** The stored fields the report shows. *)
Definition reported (e : delivery_event) :=
  (event_id e, e_session_id e, e_order_id e, e_dp_id e, timestamp e, e_status e,
   tx_hash e, anchor_hash e, anchored_at e).

(** The ledger holds the stored anchor hash and can be asked. *)
Definition ledger_confirms (env : io) (w : world) (e : delivery_event) : Prop :=
  exists chain h n,
    contract w = Some chain /\ given (anchor_hash e) = Some h
    /\ rpc_ok env = true /\ bytes32_of_hex h = Some n
    /\ AnchorRegistry.isAnchored chain n = true.

Lemma get_verify_found id env w e :
  getDeliveryEvent (store w) id = Some e ->
  exists b,
    get_verify id env w =
      (Report {| v_event_id := event_id e; v_session_id := e_session_id e;
                 v_order_id := e_order_id e; v_dp_id := e_dp_id e;
                 v_timestamp := timestamp e; v_status := e_status e;
                 v_tx_hash := tx_hash e; v_anchor_hash := anchor_hash e;
                 v_anchored_at := anchored_at e; blockchain_verified := b |}, w)
    /\ (b = true <-> ledger_confirms env w e).
Proof.
  intros He. unfold get_verify, handle, get_verify_body, bind, query. rewrite He.
  unfold ret. eexists. split; [reflexivity|]. unfold ledger_confirms.
  destruct (contract w) as [chain|] eqn:Hc.
  2:{ split; [discriminate|]. intros (? & ? & ? & ? & _). congruence. }
  destruct (given (anchor_hash e)) as [h|] eqn:Hh.
  2:{ split; [discriminate|]. intros (? & ? & ? & _ & ? & _). congruence. }
  unfold contract_isAnchored. destruct (rpc_ok env) eqn:Hrpc; simpl.
  2:{ split; [discriminate|]. intros (? & ? & ? & _ & _ & ? & _). congruence. }
  destruct (bytes32_of_hex h) as [n|] eqn:Hn.
  2:{ split; [discriminate|]. intros (? & ? & ? & _ & ? & _ & ? & _). congruence. }
  split.
  - intros Hb. exists chain, h, n. now repeat split.
  - intros (? & ? & ? & ? & ? & _ & ? & Hb). congruence.
Qed.

(** C6, as the handler has it: the report shows nine stored fields of the
    event as they are and [blockchain_verified], true exactly when the
    ledger can be asked and holds the stored anchor hash; nothing is
    recomputed, so two stores that agree on the nine fields get the same
    report; an absent event is a 404.  What the server wrote as anchor hash
    is "0x" followed by the hash of the canonical form of the event object
    the delivery handler built, in which [session_id] and [dp_id] are the
    values of the request as received, while the row holds their texts:
    recomputing the hash from the row round-trips when the request gave
    both as strings. *)
Theorem verify_reports_stored_fields id env w :
  (getDeliveryEvent (store w) id = None ->
   get_verify id env w = (Error 404 "Event not found", w))
  /\ (forall e,
        getDeliveryEvent (store w) id = Some e ->
        exists b,
          get_verify id env w =
            (Report {| v_event_id := event_id e; v_session_id := e_session_id e;
                       v_order_id := e_order_id e; v_dp_id := e_dp_id e;
                       v_timestamp := timestamp e; v_status := e_status e;
                       v_tx_hash := tx_hash e; v_anchor_hash := anchor_hash e;
                       v_anchored_at := anchored_at e; blockchain_verified := b |}, w)
          /\ (b = true <-> ledger_confirms env w e))
  /\ (forall w2 e e2,
        getDeliveryEvent (store w) id = Some e ->
        getDeliveryEvent (store w2) id = Some e2 ->
        contract w2 = contract w -> reported e2 = reported e ->
        fst (get_verify id env w2) = fst (get_verify id env w))
  /\ (forall rqs c e h,
        In e (delivery_events
                (store (serve_all rqs {| store := empty_db; contract := c |}))) ->
        anchor_hash e = Some h ->
        exists session_id dp_id,
          sql_text session_id = e_session_id e /\ sql_text dp_id = e_dp_id e
          /\ h = ("0x" ++ hashString (canonicalizeEvent_built session_id dp_id e))%string
          /\ (session_id = JStr (e_session_id e) -> dp_id = JStr (e_dp_id e) ->
              h = ("0x" ++ hashString (canonicalizeEvent e))%string))
  /\ (forall req env1 w0 evt txh w1 session_id dp_id,
        post_deliveries req env1 w0 = (Verified evt (Some txh), w1) ->
        present (dr_session_id req) = Some session_id ->
        present (dr_dp_id req) = Some dp_id ->
        exists e,
          In e (delivery_events (store w1)) /\ event_id e = evt
          /\ e_session_id e = sql_text session_id /\ e_dp_id e = sql_text dp_id
          /\ anchor_hash e
             = Some ("0x" ++ hashString (canonicalizeEvent_built session_id dp_id e))%string
          /\ (forall a b, session_id = JStr a -> dp_id = JStr b ->
                anchor_hash e = Some ("0x" ++ hashString (canonicalizeEvent e))%string)).
Proof.
  split.
  { intros Hnone. unfold get_verify, handle, get_verify_body, bind, query.
    now rewrite Hnone. }
  split; [intros e; apply get_verify_found|].
  split.
  { intros w2 e e2 He He2 Hc Hrep.
    unfold get_verify, handle, get_verify_body, bind, query, ret.
    rewrite He, He2, Hc. unfold reported in Hrep.
    injection Hrep as -> -> -> -> -> -> -> -> ->. reflexivity. }
  split.
  { intros rqs c e h Hin Hh.
    assert (Hs : events_sound
                   (store (serve_all rqs {| store := empty_db; contract := c |}))).
    { apply events_sound_serve_all. intros e0 h0 []. }
    destruct (Hs e h Hin Hh) as (session_id & dp_id & Hsid & Hdp & Hhash).
    exists session_id, dp_id. repeat (split; [assumption|]).
    intros -> ->. exact Hhash. }
  intros req env1 w0 evt txh w1 session_id dp_id Hr Hsid Hdp.
  destruct (post_deliveries_cases req env1 w0)
    as [(code & msg & He)|(t & _ & Hadm & [(e0 & _ & He)
        |(_ & txHash & w' & He & Hcase)])];
    rewrite He in Hr; try discriminate.
  injection Hr as <- -> <-.
  destruct Hcase as [[Hnone _]|(chain' & _ & _ & Hst)]; [discriminate|].
  destruct Hadm as (k & m & md & (Hs & Hd & _) & _).
  assert (Ht : t_session_id t = session_id /\ t_dp_id t = dp_id) by (split; congruence).
  destruct Ht as [Hts Htd].
  exists (set_anchor (anchor_hash_of t env1) (receipt_hash env1) (iso_clock env1 2)
            (eventData_of t env1)).
  split.
  { rewrite Hst. unfold updateEventAnchor, recorded, updateSessionStatus.
    cbn [delivery_events with_events with_sessions].
    apply in_map_iff. exists (eventData_of t env1). rewrite String.eqb_refl.
    split; [reflexivity|]. apply in_or_app. right. now left. }
  split; [reflexivity|].
  cbn [e_session_id e_dp_id set_anchor eventData_of anchor_hash].
  rewrite Hts, Htd. split; [reflexivity|]. split; [reflexivity|].
  assert (Hh : anchor_hash_of t env1
               = ("0x" ++ hashString
                    (canonicalizeEvent_built session_id dp_id
                       (set_anchor (anchor_hash_of t env1) (receipt_hash env1)
                          (iso_clock env1 2) (eventData_of t env1))))%string).
  { unfold anchor_hash_of. now rewrite Hts, Htd. }
  split; [now rewrite <- Hh|].
  intros a b Ha Hb. rewrite Hh at 1. f_equal. f_equal. f_equal.
  unfold canonicalizeEvent, canonicalizeEvent_built.
  cbn [e_session_id e_dp_id set_anchor eventData_of].
  rewrite Hts, Htd, Ha, Hb. reflexivity.
Qed.

End VerifyFacts.

(** The world of the examples after the proof of 4000 was accepted and
    anchored, and the same world with the customer of the stored event
    replaced. *)
Definition delivered : world :=
  snd (post_deliveries (P := Demo.platform) (Scenario.proof Scenario.right_hash)
         (Demo.env "d" 4000) (Scenario.issued 300 3000 (Some AnchorRegistry.genesis))).

Definition forge_customer (e : delivery_event) : delivery_event :=
  {| event_id := event_id e; e_session_id := e_session_id e;
     e_order_id := e_order_id e; e_customer_id := "cus_666";
     e_dp_id := e_dp_id e; ephemeral_token_hash := ephemeral_token_hash e;
     e_challenge_nonce := e_challenge_nonce e; dp_signature := dp_signature e;
     evidence_hashes := evidence_hashes e; timestamp := timestamp e;
     backend_received_at := backend_received_at e; anchor_hash := anchor_hash e;
     tx_hash := tx_hash e; anchored_at := anchored_at e; e_status := e_status e |}.

Definition tampered : world :=
  with_store delivered
    (with_events (store delivered)
       (List.map forge_customer (delivery_events (store delivered)))).

(** The requests that lead to [delivered]. *)
Definition delivery_history : list (request * io) :=
  [ (PostRegister (Some (JStr Scenario.dp)) (Some (JStr Demo.key)), Demo.env "a" 1000);
    (PostSessions {| sr_customer_id := Some "cus_1"; sr_order_id := Some "ord_1";
                     sr_ttl_seconds := Some 300%Z |}, Demo.env "b" 2000);
    (PostChallenge Scenario.sid (Some Scenario.dp), Demo.env "c" 3000);
    (PostDeliveries (Scenario.proof Scenario.right_hash), Demo.env "d" 4000) ].

Lemma delivered_history :
  delivered =
  serve_all (P := Demo.platform) delivery_history
    {| store := empty_db; contract := Some AnchorRegistry.genesis |}.
Proof. by_running. Qed.

Lemma getDeliveryEvent_in d id e :
  getDeliveryEvent d id = Some e -> In e (delivery_events d).
Proof. intros H. now apply find_some in H. Qed.

Lemma verify_reports_stored_fields_witness :
  exists e,
    In e (delivery_events (store delivered))
    /\ event_id e = "evt_6464646464646464"
    /\ anchor_hash e
       = Some ("0x" ++ hashString (P := Demo.platform) (canonicalizeEvent e))%string.
Proof.
  pose proof (verify_reports_stored_fields (P := Demo.platform)
                "evt_6464646464646464" (Demo.env "e" 5000) delivered)
    as (_ & _ & _ & _ & Hbuilt).
  assert (Hr : post_deliveries (P := Demo.platform) (Scenario.proof Scenario.right_hash)
                 (Demo.env "d" 4000)
                 (Scenario.issued 300 3000 (Some AnchorRegistry.genesis))
               = (Verified "evt_6464646464646464"
                    (Some (receipt_hash (Demo.env "d" 4000))), delivered))
    by by_running.
  destruct (Hbuilt _ _ _ _ _ _ (JStr Scenario.sid) (JStr Scenario.dp) Hr eq_refl eq_refl)
    as (e & Hin & Hid & _ & _ & _ & Hround).
  exists e. split; [exact Hin|]. split; [exact Hid|].
  exact (Hround _ _ eq_refl eq_refl).
Defined.

(** C6 as the spec words it fails: after the stored customer was replaced,
    the stored anchor hash is no longer the hash of the stored fields, and
    the report is the one of the untouched store, ledger confirmation
    included. *)
Lemma verify_is_blind_to_tampering :
  (exists e,
     getDeliveryEvent (store tampered) "evt_6464646464646464" = Some e
     /\ anchor_hash e
        <> Some ("0x" ++ hashString (P := Demo.platform) (canonicalizeEvent e))%string)
  /\ fst (get_verify "evt_6464646464646464" (Demo.env "e" 5000)
            tampered)
     = fst (get_verify "evt_6464646464646464" (Demo.env "e" 5000)
              delivered)
  /\ exists r,
       fst (get_verify "evt_6464646464646464"
              (Demo.env "e" 5000) tampered) = Report r
       /\ blockchain_verified r = true.
Proof.
  split.
  - eexists. split; [by_running|]. intros H. vm_compute in H. discriminate.
  - split; [by_running|]. eexists. split; by_running.
Qed.

(** The partner registered as "5" delivers and names itself by the number
    5: the row stores the text "5" while the anchor hash was taken of the
    event with the number, so the stored hash is not the hash of the stored
    row's canonical form. *)
Definition numbered_history : list (request * io) :=
  [ (PostRegister (Some (JStr "5")) (Some (JStr Demo.key)), Demo.env "a" 1000);
    (PostSessions {| sr_customer_id := Some "cus_1"; sr_order_id := Some "ord_1";
                     sr_ttl_seconds := Some 300%Z |}, Demo.env "b" 2000);
    (PostChallenge Scenario.sid (Some "5"), Demo.env "c" 3000) ].

Definition numbered_proof : delivery_req :=
  {| dr_session_id := Some (JStr Scenario.sid); dr_dp_id := Some (JNum 5);
     dr_signed_blob := dr_signed_blob (Scenario.proof Scenario.right_hash);
     dr_evidence_hashes := None |}.

Lemma numeric_dp_id_breaks_the_round_trip :
  let w := serve_all (P := Demo.platform) numbered_history
             (Demo.fresh (Some AnchorRegistry.genesis)) in
  let r := post_deliveries (P := Demo.platform) numbered_proof (Demo.env "d" 4000) w in
  exists txHash e,
    fst r = Verified "evt_6464646464646464" (Some txHash)
    /\ getDeliveryEvent (store (snd r)) "evt_6464646464646464" = Some e
    /\ e_dp_id e = "5" /\ e_status e = "anchored"
    /\ anchor_hash e
       = Some ("0x" ++ hashString (P := Demo.platform)
                         (canonicalizeEvent_built (P := Demo.platform)
                            (JStr Scenario.sid) (JNum 5) e))%string
    /\ anchor_hash e
       <> Some ("0x" ++ hashString (P := Demo.platform) (canonicalizeEvent e))%string.
Proof.
  cbv zeta. eexists. eexists.
  split; [by_running|]. split; [by_running|].
  split; [by_running|]. split; [by_running|]. split; [by_running|].
  intros H. vm_compute in H. discriminate.
Qed.

(** ** One challenge, one delivery: requests served one after the other *)

Section SingleUse.

Context {P : Platform}.

Lemma later_of_fold l : forall best c,
  fold_left later_of l best = Some c -> In c l \/ best = Some c.
Proof.
  induction l as [|x l IH]; simpl; intros best c H; [now right|].
  apply IH in H as [H|H]; [left; now right|].
  unfold later_of in H. destruct best as [b|].
  - destruct (_ <? _)%Z; injection H as <-; [left; now left | now right].
  - injection H as <-. left; now left.
Qed.

(** The challenge the handler picks is a stored, unused challenge of the pair. *)
Lemma getChallenge_open d sid dp c :
  getChallenge d sid dp = Some c ->
  In c (challenges d) /\ c_session_id c = sid /\ c_dp_id c = dp /\ used c = false.
Proof.
  unfold getChallenge. intros H. apply later_of_fold in H as [H|H]; [|discriminate].
  apply filter_In in H as [Hin Hopen]. unfold open_for in Hopen.
  apply andb_prop in Hopen as [Hopen Hused]. apply andb_prop in Hopen as [Hs Hd].
  apply String.eqb_eq in Hs, Hd. apply negb_true_iff in Hused. now repeat split.
Qed.

(** Every stored challenge of this id is used, and there is one. *)
Definition consumed (l : list challenge) (cid : string) : Prop :=
  (exists c, In c l /\ challenge_id c = cid)
  /\ (forall c, In c l -> challenge_id c = cid -> used c = true).

Definition mark_in (id : string) (l : list challenge) : list challenge :=
  List.map (fun c => if String.eqb (challenge_id c) id then set_used c else c) l.

Lemma challenges_mark d id : challenges (markChallengeUsed d id) = mark_in id (challenges d).
Proof. reflexivity. Qed.

Lemma mark_keeps_id id c :
  challenge_id (if String.eqb (challenge_id c) id then set_used c else c) = challenge_id c.
Proof. now destruct (String.eqb _ _). Qed.

Lemma consumed_mark l cid id : consumed l cid -> consumed (mark_in id l) cid.
Proof.
  intros [(c & Hin & Hc) Hall]. split.
  - eexists. split; [apply in_map, Hin|]. now rewrite mark_keeps_id.
  - intros c' Hin' Hid. apply in_map_iff in Hin' as (c0 & <- & Hin0).
    rewrite mark_keeps_id in Hid. destruct (String.eqb _ _); [reflexivity|].
    now apply Hall.
Qed.

Lemma mark_consumes l c : In c l -> consumed (mark_in (challenge_id c) l) (challenge_id c).
Proof.
  intros Hin. split.
  - eexists. split; [apply in_map, Hin|]. now rewrite mark_keeps_id.
  - intros c' Hin' Hid. apply in_map_iff in Hin' as (c0 & <- & Hin0).
    rewrite mark_keeps_id in Hid. apply String.eqb_eq in Hid. now rewrite Hid.
Qed.

Lemma consumed_append d cid c :
  consumed (challenges d) cid -> challenge_by_id d (challenge_id c) = None ->
  consumed (challenges d ++ [c]) cid.
Proof.
  intros [(c0 & Hin & Hc) Hall] Hfresh. split.
  - exists c0. split; [apply in_or_app; now left|exact Hc].
  - intros c' Hin' Hid. apply in_app_or in Hin' as [Hin'|[<-|[]]]; [now apply Hall|].
    unfold challenge_by_id in Hfresh.
    pose proof (find_none _ _ Hfresh c0 Hin) as H. simpl in H.
    rewrite Hc, <- Hid, String.eqb_refl in H. discriminate.
Qed.

(** What a delivery request does to [challenges]: nothing, or the marking
    of the challenge it was checked against. *)
Lemma post_deliveries_challenges req env w :
  challenges (store (snd (post_deliveries req env w))) = challenges (store w)
  \/ exists t,
       deliveries_begin req env w = inr t
       /\ challenges (store (snd (post_deliveries req env w)))
          = mark_in (challenge_id (t_challenge t)) (challenges (store w)).
Proof.
  destruct (post_deliveries_cases req env w)
    as [(code & msg & ->)|(t & Hb & _ & [(e & _ & ->)|(_ & txHash & w' & -> & Hcase)])].
  - now left.
  - right. exists t. now split.
  - right. exists t. split; [exact Hb|]. cbn [snd].
    destruct Hcase as [[_ ->]|(chain' & _ & _ & ->)]; reflexivity.
Qed.

Lemma consumed_serve rq env w cid :
  consumed (challenges (store w)) cid ->
  consumed (challenges (store (snd (serve rq env w)))) cid.
Proof.
  intros Hc. destruct rq as [req|sid dp_id|req|id|dp_id public_key]; simpl.
  - destruct (post_sessions_frame req env w) as (-> & _). exact Hc.
  - destruct (post_challenge_frame sid dp_id env w)
      as (_ & _ & _ & _ & [->|(dp & -> & Hfresh)]); [exact Hc|].
    now apply consumed_append.
  - destruct (post_deliveries_challenges req env w) as [->|(t & _ & ->)];
      [exact Hc | now apply consumed_mark].
  - now rewrite get_verify_frame.
  - destruct (post_dp_register_frame dp_id public_key env w) as (_ & -> & _). exact Hc.
Qed.

(** The request is a delivery answered "verified" after being checked
    against the challenge of id [cid]. *)
Definition served_by (cid : string) (rq : request) (env : io) (w : world) : bool :=
  match rq with
  | PostDeliveries req =>
      match fst (serve rq env w), deliveries_begin req env w with
      | Verified _ _, inr t => String.eqb (challenge_id (t_challenge t)) cid
      | _, _ => false
      end
  | _ => false
  end.

(** How many requests of a run succeed against the challenge [cid]. *)
Fixpoint successes (cid : string) (rqs : list (request * io)) (w : world) : nat :=
  match rqs with
  | [] => 0
  | (rq, env) :: rest =>
      (if served_by cid rq env w then 1 else 0)
      + successes cid rest (snd (serve rq env w))
  end.

Lemma admitted_challenge req env w t :
  admitted req env w t ->
  In (t_challenge t) (challenges (store w)) /\ used (t_challenge t) = false.
Proof.
  intros (k & m & md & (_ & _ & _ & Hch & _) & _).
  apply getChallenge_open in Hch as (Hin & _ & _ & Hused). now split.
Qed.

Lemma begin_admitted req env w t :
  deliveries_begin req env w = inr t -> admitted req env w t.
Proof.
  intros Hb. destruct (checks_outcome req env w) as [(? & ? & H)|(t' & H & Hadm)];
    rewrite Hb in H; [discriminate|]. now injection H as <-.
Qed.

Lemma consumed_not_served cid rq env w :
  consumed (challenges (store w)) cid -> served_by cid rq env w = false.
Proof.
  intros [_ Hall]. destruct rq as [| |req| |]; trivial. unfold served_by.
  destruct (fst _); trivial.
  destruct (deliveries_begin req env w) as [|t] eqn:Hb; trivial.
  apply begin_admitted, admitted_challenge in Hb as [Hin Hused].
  destruct (String.eqb_spec (challenge_id (t_challenge t)) cid) as [Hid|]; trivial.
  rewrite (Hall _ Hin Hid) in Hused. discriminate.
Qed.

Lemma served_consumes cid rq env w :
  served_by cid rq env w = true ->
  consumed (challenges (store (snd (serve rq env w)))) cid.
Proof.
  destruct rq as [| |req| |]; try discriminate. unfold served_by. simpl.
  destruct (fst (post_deliveries req env w)) eqn:Hr; try discriminate.
  destruct (deliveries_begin req env w) as [|t] eqn:Hb; try discriminate.
  intros Hid. apply String.eqb_eq in Hid. subst cid.
  pose proof (begin_admitted _ _ _ _ Hb) as Hadm.
  apply admitted_challenge in Hadm as [Hin _].
  destruct (post_deliveries_cases req env w)
    as [(code & msg & He)|(t' & Hb' & _ & [(e & _ & He)|(_ & txh & w' & He & Hcase)])];
    rewrite He in Hr; try discriminate.
  rewrite Hb in Hb'. injection Hb' as <-. rewrite He. cbn [snd].
  destruct Hcase as [[_ ->]|(chain' & _ & _ & ->)]; now apply mark_consumes.
Qed.

Lemma consumed_no_successes cid rqs : forall w,
  consumed (challenges (store w)) cid -> successes cid rqs w = 0.
Proof.
  induction rqs as [|[rq env] rqs IH]; intros w Hc; simpl; trivial.
  rewrite (consumed_not_served _ _ _ _ Hc). apply IH. now apply consumed_serve.
Qed.

Lemma at_most_one_success cid rqs : forall w, successes cid rqs w <= 1.
Proof.
  induction rqs as [|[rq env] rqs IH]; intros w; simpl; [lia|].
  destruct (served_by cid rq env w) eqn:Hs.
  - rewrite (consumed_no_successes cid rqs _ (served_consumes _ _ _ _ Hs)). lia.
  - apply IH.
Qed.

End SingleUse.

Section Replay.

Context {P : Platform}.

(** Every stored challenge that carries this nonce is used. *)
Definition spent (l : list challenge) (nonce : string) : Prop :=
  forall c, In c l -> challenge_nonce c = nonce -> used c = true.

Lemma mark_keeps_nonce id c :
  challenge_nonce (if String.eqb (challenge_id c) id then set_used c else c)
  = challenge_nonce c.
Proof. now destruct (String.eqb _ _). Qed.

Lemma spent_mark l nonce id : spent l nonce -> spent (mark_in id l) nonce.
Proof.
  intros Hs c Hin Hn. apply in_map_iff in Hin as (c0 & <- & Hin0).
  rewrite mark_keeps_nonce in Hn. destruct (String.eqb _ _); [reflexivity|].
  now apply Hs.
Qed.

Lemma mark_spends l nonce cid :
  (forall c, In c l -> challenge_nonce c = nonce -> challenge_id c = cid) ->
  spent (mark_in cid l) nonce.
Proof.
  intros Honly c Hin Hn. apply in_map_iff in Hin as (c0 & <- & Hin0).
  rewrite mark_keeps_nonce in Hn. apply (Honly _ Hin0) in Hn.
  apply String.eqb_eq in Hn. now rewrite Hn.
Qed.

Lemma spent_append l nonce c :
  spent l nonce -> challenge_nonce c <> nonce -> spent (l ++ [c]) nonce.
Proof.
  intros Hs Hne c' Hin Hn. apply in_app_or in Hin as [Hin|[<-|[]]];
    [now apply Hs | contradiction].
Qed.

(** A request leaves a nonce spent unless it draws that nonce again. *)
Lemma spent_serve rq env w nonce :
  spent (challenges (store w)) nonce ->
  generateToken (random env) 8 16 <> nonce ->
  spent (challenges (store (snd (serve rq env w)))) nonce.
Proof.
  intros Hs Hne. destruct rq as [req|sid dp_id|req|id|dp_id public_key]; simpl.
  - destruct (post_sessions_frame req env w) as (-> & _). exact Hs.
  - destruct (post_challenge_frame sid dp_id env w)
      as (_ & _ & _ & _ & [->|(dp & -> & _)]); [exact Hs|].
    now apply spent_append.
  - destruct (post_deliveries_challenges req env w) as [->|(t & _ & ->)];
      [exact Hs | now apply spent_mark].
  - now rewrite get_verify_frame.
  - destruct (post_dp_register_frame dp_id public_key env w) as (_ & -> & _). exact Hs.
Qed.

(** No request of the run draws the nonce. *)
Definition never_drawn (nonce : string) (rqs : list (request * io)) : Prop :=
  Forall (fun rq => generateToken (random (snd rq)) 8 16 <> nonce) rqs.

Lemma spent_serve_all nonce rqs : forall w,
  spent (challenges (store w)) nonce -> never_drawn nonce rqs ->
  spent (challenges (store (serve_all rqs w))) nonce.
Proof.
  induction rqs as [|[rq env] rqs IH]; intros w Hs Hnd; simpl; trivial.
  inversion Hnd as [|? ? Hne Hrest]; subst. apply IH; [|exact Hrest].
  now apply spent_serve.
Qed.

(** *** Sessions and keys stay *)

Lemma find_app_found {A} (f : A -> bool) l l' x :
  List.find f l = Some x -> List.find f (l ++ l') = Some x.
Proof.
  induction l as [|y l IH]; simpl; [discriminate|].
  destruct (f y); [trivial|exact IH].
Qed.

Lemma find_map_same {A} (f : A -> bool) (g : A -> A) l x :
  (forall y, f (g y) = f y) -> List.find f l = Some x ->
  List.find f (List.map g l) = Some (g x).
Proof.
  intros Hfg. induction l as [|y l IH]; simpl; [discriminate|].
  rewrite Hfg. destruct (f y); [now intros [= ->]|exact IH].
Qed.

Lemma find_filter_app {A} (f g : A -> bool) l l' x :
  (forall y, f y = true -> g y = true) -> List.find f l = Some x ->
  List.find f (List.filter g l ++ l') = Some x.
Proof.
  intros Hfg. induction l as [|y l IH]; simpl; [discriminate|].
  destruct (f y) eqn:Hfy.
  - intros [= ->]. rewrite (Hfg _ Hfy). simpl. now rewrite Hfy.
  - intros H. destruct (g y); simpl; [rewrite Hfy|]; now apply IH.
Qed.

Lemma post_deliveries_sessions req env w sid s :
  getSession (store w) sid = Some s ->
  exists s', getSession (store (snd (post_deliveries req env w))) sid = Some s'.
Proof.
  intros Hs.
  assert (Hrec : forall t, exists s',
             getSession (recorded (store w) t env) sid = Some s').
  { intros t. eexists. unfold getSession, recorded, updateSessionStatus.
    cbn [sessions with_sessions with_events markChallengeUsed with_challenges].
    apply find_map_same; [|exact Hs]. intros y.
    destruct (String.eqb (session_id y) (sql_text (t_session_id t))); reflexivity. }
  destruct (post_deliveries_cases req env w)
    as [(code & msg & ->)|(t & _ & _ & [(e & _ & ->)|(_ & txHash & w' & -> & Hcase)])];
    cbn [snd]; eauto.
  destruct Hcase as [[_ ->]|(chain' & _ & _ & ->)]; apply Hrec.
Qed.

Lemma post_deliveries_keys req env w :
  dp_keys (store (snd (post_deliveries req env w))) = dp_keys (store w).
Proof.
  destruct (post_deliveries_cases req env w)
    as [(code & msg & ->)|(t & _ & _ & [(e & _ & ->)|(_ & txHash & w' & -> & Hcase)])];
    cbn [snd]; trivial.
  destruct Hcase as [[_ ->]|(chain' & _ & _ & ->)]; reflexivity.
Qed.

Lemma getSession_serve rq env w sid s :
  getSession (store w) sid = Some s ->
  exists s', getSession (store (snd (serve rq env w))) sid = Some s'.
Proof.
  intros Hs. destruct rq as [req|sid' dp_id|req|id|dp_id public_key]; simpl.
  - destruct (post_sessions_frame req env w)
      as (_ & _ & _ & _ & [He|(customer_id & order_id & He & _)]);
      unfold getSession in *; rewrite He; eauto using find_app_found.
  - destruct (post_challenge_frame sid' dp_id env w) as (He & _).
    unfold getSession in *. rewrite He. eauto.
  - now apply post_deliveries_sessions with (s := s).
  - rewrite get_verify_frame. eauto.
  - destruct (post_dp_register_frame dp_id public_key env w) as (He & _).
    unfold getSession in *. rewrite He. eauto.
Qed.

Lemma getDPKey_serve rq env w dp k :
  getDPKey (store w) dp = Some k ->
  getDPKey (store (snd (serve rq env w))) dp = Some k.
Proof.
  intros Hk. destruct rq as [req|sid dp_id|req|id|dp_id public_key]; simpl.
  - destruct (post_sessions_frame req env w) as (_ & _ & He & _).
    unfold getDPKey in *. now rewrite He.
  - destruct (post_challenge_frame sid dp_id env w) as (_ & _ & He & _).
    unfold getDPKey in *. now rewrite He.
  - unfold getDPKey in *. now rewrite post_deliveries_keys.
  - now rewrite get_verify_frame.
  - destruct (post_dp_register_frame dp_id public_key env w)
      as (_ & _ & _ & _ & [->|(id & key & Hnone & ->)]); [exact Hk|].
    assert (Hne : dp <> id) by (intros ->; congruence).
    unfold getDPKey, registerDPKey in *. cbn [dp_keys with_keys].
    apply find_filter_app; [|exact Hk].
    intros y Hy. apply andb_prop in Hy as [Hid _]. apply String.eqb_eq in Hid.
    apply negb_true_iff, String.eqb_neq. congruence.
Qed.

Lemma getSession_serve_all rqs sid : forall w s,
  getSession (store w) sid = Some s ->
  exists s', getSession (store (serve_all rqs w)) sid = Some s'.
Proof.
  induction rqs as [|[rq env] rqs IH]; intros w s Hs; simpl; eauto.
  destruct (getSession_serve rq env w sid s Hs) as (s' & Hs'). eauto.
Qed.

Lemma getDPKey_serve_all rqs dp k : forall w,
  getDPKey (store w) dp = Some k -> getDPKey (store (serve_all rqs w)) dp = Some k.
Proof.
  induction rqs as [|[rq env] rqs IH]; intros w Hk; simpl; trivial.
  apply IH. now apply getDPKey_serve.
Qed.

(** *** A proof that presents a spent nonce *)

(** The three answers of the challenge step. *)
Definition challenge_failure (msg : string) : Prop :=
  msg = "No active challenge found" \/ msg = "Challenge expired"
  \/ msg = "Message data mismatch".

Lemma spent_nonce_rejected req env w sid dp session dpKey message signature
    messageData nonce :
  present (dr_session_id req) = Some sid ->
  present (dr_dp_id req) = Some dp ->
  getSession (store w) (sql_text sid) = Some session ->
  getDPKey (store w) (sql_text dp) = Some dpKey ->
  carries req (Some (JStr message)) (Some (JStr signature)) ->
  signed_by dpKey message signature ->
  consistent message sid nonce messageData ->
  spent (challenges (store w)) nonce ->
  exists msg,
    post_deliveries req env w = (Error 400 msg, w) /\ challenge_failure msg.
Proof.
  intros Hs Hd Hsess Hkey (blob & text & signedData & Hb & Htext & Hparse & Hm & Hsig)
    Hvalid (Hmsg & Hsid & Hsame & Hn) Hspent.
  unfold post_deliveries, handle, post_deliveries_body, bind.
  open_checks. rewrite Hs, Hd, Hb. simpl. rewrite Hsess.
  destruct (getChallenge (store w) (sql_text sid) (sql_text dp)) as [c|] eqn:Hch.
  2:{ eexists. split; [reflexivity|]. now left. }
  destruct (c_expires_at c <? clock env 0)%Z.
  { eexists. split; [reflexivity|]. right. now left. }
  rewrite Hkey, Htext, Hparse, Hm, Hsig. unfold signed_by in Hvalid. rewrite Hvalid.
  simpl. rewrite Hmsg, Hsid, Hn. rewrite Hsame. simpl.
  apply getChallenge_open in Hch as (Hin & _ & _ & Hused).
  destruct (String.eqb_spec nonce (challenge_nonce c)) as [Heq|Hne].
  - symmetry in Heq. rewrite (Hspent c Hin Heq) in Hused. discriminate.
  - simpl. eexists. split; [reflexivity|]. right. now right.
Qed.

End Replay.

Section OneChallengeOneDelivery.

Context {P : Platform}.

(** Served one after the other, requests never succeed twice against one
    challenge.  A delivery answered "verified" marks the challenge it was
    checked against, and only rows of that id; no later request succeeds
    against it; and, when no other stored challenge carries its nonce and
    none of the later requests draws that nonce again, the same proof sent
    again is refused at the challenge step. *)
Theorem challenge_single_use_in_sequence w req env evt txHash w1 t :
  post_deliveries req env w = (Verified evt txHash, w1) ->
  deliveries_begin req env w = inr t ->
  challenges (store w1) = mark_in (challenge_id (t_challenge t)) (challenges (store w))
  /\ (forall cid rqs w0, successes cid rqs w0 <= 1)
  /\ (forall rqs, successes (challenge_id (t_challenge t)) rqs w1 = 0)
  /\ ((forall c, In c (challenges (store w)) ->
                 challenge_nonce c = challenge_nonce (t_challenge t) ->
                 challenge_id c = challenge_id (t_challenge t)) ->
      forall rqs env2,
        never_drawn (challenge_nonce (t_challenge t)) rqs ->
        exists msg,
          post_deliveries req env2 (serve_all rqs w1)
            = (Error 400 msg, serve_all rqs w1)
          /\ challenge_failure msg).
Proof.
  intros Hr Hb.
  pose proof (begin_admitted _ _ _ _ Hb) as Hadm.
  pose proof (admitted_challenge _ _ _ _ Hadm) as [Hin _].
  assert (Hch : challenges (store w1)
                = mark_in (challenge_id (t_challenge t)) (challenges (store w))).
  { destruct (post_deliveries_cases req env w)
      as [(code & msg & He)|(t' & Hb' & _ & [(e & _ & He)|(_ & txh & w' & He & Hcase)])];
      rewrite He in Hr; try discriminate.
    rewrite Hb in Hb'. injection Hb' as <-. injection Hr as _ _ <-.
    destruct Hcase as [[_ ->]|(chain' & _ & _ & ->)]; reflexivity. }
  split; [exact Hch|]. split; [intros; apply at_most_one_success|].
  split.
  { intros rqs. apply consumed_no_successes. rewrite Hch. now apply mark_consumes. }
  intros Honly rqs env2 Hnd.
  destruct Hadm as (k & message & md & (Hs & Hd & Hsess & _ & _ & Hkey) & Hcar & Hsig
                    & Hcons & _).
  assert (Hw1 : w1 = snd (post_deliveries req env w)) by now rewrite Hr.
  destruct (getSession_serve_all ((PostDeliveries req, env) :: rqs) _ w _ Hsess)
    as (s' & Hs').
  pose proof (getDPKey_serve_all ((PostDeliveries req, env) :: rqs) _ _ w Hkey) as Hk'.
  cbn [serve_all serve] in Hs', Hk'. rewrite <- Hw1 in Hs', Hk'.
  apply (spent_nonce_rejected req env2 (serve_all rqs w1) (t_session_id t)
           (t_dp_id t) s' k message (t_signature t) md
           (challenge_nonce (t_challenge t))); trivial.
  apply spent_serve_all; [|exact Hnd]. rewrite Hch. now apply mark_spends.
Qed.

Lemma find_map_none {A} (f : A -> bool) (g : A -> A) l :
  (forall y, f (g y) = f y) -> List.find f l = None ->
  List.find f (List.map g l) = None.
Proof.
  intros Hfg. induction l as [|y l IH]; simpl; trivial.
  rewrite Hfg. destruct (f y); [discriminate|exact IH].
Qed.

Lemma find_app_none {A} (f : A -> bool) l x :
  List.find f l = None -> f x = false -> List.find f (l ++ [x]) = None.
Proof.
  induction l as [|y l IH]; simpl; intros Hl Hx; [now rewrite Hx|].
  destruct (f y); [discriminate|now apply IH].
Qed.

Lemma set_anchor_keeps_id id' h txh time e id :
  String.eqb
    (event_id (if String.eqb (event_id e) id' then set_anchor h txh time e else e)) id
  = String.eqb (event_id e) id.
Proof. now destruct (String.eqb (event_id e) id'). Qed.

(** The second half of one delivery leaves other event ids free. *)
Lemma end_keeps_fresh t env w id :
  getDeliveryEvent (store w) id = None ->
  event_id (eventData_of t env) <> id ->
  getDeliveryEvent (store (snd (deliveries_end t env w))) id = None.
Proof.
  intros Hfree Hne.
  assert (Hrec : getDeliveryEvent (recorded (store w) t env) id = None).
  { unfold getDeliveryEvent, recorded, updateSessionStatus.
    cbn [delivery_events with_events with_sessions].
    apply find_app_none; [exact Hfree|]. now apply String.eqb_neq. }
  destruct (getDeliveryEvent (store w) (event_id (eventData_of t env))) as [e|] eqn:He.
  - rewrite (end_conflict t env w e He). exact Hfree.
  - destruct (commit_verified t env w He) as (txh & w' & Hc & Hcase).
    unfold deliveries_end, handle. rewrite Hc. cbn [snd].
    destruct Hcase as [[_ ->]|(chain' & _ & _ & ->)]; [exact Hrec|].
    unfold getDeliveryEvent, updateEventAnchor. cbn [delivery_events with_events].
    apply find_map_none; [|exact Hrec]. intros y. apply set_anchor_keeps_id.
Qed.

Lemma minted_map d t env (g : delivery_event -> delivery_event) :
  (forall e, unanchored (g e) = unanchored e) ->
  minted d t env -> minted (with_events d (List.map g (delivery_events d))) t env.
Proof.
  intros Hg (e & Hin & He). exists (g e). split; [now apply in_map|].
  now rewrite Hg.
Qed.

(** The second half of one delivery keeps the events minted before it. *)
Lemma end_keeps_minted t env w t0 env0 :
  minted (store w) t0 env0 -> minted (store (snd (deliveries_end t env w))) t0 env0.
Proof.
  intros Hm.
  assert (Hrec : minted (recorded (store w) t env) t0 env0).
  { destruct Hm as (e & Hin & He). exists e. split; [|exact He].
    unfold recorded, updateSessionStatus. cbn [delivery_events with_events with_sessions].
    apply in_or_app. now left. }
  destruct (getDeliveryEvent (store w) (event_id (eventData_of t env))) as [e|] eqn:He.
  - rewrite (end_conflict t env w e He). exact Hm.
  - destruct (commit_verified t env w He) as (txh & w' & Hc & Hcase).
    unfold deliveries_end, handle. rewrite Hc. cbn [snd].
    destruct Hcase as [[_ ->]|(chain' & _ & _ & ->)]; [exact Hrec|].
    apply minted_map; [|exact Hrec]. intros y.
    destruct (String.eqb (event_id y) _); reflexivity.
Qed.

(** C3 on the code: two deliveries that overlap, each passing its checks
    against the same challenge before the other writes, are both answered
    "verified", and the events of both are stored. *)
Theorem overlapping_deliveries_both_succeed w req1 env1 req2 env2 t1 t2 :
  deliveries_begin req1 env1 w = inr t1 ->
  deliveries_begin req2 env2 w = inr t2 ->
  challenge_id (t_challenge t1) = challenge_id (t_challenge t2) ->
  getDeliveryEvent (store w) (event_id (eventData_of t1 env1)) = None ->
  getDeliveryEvent (store w) (event_id (eventData_of t2 env2)) = None ->
  event_id (eventData_of t1 env1) <> event_id (eventData_of t2 env2) ->
  exists tx1 tx2 w2,
    overlapped req1 env1 req2 env2 w
      = (Verified (event_id (eventData_of t1 env1)) tx1,
         Verified (event_id (eventData_of t2 env2)) tx2, w2)
    /\ minted (store w2) t1 env1
    /\ minted (store w2) t2 env2.
Proof.
  intros Hb1 Hb2 _ Hf1 Hf2 Hne. unfold overlapped, resume. rewrite Hb1, Hb2.
  destruct (end_verified t1 env1 w Hf1) as (tx1 & w1 & He1 & Hm1 & _).
  assert (Hf2' : getDeliveryEvent (store w1) (event_id (eventData_of t2 env2)) = None).
  { replace w1 with (snd (deliveries_end t1 env1 w)) by now rewrite He1.
    now apply end_keeps_fresh. }
  destruct (end_verified t2 env2 w1 Hf2') as (tx2 & w2 & He2 & Hm2 & _).
  exists tx1, tx2, w2. rewrite He1. cbn [fst snd]. rewrite He2. cbn [fst snd].
  split; [reflexivity|]. split; [|exact Hm2].
  replace w2 with (snd (deliveries_end t2 env2 w1)) by now rewrite He2.
  now apply end_keeps_minted.
Qed.

End OneChallengeOneDelivery.

(** *** The proof of the examples, sent twice *)

Definition the_ticket : ticket :=
  {| t_session_id := JStr Scenario.sid; t_dp_id := JStr Scenario.dp;
     t_session := ScenarioFacts.the_session 302000;
     t_challenge := ScenarioFacts.the_challenge 3000;
     t_signature := ScenarioFacts.signature Scenario.right_hash;
     t_evidence_hashes := JArr [JStr "sha256:aa"] |}.

Definition accepted : world :=
  snd (post_deliveries (P := Demo.platform) (Scenario.proof Scenario.right_hash)
         (Demo.env "d" 4000) (Scenario.issued 300 3000 None)).

Lemma begins_at_4000 b :
  deliveries_begin (P := Demo.platform) (Scenario.proof Scenario.right_hash)
    (Demo.env b 4000) (Scenario.issued 300 3000 None) = inr the_ticket.
Proof. by_running. Qed.

Lemma accepted_at_4000 :
  post_deliveries (P := Demo.platform) (Scenario.proof Scenario.right_hash)
    (Demo.env "d" 4000) (Scenario.issued 300 3000 None)
  = (Verified "evt_6464646464646464" None, accepted).
Proof. by_running. Qed.

Lemma only_challenge_of_its_nonce c :
  In c (challenges (store (Scenario.issued 300 3000 None))) ->
  challenge_nonce c = challenge_nonce (t_challenge the_ticket) ->
  challenge_id c = challenge_id (t_challenge the_ticket).
Proof. intros Hin _. vm_compute in Hin. now destruct Hin as [<-|[]]. Qed.

(** A second challenge is asked at 5000 and the accepted proof is sent
    again at 6000. *)
Lemma challenge_single_use_in_sequence_witness :
  let later := [(PostChallenge Scenario.sid (Some Scenario.dp), Demo.env "f" 5000)] in
  exists msg,
    post_deliveries (P := Demo.platform) (Scenario.proof Scenario.right_hash)
      (Demo.env "g" 6000) (serve_all (P := Demo.platform) later accepted)
    = (Error 400 msg, serve_all (P := Demo.platform) later accepted)
    /\ challenge_failure msg.
Proof.
  intros later.
  pose proof (challenge_single_use_in_sequence (P := Demo.platform) _ _ _ _ _ _ _
                accepted_at_4000 (begins_at_4000 "d")) as (_ & _ & _ & Hreplay).
  apply (Hreplay only_challenge_of_its_nonce later (Demo.env "g" 6000)).
  constructor; [|constructor]. intros H. vm_compute in H. discriminate.
Defined.

(** The same proof in two requests that overlap at 4000; served one after
    the other, the second of them is refused. *)
Lemma overlapping_deliveries_both_succeed_witness :
  (exists tx1 tx2 w2,
     overlapped (P := Demo.platform)
       (Scenario.proof Scenario.right_hash) (Demo.env "d" 4000)
       (Scenario.proof Scenario.right_hash) (Demo.env "e" 4000)
       (Scenario.issued 300 3000 None)
     = (Verified "evt_6464646464646464" tx1, Verified "evt_6565656565656565" tx2, w2)
     /\ minted (P := Demo.platform) (store w2) the_ticket (Demo.env "d" 4000)
     /\ minted (P := Demo.platform) (store w2) the_ticket (Demo.env "e" 4000))
  /\ fst (post_deliveries (P := Demo.platform) (Scenario.proof Scenario.right_hash)
            (Demo.env "e" 4000) accepted)
     = Error 400 "No active challenge found".
Proof.
  split; [|by_running].
  assert (Hne : event_id (eventData_of (P := Demo.platform) the_ticket (Demo.env "d" 4000))
                <> event_id (eventData_of (P := Demo.platform) the_ticket (Demo.env "e" 4000)))
    by (intros H; vm_compute in H; discriminate).
  exact (overlapping_deliveries_both_succeed (P := Demo.platform)
           (Scenario.issued 300 3000 None)
           (Scenario.proof Scenario.right_hash) (Demo.env "d" 4000)
           (Scenario.proof Scenario.right_hash) (Demo.env "e" 4000)
           the_ticket the_ticket (begins_at_4000 "d") (begins_at_4000 "e")
           eq_refl eq_refl eq_refl Hne).
Defined.

(* ===================================================================== *)
(** * Further properties *)
(* ===================================================================== *)

(** ** The registry over the life of a chain *)

Section RegistryHistory.

Import AnchorRegistry.

(** The chain after more transactions. *)
Definition chain_from (st : state) (txs : list (tx_env * call)) : state :=
  fold_left (fun st tx => fst (transact st tx)) txs st.

(** [later] holds every anchor and every log entry of [st], in place. *)
Definition extends (st later : state) : Prop :=
  (forall h, isAnchored st h = true -> isAnchored later h = true)
  /\ (forall h, isAnchored st h = true -> records_of later h = records_of st h)
  /\ exists added, logs later = logs st ++ added.

Lemma extends_refl st : extends st st.
Proof.
  split; [trivial|]. split; [trivial|]. exists []. now rewrite app_nil_r.
Qed.

Lemma extends_trans st1 st2 st3 : extends st1 st2 -> extends st2 st3 -> extends st1 st3.
Proof.
  intros (Ha & Hr & l & Hl) (Ha' & Hr' & l' & Hl'). split; [auto|]. split.
  - intros h Hh. rewrite (Hr' h (Ha h Hh)). now apply Hr.
  - exists (l ++ l'). now rewrite Hl', Hl, app_assoc.
Qed.

Lemma extends_anchor st env h id :
  isAnchored st h = false ->
  extends st (emit (set_anchored st h)
                {| log_anchorHash := h; log_actor := msg_sender env;
                   log_timestamp := block_timestamp env; log_eventId := id |}).
Proof.
  intros Hfree. split; [|split].
  - intros h' Hh'. rewrite isAnchored_emit, isAnchored_set.
    now destruct (N.eqb h h').
  - intros h' Hh'. rewrite records_emit. simpl.
    destruct (N.eqb_spec h h') as [<-|Hne]; [congruence|].
    change (records_of (set_anchored st h) h') with (records_of st h').
    now rewrite app_nil_r.
  - eexists. reflexivity.
Qed.

Lemma extends_batch env hs : forall ids st,
  extends st (storeAnchorBatch_loop env hs ids st).
Proof.
  induction hs as [|h hs IH]; intros [|id ids] st; simpl; try apply extends_refl.
  destruct (isAnchored st h) eqn:Hh; [apply IH|].
  eapply extends_trans; [apply (extends_anchor st env h id Hh)|apply IH].
Qed.

Lemma extends_transact st tx : extends st (fst (transact st tx)).
Proof.
  destruct tx as [env [h id|hs ids]]; unfold transact; simpl.
  - unfold storeAnchor. destruct (isAnchored st h) eqn:Hh; simpl;
      [apply extends_refl | now apply extends_anchor].
  - unfold storeAnchorBatch. destruct (Nat.eqb _ _); simpl;
      [apply extends_batch | apply extends_refl].
Qed.

Lemma extends_chain txs : forall st, extends st (chain_from st txs).
Proof.
  induction txs as [|tx txs IH]; intros st; simpl; [apply extends_refl|].
  eapply extends_trans; [apply extends_transact|apply IH].
Qed.

(** On every chain a hash has exactly one [AnchorStored] entry when the
    mapping holds it and none when it does not, whatever mix of single and
    batch submissions, repeated hashes and reverted calls led there. *)
Theorem ledger_has_one_record_per_anchored_hash txs h :
  let st := chain_after txs in
  (isAnchored st h = true /\ exists e, records_of st h = [e] /\ log_anchorHash e = h)
  \/ (isAnchored st h = false /\ records_of st h = []).
Proof.
  cbv zeta. pose proof (one_record_chain txs h) as Hone.
  destruct (isAnchored (chain_after txs) h) eqn:Hh; [left|right]; split; trivial.
  - destruct (records_of (chain_after txs) h) as [|e [|e' l]] eqn:Hr; try discriminate.
    exists e. split; [reflexivity|].
    assert (Hin : In e (records_of (chain_after txs) h)) by (rewrite Hr; now left).
    apply filter_In in Hin as [_ He]. now apply N.eqb_eq in He.
  - now destruct (records_of (chain_after txs) h).
Qed.

(** An anchor is permanent and its record is never altered: after any
    further transactions the hash is still anchored, its ledger records are
    the ones it had, and the log has only grown at its end. *)
Theorem anchor_is_permanent st h txs :
  isAnchored st h = true ->
  isAnchored (chain_from st txs) h = true
  /\ records_of (chain_from st txs) h = records_of st h
  /\ exists added, logs (chain_from st txs) = logs st ++ added.
Proof.
  intros Hh. destruct (extends_chain txs st) as (Ha & Hr & Hl). auto.
Qed.

(** A batch is its pairs submitted one at a time through [storeAnchor],
    reverts ignored. *)
Definition one_by_one (env : tx_env) (hs : list bytes32) (ids : list string)
    : list (tx_env * call) :=
  List.map (fun p => (env, StoreAnchor (fst p) (snd p))) (combine hs ids).

Lemma batch_one_by_one env hs : forall ids st,
  storeAnchorBatch_loop env hs ids st = chain_from st (one_by_one env hs ids).
Proof.
  induction hs as [|h hs IH]; intros [|id ids] st; simpl; trivial.
  rewrite IH. f_equal. unfold transact. simpl. unfold storeAnchor.
  now destruct (isAnchored st h).
Qed.

Lemma isAnchored_batch env hs : forall ids st h,
  List.length hs = List.length ids ->
  isAnchored (storeAnchorBatch_loop env hs ids st) h
  = isAnchored st h || existsb (N.eqb h) hs.
Proof.
  induction hs as [|h0 hs IH]; intros [|id ids] st h Hlen; simpl in *;
    try discriminate; [now rewrite orb_false_r|].
  injection Hlen as Hlen. rewrite (IH ids _ h Hlen).
  destruct (isAnchored st h0) eqn:Hh0.
  - destruct (N.eqb_spec h h0) as [->|Hne]; [rewrite Hh0|]; reflexivity.
  - rewrite isAnchored_emit, isAnchored_set. rewrite (N.eqb_sym h0 h).
    destruct (N.eqb h h0); simpl; [now rewrite orb_true_r|reflexivity].
Qed.

Lemma batch_settled env hs : forall ids st,
  (forall h, In h hs -> isAnchored st h = true) ->
  storeAnchorBatch_loop env hs ids st = st.
Proof.
  induction hs as [|h hs IH]; intros [|id ids] st Hall; simpl; trivial.
  rewrite (Hall h) by now left. apply IH. intros h' Hin. apply Hall. now right.
Qed.

(** [storeAnchorBatch] on arrays of different lengths reverts with "Array
    length mismatch" and changes nothing.  On arrays of one length it never
    reverts: it leaves the chain that submitting the pairs one at a time
    through [storeAnchor] would leave, where a hash is anchored exactly when
    it was before or is listed, and a second run of the same batch changes
    nothing. *)
Theorem storeAnchorBatch_is_storeAnchor_in_turn env hs ids st :
  (List.length hs <> List.length ids ->
   transact st (env, StoreAnchorBatch hs ids) = (st, Some "Array length mismatch"))
  /\ (List.length hs = List.length ids ->
      let st' := chain_from st (one_by_one env hs ids) in
      transact st (env, StoreAnchorBatch hs ids) = (st', None)
      /\ (forall h, isAnchored st' h = isAnchored st h || existsb (N.eqb h) hs)
      /\ forall env2 ids2,
           List.length ids2 = List.length hs ->
           transact st' (env2, StoreAnchorBatch hs ids2) = (st', None)).
Proof.
  split.
  - intros Hne. unfold transact; simpl; unfold storeAnchorBatch.
    apply Nat.eqb_neq in Hne. now rewrite Hne.
  - intros Hlen. cbv zeta. rewrite <- batch_one_by_one.
    split; [|split].
    + unfold transact; simpl; unfold storeAnchorBatch.
      apply Nat.eqb_eq in Hlen. now rewrite Hlen.
    + intros h. now apply isAnchored_batch.
    + intros env2 ids2 Hlen2. unfold transact; simpl; unfold storeAnchorBatch.
      symmetry in Hlen2. apply Nat.eqb_eq in Hlen2. rewrite Hlen2. simpl.
      rewrite batch_settled; [reflexivity|].
      intros h Hin. rewrite isAnchored_batch by assumption.
      apply orb_true_iff. right. apply existsb_exists. exists h.
      split; [assumption|apply N.eqb_refl].
Qed.

End RegistryHistory.

Lemma anchor_is_permanent_witness :
  let env := {| AnchorRegistry.msg_sender := 1; AnchorRegistry.block_timestamp := 10 |} in
  let st := AnchorRegistry.chain_after [(env, AnchorRegistry.StoreAnchor 7 "evt_1")] in
  let later := chain_from st [(env, AnchorRegistry.StoreAnchor 7 "evt_2");
                              (env, AnchorRegistry.StoreAnchorBatch [7%N; 8%N] ["a"; "b"])] in
  AnchorRegistry.isAnchored later 7 = true
  /\ AnchorRegistry.records_of later 7 = AnchorRegistry.records_of st 7.
Proof.
  intros env st later.
  destruct (anchor_is_permanent st 7
              [(env, AnchorRegistry.StoreAnchor 7 "evt_2");
               (env, AnchorRegistry.StoreAnchorBatch [7%N; 8%N] ["a"; "b"])] eq_refl)
    as (Ha & Hr & _).
  split; [exact Ha|exact Hr].
Defined.

Lemma storeAnchorBatch_is_storeAnchor_in_turn_witness :
  let env := {| AnchorRegistry.msg_sender := 1; AnchorRegistry.block_timestamp := 10 |} in
  AnchorRegistry.transact AnchorRegistry.genesis
    (env, AnchorRegistry.StoreAnchorBatch [7%N; 8%N; 7%N] ["a"; "b"])
  = (AnchorRegistry.genesis, Some "Array length mismatch")
  /\ AnchorRegistry.transact AnchorRegistry.genesis
       (env, AnchorRegistry.StoreAnchorBatch [7%N; 8%N; 7%N] ["a"; "b"; "c"])
     = (chain_from AnchorRegistry.genesis (one_by_one env [7%N; 8%N; 7%N] ["a"; "b"; "c"]),
        None).
Proof.
  intros env.
  destruct (storeAnchorBatch_is_storeAnchor_in_turn env [7%N; 8%N; 7%N] ["a"; "b"]
              AnchorRegistry.genesis) as [Hbad _].
  destruct (storeAnchorBatch_is_storeAnchor_in_turn env [7%N; 8%N; 7%N] ["a"; "b"; "c"]
              AnchorRegistry.genesis) as [_ Hgood].
  split; [apply Hbad; discriminate|].
  destruct (Hgood eq_refl) as (Hrun & _). exact Hrun.
Defined.

(** ** Every way a request can end *)

Section Outcomes.

Context {P : Platform}.

(** Activation: a 400 that writes nothing, a 500 that writes nothing (the
    drawn session id is taken), or the insertion of the session, answered
    with the session or, when its expiry cannot be written as a date, with
    a 500. *)
Lemma post_sessions_cases req env w :
  ((given (sr_customer_id req) = None \/ given (sr_order_id req) = None)
   /\ post_sessions req env w = (Error 400 "customer_id and order_id required", w))
  \/ (getSession (store w) (generateId (random env) 0 "s") <> None
      /\ post_sessions req env w = (Error 500 "Internal server error", w))
  \/ exists customer_id order_id,
       let s := activated req env customer_id order_id in
       given (sr_customer_id req) = Some customer_id
       /\ given (sr_order_id req) = Some order_id
       /\ getSession (store w) (session_id s) = None
       /\ snd (post_sessions req env w)
          = with_store w (with_sessions (store w) (sessions (store w) ++ [s]))
       /\ ((toISOString (s_expires_at s) = None
            /\ fst (post_sessions req env w) = Error 500 "Internal server error")
           \/ exists iso,
                toISOString (s_expires_at s) = Some iso
                /\ fst (post_sessions req env w)
                   = SessionCreated (session_id s) (ephemeral_token s) "BLE" iso
                       (default 300%Z (sr_ttl_seconds req))).
Proof.
  unfold post_sessions, handle, post_sessions_body.
  destruct (given (sr_customer_id req)) as [customer_id|] eqn:Hc;
    [|left; split; [now left|reflexivity]].
  destruct (given (sr_order_id req)) as [order_id|] eqn:Ho;
    [|left; split; [now right|reflexivity]].
  right. unfold bind, insert, createSession.
  destruct (getSession (store w) (generateId (random env) 0 "s")) eqn:Hfresh.
  { left. split; [discriminate|reflexivity]. }
  right. exists customer_id, order_id. cbv zeta.
  unfold activated at 1. cbn [session_id]. repeat (split; [reflexivity || assumption|]).
  unfold activated. cbn [s_expires_at session_id ephemeral_token].
  destruct (toISOString _) as [iso|] eqn:Hiso; cbn [fst snd].
  - split; [reflexivity|]. right. exists iso. now split.
  - split; [reflexivity|]. left. now split.
Qed.

(** Issuance: one of five refusals that write nothing, a 500 that writes
    nothing (the drawn challenge id is taken), or the insertion of the
    challenge for a stored, unexpired, active session and a registered
    partner. *)
Lemma post_challenge_cases sid dp_id env w :
  (exists code msg,
     (code = 400 \/ code = 403 \/ code = 404)%Z
     /\ post_challenge sid dp_id env w = (Error code msg, w))
  \/ (challenge_by_id (store w) (generateId (random env) 0 "ch") <> None
      /\ post_challenge sid dp_id env w = (Error 500 "Internal server error", w))
  \/ exists dp session dpKey,
       let c := issued_challenge sid dp env in
       given dp_id = Some dp
       /\ getSession (store w) sid = Some session
       /\ (s_expires_at session <? clock env 0)%Z = false
       /\ s_status session = "active"
       /\ getDPKey (store w) dp = Some dpKey
       /\ challenge_by_id (store w) (challenge_id c) = None
       /\ snd (post_challenge sid dp_id env w)
          = with_store w (with_challenges (store w) (challenges (store w) ++ [c]))
       /\ ((toISOString (c_expires_at c) = None
            /\ fst (post_challenge sid dp_id env w) = Error 500 "Internal server error")
           \/ exists iso,
                toISOString (c_expires_at c) = Some iso
                /\ fst (post_challenge sid dp_id env w)
                   = ChallengeIssued (challenge_nonce c) iso).
Proof.
  unfold post_challenge, handle, post_challenge_body.
  destruct (given dp_id) as [dp|] eqn:Hdp;
    [|left; exists 400%Z; eexists; split; [now left|reflexivity]].
  unfold bind, query.
  destruct (getSession (store w) sid) as [session|] eqn:Hs;
    [|left; exists 404%Z; eexists; split; [now right; right|reflexivity]].
  destruct (s_expires_at session <? clock env 0)%Z eqn:Hexp;
    [left; exists 400%Z; eexists; split; [now left|reflexivity]|].
  destruct (String.eqb_spec (s_status session) "active") as [Hact|Hact]; cbn [negb];
    [|left; exists 400%Z; eexists; split; [now left|reflexivity]].
  destruct (getDPKey (store w) dp) as [dpKey|] eqn:Hkey;
    [|left; exists 403%Z; eexists; split; [now right; left|reflexivity]].
  right. unfold insert, createChallenge.
  destruct (challenge_by_id (store w) (generateId (random env) 0 "ch")) eqn:Hfresh.
  { left. split; [discriminate|reflexivity]. }
  right. exists dp, session, dpKey. cbv zeta.
  unfold issued_challenge at 1. cbn [challenge_id].
  repeat (split; [reflexivity || assumption|]).
  unfold issued_challenge. cbn [c_expires_at challenge_nonce].
  destruct (toISOString _) as [iso|] eqn:Hiso; cbn [fst snd].
  - split; [reflexivity|]. right. exists iso. now split.
  - split; [reflexivity|]. left. now split.
Qed.

(** The key is what the handler stores for a partner it registers. *)
Definition registered_key (id key : string) (env : io) : dp_key :=
  {| dp_id := id; public_key := str_trim key; key_type := "secp256k1";
     registered_at := clock env 0; k_status := "active" |}.

(** The arguments pass every test of the registration handler. *)
Definition registrable (dp_id public_key : jsval) (id key : string) : Prop :=
  dp_id = Some (JStr id) /\ public_key = Some (JStr key)
  /\ all_chars is_id_char id = true
  /\ 1 <= String.length id <= 128
  /\ all_chars is_hex_char (str_trim key) = true
  /\ String.length (str_trim key) = 130
  /\ ec_keyFromPublic (str_trim key) = true.

(** Registration: a 400 or a 409 that writes nothing, or the insertion of
    the key for an id that has no active key. *)
Lemma post_dp_register_cases dp_id public_key env w :
  (exists code msg,
     (code = 400 \/ code = 409)%Z
     /\ post_dp_register dp_id public_key env w = (Error code msg, w))
  \/ exists id key,
       registrable dp_id public_key id key
       /\ getDPKey (store w) id = None
       /\ post_dp_register dp_id public_key env w
          = (Registered id,
             with_store w (registerDPKey (store w) id (str_trim key) (clock env 0))).
Proof.
  unfold post_dp_register, register_handle, post_dp_register_body, register_commit,
    bind, register_checks.
  destruct (string_arg dp_id) as [id|] eqn:Hid;
    [|left; exists 400%Z; eexists; split; [now left|reflexivity]].
  destruct (blank id);
    [left; exists 400%Z; eexists; split; [now left|reflexivity]|].
  destruct (string_arg public_key) as [key|] eqn:Hkey;
    [|left; exists 400%Z; eexists; split; [now left|reflexivity]].
  destruct (blank key);
    [left; exists 400%Z; eexists; split; [now left|reflexivity]|].
  destruct (all_chars is_id_char id && Nat.leb 1 (String.length id)
            && Nat.leb (String.length id) 128) eqn:Hfmt; cbn [negb];
    [|left; exists 400%Z; eexists; split; [now left|reflexivity]].
  destruct (all_chars is_hex_char (str_trim key)
            && Nat.eqb (String.length (str_trim key)) 130) eqn:Hhex; cbn [negb];
    [|left; exists 400%Z; eexists; split; [now left|reflexivity]].
  destruct (ec_keyFromPublic (str_trim key)) eqn:Hec; cbn [negb];
    [|left; exists 400%Z; eexists; split; [now left|reflexivity]].
  unfold bind, query.
  destruct (getDPKey (store w) id) eqn:Hnone;
    [left; exists 409%Z; eexists; split; [now right|reflexivity]|].
  right. exists id, key. split; [|split; [exact Hnone|reflexivity]].
  apply string_arg_some in Hid, Hkey.
  apply andb_prop in Hfmt as [Hfmt Hmax]. apply andb_prop in Hfmt as [Hchars Hmin].
  apply andb_prop in Hhex as [Hhex Hlen].
  apply Nat.leb_le in Hmin, Hmax. apply Nat.eqb_eq in Hlen.
  repeat split; assumption.
Qed.

End Outcomes.

Section DeliveryOutcomes.

Context {P : Platform}.

(** The log entry [storeAnchor] emits for the server's transaction. *)
Definition anchor_record (env : io) (n : N) (id : string) : AnchorRegistry.AnchorStored :=
  {| AnchorRegistry.log_anchorHash := n;
     AnchorRegistry.log_actor := AnchorRegistry.msg_sender (tx env);
     AnchorRegistry.log_timestamp := AnchorRegistry.block_timestamp (tx env);
     AnchorRegistry.log_eventId := id |}.

(** The world after the transaction of an event is on the chain and its
    confirmation failed: the hash on the chain, the store as it was. *)
Definition sent_world (w : world) (t : ticket) (env : io)
    (chain : AnchorRegistry.state) (n : N) : world :=
  {| store := store w;
     contract := Some (AnchorRegistry.emit (AnchorRegistry.set_anchored chain n)
                         (anchor_record env n (event_id (eventData_of t env)))) |}.

(** The world after an event was anchored: the reference on the event, the
    hash on the chain. *)
Definition anchored_world (w : world) (t : ticket) (env : io)
    (chain : AnchorRegistry.state) (n : N) : world :=
  {| store := updateEventAnchor (store w) (event_id (eventData_of t env))
                (anchor_hash_of t env) (receipt_hash env) (iso_clock env 2);
     contract := Some (AnchorRegistry.emit (AnchorRegistry.set_anchored chain n)
                         (anchor_record env n (event_id (eventData_of t env)))) |}.

(** The anchoring block does nothing and yields [null]; or, with a contract
    that can be reached and does not hold the hash yet, it puts the hash on
    the chain and then, when the confirmation fails, yields [null] with the
    event left as it is, and otherwise stores the reference on the event
    and yields the transaction hash. *)
Lemma anchor_cases t env w :
  let run := anchor (t_session_id t) (t_dp_id t) (eventData_of t env) env w in
  run = (Ret None, w)
  \/ exists chain n,
       contract w = Some chain /\ rpc_ok env = true
       /\ bytes32_of_hex (anchor_hash_of t env) = Some n
       /\ AnchorRegistry.isAnchored chain n = false
       /\ ((wait_ok env = false /\ run = (Ret None, sent_world w t env chain n))
           \/ (wait_ok env = true
               /\ run = (Ret (Some (receipt_hash env)), anchored_world w t env chain n))).
Proof.
  cbv zeta. unfold anchor. destruct (contract w) as [chain|] eqn:Hc; [|now left].
  unfold try_catch, bind, contract_storeAnchor, tx_wait. rewrite Hc.
  destruct (rpc_ok env) eqn:Hrpc; cbn [negb]; [|now left].
  fold (anchor_hash_of t env).
  destruct (bytes32_of_hex (anchor_hash_of t env)) as [n|] eqn:Hn; [|now left].
  unfold AnchorRegistry.storeAnchor.
  destruct (AnchorRegistry.isAnchored chain n) eqn:Hh; [now left|].
  right. exists chain, n. repeat (split; [reflexivity || assumption|]).
  destruct (wait_ok env); [right|left]; (split; [reflexivity|]); reflexivity.
Qed.

(** The world after a delivery was recorded and not anchored. *)
Definition recorded_world (w : world) (t : ticket) (env : io) : world :=
  with_store w (recorded (store w) t env).

(** The second half of the handler on a fresh event id. *)
Lemma commit_cases t env w :
  getDeliveryEvent (store w) (event_id (eventData_of t env)) = None ->
  deliveries_end t env w
    = (Verified (event_id (eventData_of t env)) None, recorded_world w t env)
  \/ exists chain n,
       contract w = Some chain /\ rpc_ok env = true
       /\ bytes32_of_hex (anchor_hash_of t env) = Some n
       /\ AnchorRegistry.isAnchored chain n = false
       /\ ((wait_ok env = false
            /\ deliveries_end t env w
               = (Verified (event_id (eventData_of t env)) None,
                  sent_world (recorded_world w t env) t env chain n))
           \/ (wait_ok env = true
               /\ deliveries_end t env w
                  = (Verified (event_id (eventData_of t env)) (Some (receipt_hash env)),
                     anchored_world (recorded_world w t env) t env chain n))).
Proof.
  intros Hfresh.
  assert (Hrun : deliveries_end t env w =
            match anchor (t_session_id t) (t_dp_id t) (eventData_of t env) env
                    (recorded_world w t env) with
            | (Ret txHash, w') => (Verified (event_id (eventData_of t env)) txHash, w')
            | (Throw _, w') => (Error 500 "Internal server error", w')
            end).
  { unfold deliveries_end, handle, deliveries_commit.
    unfold bind at 1. unfold update at 1.
    unfold bind at 1. unfold insert at 1.
    cbn [store with_store]. unfold createDeliveryEvent.
    rewrite getDeliveryEvent_mark, Hfresh.
    unfold bind at 1. unfold update at 1. cbn [store with_store].
    unfold bind at 1.
    match goal with |- context [anchor _ _ _ env ?w0] =>
      change w0 with (recorded_world w t env) end.
    now destruct (anchor _ _ _ _ _) as [[txHash|e] w']. }
  rewrite Hrun.
  destruct (anchor_cases t env (recorded_world w t env))
    as [Ha|(chain & n & Hc & Hrpc & Hn & Hh & [[Hwait Ha]|[Hwait Ha]])]; rewrite Ha.
  - now left.
  - right. exists chain, n. repeat (split; [assumption|]). left. now split.
  - right. exists chain, n. repeat (split; [assumption|]). right. now split.
Qed.

(** Every way a delivery request can end, with the world it leaves. *)
Lemma post_deliveries_worlds req env w :
  (exists code msg, post_deliveries req env w = (Error code msg, w))
  \/ exists t,
       deliveries_begin req env w = inr t
       /\ admitted req env w t
       /\ ((getDeliveryEvent (store w) (event_id (eventData_of t env)) <> None
            /\ post_deliveries req env w
               = (Error 500 "Internal server error",
                  with_store w
                    (markChallengeUsed (store w) (challenge_id (t_challenge t)))))
           \/ (getDeliveryEvent (store w) (event_id (eventData_of t env)) = None
               /\ post_deliveries req env w
                  = (Verified (event_id (eventData_of t env)) None,
                     recorded_world w t env))
           \/ (getDeliveryEvent (store w) (event_id (eventData_of t env)) = None
               /\ exists chain n,
                    contract w = Some chain /\ rpc_ok env = true
                    /\ bytes32_of_hex (anchor_hash_of t env) = Some n
                    /\ AnchorRegistry.isAnchored chain n = false
                    /\ ((wait_ok env = false
                         /\ post_deliveries req env w
                            = (Verified (event_id (eventData_of t env)) None,
                               sent_world (recorded_world w t env) t env chain n))
                        \/ (wait_ok env = true
                            /\ post_deliveries req env w
                               = (Verified (event_id (eventData_of t env))
                                    (Some (receipt_hash env)),
                                  anchored_world (recorded_world w t env) t env
                                    chain n))))).
Proof.
  rewrite post_deliveries_split.
  destruct (checks_outcome req env w) as [(code & msg & ->)|(t & -> & Hadm)].
  - left. eauto.
  - right. exists t. split; [reflexivity|]. split; [exact Hadm|].
    destruct (getDeliveryEvent (store w) (event_id (eventData_of t env))) as [e|] eqn:He.
    + left. split; [discriminate|]. exact (end_conflict t env w e He).
    + right. destruct (commit_cases t env w He)
        as [Hc|(chain & n & Hc & Hrpc & Hn & Hh & Hrun)].
      * left. now split.
      * right. split; [reflexivity|]. exists chain, n. now repeat split.
Qed.

(** *** What one request may do to the world *)

Inductive effect (w : world) : world -> Prop :=
| effect_none : effect w w
| effect_session (s : session) :
    getSession (store w) (session_id s) = None ->
    s_status s = "active" ->
    effect w (with_store w (with_sessions (store w) (sessions (store w) ++ [s])))
| effect_challenge (c : challenge) (session : session) (dpKey : dp_key) :
    getSession (store w) (c_session_id c) = Some session ->
    s_status session = "active" ->
    getDPKey (store w) (c_dp_id c) = Some dpKey ->
    challenge_by_id (store w) (challenge_id c) = None ->
    used c = false ->
    effect w (with_store w (with_challenges (store w) (challenges (store w) ++ [c])))
| effect_key (id key : string) (now : Z) :
    getDPKey (store w) id = None ->
    effect w (with_store w (registerDPKey (store w) id key now))
| effect_mark (req : delivery_req) (env : io) (t : ticket) :
    admitted req env w t ->
    effect w (with_store w (markChallengeUsed (store w) (challenge_id (t_challenge t))))
| effect_delivery (req : delivery_req) (env : io) (t : ticket) :
    admitted req env w t ->
    getDeliveryEvent (store w) (event_id (eventData_of t env)) = None ->
    effect w (recorded_world w t env)
| effect_sent (req : delivery_req) (env : io) (t : ticket)
    (chain : AnchorRegistry.state) (n : N) :
    admitted req env w t ->
    getDeliveryEvent (store w) (event_id (eventData_of t env)) = None ->
    contract w = Some chain ->
    bytes32_of_hex (anchor_hash_of t env) = Some n ->
    AnchorRegistry.isAnchored chain n = false ->
    effect w (sent_world (recorded_world w t env) t env chain n)
| effect_anchored (req : delivery_req) (env : io) (t : ticket)
    (chain : AnchorRegistry.state) (n : N) :
    admitted req env w t ->
    getDeliveryEvent (store w) (event_id (eventData_of t env)) = None ->
    contract w = Some chain ->
    bytes32_of_hex (anchor_hash_of t env) = Some n ->
    AnchorRegistry.isAnchored chain n = false ->
    effect w (anchored_world (recorded_world w t env) t env chain n).

Lemma serve_effect rq env w : effect w (snd (serve rq env w)).
Proof.
  destruct rq as [req|sid dp_id|req|id|dp_id public_key]; simpl.
  - destruct (post_sessions_cases req env w)
      as [[_ ->]|[[_ ->]|(cid & oid & _ & _ & Hfresh & -> & _)]];
      try apply effect_none.
    now apply effect_session.
  - destruct (post_challenge_cases sid dp_id env w)
      as [(code & msg & _ & ->)|[[_ ->]
          |(dp & session & dpKey & _ & Hs & _ & Hact & Hkey & Hfresh & -> & _)]];
      try apply effect_none.
    now apply (effect_challenge w (issued_challenge sid dp env) session dpKey).
  - destruct (post_deliveries_worlds req env w)
      as [(code & msg & ->)|(t & _ & Hadm & [[_ ->]|[[Hfresh ->]
          |(Hfresh & chain & n & Hc & _ & Hn & Hh & [[_ ->]|[_ ->]])]])]; cbn [snd].
    + apply effect_none.
    + now apply (effect_mark w req env t).
    + now apply (effect_delivery w req env t).
    + now apply (effect_sent w req env t chain n).
    + now apply (effect_anchored w req env t chain n).
  - rewrite get_verify_frame. apply effect_none.
  - destruct (post_dp_register_cases dp_id public_key env w)
      as [(code & msg & _ & ->)|(id' & key & _ & Hnone & ->)]; cbn [snd].
    + apply effect_none.
    + now apply effect_key.
Qed.

(** A property of worlds kept by every effect holds after every run. *)
Lemma serve_all_keeps (I : world -> Prop) :
  (forall w w', I w -> effect w w' -> I w') ->
  forall rqs w, I w -> I (serve_all rqs w).
Proof.
  intros Hkeep rqs. induction rqs as [|[rq env] rqs IH]; intros w Hw; simpl; trivial.
  apply IH. apply (Hkeep w); [exact Hw|apply serve_effect].
Qed.

End DeliveryOutcomes.

(** ** What stays *)

Section Permanence.

Context {P : Platform}.

Lemma find_map_fixed {A} (f : A -> bool) (g : A -> A) l x :
  (forall y, f (g y) = f y) -> g x = x -> List.find f l = Some x ->
  List.find f (List.map g l) = Some x.
Proof.
  intros Hfg Hx Hfind. rewrite (find_map_same f g l x Hfg Hfind). now rewrite Hx.
Qed.

Lemma find_filter_app_other {A} (f g : A -> bool) l x :
  (forall y, f y = true -> g y = true) -> f x = false ->
  List.find f (List.filter g l ++ [x]) = List.find f l.
Proof.
  intros Hfg Hx. induction l as [|y l IH]; simpl; [now rewrite Hx|].
  destruct (f y) eqn:Hfy.
  - rewrite (Hfg _ Hfy). simpl. now rewrite Hfy.
  - destruct (g y); simpl; [rewrite Hfy|]; exact IH.
Qed.

(** *** Sessions *)

Lemma getSession_completed d sid id s :
  getSession d sid = Some s ->
  getSession (updateSessionStatus d id "completed") sid
  = Some (if String.eqb (session_id s) id then set_status "completed" s else s).
Proof.
  intros Hs. unfold getSession, updateSessionStatus. cbn [sessions with_sessions].
  apply (find_map_same _ (fun s => if String.eqb (session_id s) id
                                   then set_status "completed" s else s));
    [|exact Hs].
  intros y. now destruct (String.eqb (session_id y) id).
Qed.

Lemma getSession_recorded d t env sid s :
  getSession d sid = Some s ->
  getSession (recorded d t env) sid
  = Some (if String.eqb (session_id s) (sql_text (t_session_id t))
          then set_status "completed" s else s).
Proof. intros Hs. unfold recorded. now apply getSession_completed. Qed.

(** A stored session stays as it is, but for its status, which a delivery
    sets to "completed". *)
Lemma effect_session_stays w w' sid s :
  effect w w' -> getSession (store w) sid = Some s ->
  getSession (store w') sid = Some s
  \/ getSession (store w') sid = Some (set_status "completed" s).
Proof.
  intros He Hs.
  assert (Hrec : forall t env,
             getSession (recorded (store w) t env) sid = Some s
             \/ getSession (recorded (store w) t env) sid
                = Some (set_status "completed" s)).
  { intros t env. rewrite (getSession_recorded _ t env _ _ Hs).
    destruct (String.eqb _ _); [now right|now left]. }
  destruct He; try (left; exact Hs); try apply Hrec.
  left. unfold getSession in *. cbn [store with_store sessions with_sessions].
  now apply find_app_found.
Qed.

Lemma session_stays rqs : forall w sid s,
  getSession (store w) sid = Some s ->
  getSession (store (serve_all rqs w)) sid = Some s
  \/ getSession (store (serve_all rqs w)) sid = Some (set_status "completed" s).
Proof.
  induction rqs as [|[rq env] rqs IH]; intros w sid s Hs; simpl; [now left|].
  destruct (effect_session_stays w _ sid s (serve_effect rq env w) Hs) as [H|H].
  - now apply IH.
  - right. destruct (IH _ _ _ H) as [H'|H']; exact H'.
Qed.

(** *** Keys *)

Lemma effect_key_stays w w' dp k :
  effect w w' -> getDPKey (store w) dp = Some k -> getDPKey (store w') dp = Some k.
Proof.
  intros He Hk. destruct He; try exact Hk.
  assert (Hne : dp <> id) by (intros ->; congruence).
  unfold getDPKey, registerDPKey in *. cbn [store with_store dp_keys with_keys].
  apply find_filter_app; [|exact Hk].
  intros y Hy. apply andb_prop in Hy as [Hid _]. apply String.eqb_eq in Hid.
  apply negb_true_iff, String.eqb_neq. congruence.
Qed.

(** *** Delivery events *)

Lemma getDeliveryEvent_anchor_other d id id' h txh time e :
  id <> id' ->
  getDeliveryEvent d id = Some e ->
  getDeliveryEvent (updateEventAnchor d id' h txh time) id = Some e.
Proof.
  intros Hne He. unfold getDeliveryEvent, updateEventAnchor in *.
  cbn [delivery_events with_events].
  apply find_map_fixed; [| |exact He].
  - intros y. now destruct (String.eqb (event_id y) id').
  - apply find_some in He as [_ Hid]. apply String.eqb_eq in Hid.
    rewrite Hid. apply String.eqb_neq in Hne. now rewrite Hne.
Qed.

Lemma getDeliveryEvent_recorded_old d t env id e :
  getDeliveryEvent d id = Some e -> getDeliveryEvent (recorded d t env) id = Some e.
Proof.
  intros He. unfold getDeliveryEvent, recorded, updateSessionStatus in *.
  cbn [delivery_events with_events with_sessions]. now apply find_app_found.
Qed.

Lemma getDeliveryEvent_recorded_new d t env :
  getDeliveryEvent d (event_id (eventData_of t env)) = None ->
  getDeliveryEvent (recorded d t env) (event_id (eventData_of t env))
  = Some (eventData_of t env).
Proof.
  intros Hfresh. unfold getDeliveryEvent, recorded, updateSessionStatus in *.
  cbn [delivery_events with_events with_sessions markChallengeUsed with_challenges].
  apply find_app_fresh; [exact Hfresh|apply String.eqb_refl].
Qed.

Lemma getDeliveryEvent_anchor_same d id h txh time e :
  getDeliveryEvent d id = Some e ->
  getDeliveryEvent (updateEventAnchor d id h txh time) id
  = Some (set_anchor h txh time e).
Proof.
  intros He. unfold getDeliveryEvent, updateEventAnchor in *.
  cbn [delivery_events with_events].
  pose proof (find_some _ _ He) as [_ Hid].
  rewrite (find_map_same _ (fun e => if String.eqb (event_id e) id
                                     then set_anchor h txh time e else e) _ e);
    [| |exact He].
  - cbv beta in *. rewrite Hid. reflexivity.
  - intros y. destruct (String.eqb (event_id y) id) eqn:Hy; exact Hy.
Qed.

(** A stored event is never altered or removed. *)
Lemma effect_event_stays w w' id e :
  effect w w' -> getDeliveryEvent (store w) id = Some e ->
  getDeliveryEvent (store w') id = Some e.
Proof.
  intros He Hid. destruct He; try exact Hid.
  - now apply getDeliveryEvent_recorded_old.
  - cbn [store sent_world recorded_world with_store].
    now apply getDeliveryEvent_recorded_old.
  - cbn [store anchored_world recorded_world with_store].
    apply getDeliveryEvent_anchor_other;
      [congruence | now apply getDeliveryEvent_recorded_old].
Qed.

Lemma event_stays rqs : forall w id e,
  getDeliveryEvent (store w) id = Some e ->
  getDeliveryEvent (store (serve_all rqs w)) id = Some e.
Proof.
  induction rqs as [|[rq env] rqs IH]; intros w id e He; simpl; trivial.
  apply IH. exact (effect_event_stays w _ id e (serve_effect rq env w) He).
Qed.

(** *** Challenges *)

Lemma in_mark_in id l c :
  In c l -> In c (mark_in id l) \/ In (set_used c) (mark_in id l).
Proof.
  intros Hin. unfold mark_in.
  destruct (String.eqb (challenge_id c) id) eqn:Hid; [right|left];
    apply in_map_iff; exists c; rewrite Hid; now split.
Qed.

(** A stored challenge is never removed and never altered, but for its
    mark. *)
Lemma effect_challenge_stays w w' c :
  effect w w' -> In c (challenges (store w)) ->
  In c (challenges (store w')) \/ In (set_used c) (challenges (store w')).
Proof.
  intros He Hin. destruct He; try (left; exact Hin).
  - left. cbn [store with_store challenges with_challenges].
    apply in_or_app. now left.
  - apply in_mark_in, Hin.
  - apply (in_mark_in (challenge_id (t_challenge t))), Hin.
  - apply (in_mark_in (challenge_id (t_challenge t))), Hin.
  - apply (in_mark_in (challenge_id (t_challenge t))), Hin.
Qed.

Lemma challenge_stays rqs : forall w c,
  In c (challenges (store w)) ->
  In c (challenges (store (serve_all rqs w)))
  \/ In (set_used c) (challenges (store (serve_all rqs w))).
Proof.
  induction rqs as [|[rq env] rqs IH]; intros w c Hin; simpl; [now left|].
  destruct (effect_challenge_stays w _ c (serve_effect rq env w) Hin) as [H|H].
  - now apply IH.
  - right. destruct (IH _ _ H) as [H'|H']; exact H'.
Qed.

(** *** The contract handle *)

Lemma effect_contract w w' :
  effect w w' ->
  match contract w with
  | None => contract w' = None
  | Some chain => exists chain', contract w' = Some chain' /\ extends chain chain'
  end.
Proof.
  intros He.
  assert (Hsame : match contract w with
                  | None => contract w = None
                  | Some chain => exists chain', contract w = Some chain'
                                               /\ extends chain chain'
                  end).
  { destruct (contract w) as [chain|]; [|reflexivity].
    exists chain. split; [reflexivity|apply extends_refl]. }
  destruct He as [|s Hf Hst|c s k Hs Hact Hk Hf Hu|id key now Hnone|req env t Hadm
                  |req env t Hadm Hfresh
                  |req env t chain n Hadm Hfresh Hc Hn Hh|req env t chain n Hadm Hfresh Hc Hn Hh];
    try exact Hsame.
  - cbn [contract sent_world]. rewrite Hc. eexists. split; [reflexivity|].
    now apply (extends_anchor chain (tx env) n).
  - cbn [contract anchored_world]. rewrite Hc. eexists. split; [reflexivity|].
    now apply (extends_anchor chain (tx env) n).
Qed.

Lemma contract_stays rqs : forall w chain,
  contract w = Some chain ->
  exists chain', contract (serve_all rqs w) = Some chain' /\ extends chain chain'.
Proof.
  induction rqs as [|[rq env] rqs IH]; intros w chain Hc; simpl.
  { exists chain. split; [exact Hc|apply extends_refl]. }
  pose proof (effect_contract w _ (serve_effect rq env w)) as He. rewrite Hc in He.
  destruct He as (chain1 & Hc1 & Hext1).
  destruct (IH _ _ Hc1) as (chain' & Hc' & Hext'). exists chain'.
  split; [exact Hc'|]. eapply extends_trans; eassumption.
Qed.

Lemma no_contract_stays rqs : forall w,
  contract w = None -> contract (serve_all rqs w) = None.
Proof.
  induction rqs as [|[rq env] rqs IH]; intros w Hc; simpl; trivial.
  apply IH. pose proof (effect_contract w _ (serve_effect rq env w)) as He.
  now rewrite Hc in He.
Qed.

End Permanence.

(** ** Sessions and keys over a run *)

Section Lifetimes.

Context {P : Platform}.

Lemma find_none_all {A} (f : A -> bool) l :
  (forall y, In y l -> f y = false) -> List.find f l = None.
Proof.
  induction l as [|x l IH]; simpl; intros Hall; [reflexivity|].
  rewrite (Hall x) by now left. apply IH. intros y Hy. apply Hall. now right.
Qed.

(** Whatever requests follow, a stored session keeps its id, customer,
    order, token, token type, creation time and expiry; its status is the
    one it had or "completed", and a completed session stays completed. *)
Theorem session_changes_only_by_completion w sid s rqs :
  getSession (store w) sid = Some s ->
  exists s',
    getSession (store (serve_all rqs w)) sid = Some s'
    /\ session_id s' = session_id s
    /\ s_customer_id s' = s_customer_id s
    /\ s_order_id s' = s_order_id s
    /\ ephemeral_token s' = ephemeral_token s
    /\ token_type s' = token_type s
    /\ s_created_at s' = s_created_at s
    /\ s_expires_at s' = s_expires_at s
    /\ (s_status s' = s_status s \/ s_status s' = "completed")
    /\ (s_status s = "completed" -> s_status s' = "completed").
Proof.
  intros Hs. destruct (session_stays rqs w sid s Hs) as [H|H]; eexists;
    (split; [exact H|]); cbn; repeat (split; [reflexivity|]); auto.
Qed.

(** Once a delivery was answered "verified", no challenge is issued for
    its session again: every later challenge request for it is refused with
    a 400 and writes nothing. *)
Theorem completed_session_issues_no_challenge req env w evt txHash w1 sid :
  post_deliveries req env w = (Verified evt txHash, w1) ->
  present (dr_session_id req) = Some sid ->
  forall rqs dp_id env2,
    exists msg,
      post_challenge (sql_text sid) dp_id env2 (serve_all rqs w1)
        = (Error 400 msg, serve_all rqs w1)
      /\ (msg = "dp_id required" \/ msg = "Session expired"
          \/ msg = "Session not active").
Proof.
  intros Hr Hsid rqs dp_id env2.
  assert (Hdone : exists s1, getSession (store w1) (sql_text sid) = Some s1
                             /\ s_status s1 = "completed").
  { destruct (post_deliveries_worlds req env w)
      as [(code & msg & He)|(t & _ & Hadm & Hcase)]; [congruence|].
    destruct Hadm as (k & m & md & (Hs & _ & Hsess & _) & _).
    assert (Ht : t_session_id t = sid) by congruence.
    pose proof (getSession_recorded (store w) t env _ _ Hsess) as Hrec.
    rewrite Ht in Hrec, Hsess.
    assert (Hid : session_id (t_session t) = sql_text sid).
    { apply find_some in Hsess as [_ H]. now apply String.eqb_eq in H. }
    rewrite Hid, String.eqb_refl in Hrec.
    destruct Hcase as [[_ He]|[[_ He]|(_ & chain & n & _ & _ & _ & _
                       & [[_ He]|[_ He]])]];
      rewrite He in Hr; try discriminate; injection Hr as _ _ <-;
      eexists; (split; [exact Hrec|reflexivity]). }
  destruct Hdone as (s1 & Hs1 & Hst1).
  assert (Hlater : exists s2, getSession (store (serve_all rqs w1)) (sql_text sid) = Some s2
                              /\ s_status s2 = "completed").
  { destruct (session_stays rqs w1 _ s1 Hs1) as [H|H]; eexists;
      (split; [exact H|]); [exact Hst1|reflexivity]. }
  destruct Hlater as (s2 & Hs2 & Hst2).
  unfold post_challenge, handle, post_challenge_body.
  destruct (given dp_id); [|eexists; split; [reflexivity|now left]].
  unfold bind, query. rewrite Hs2.
  destruct (_ <? _)%Z; [eexists; split; [reflexivity|now right; left]|].
  rewrite Hst2. cbn. eexists. split; [reflexivity|now right; right].
Qed.

(** The row the registration handler writes for an id and a trimmed key. *)
Definition key_row (id trimmedKey : string) (env : io) : dp_key :=
  {| dp_id := id; public_key := trimmedKey; key_type := "secp256k1";
     registered_at := clock env 0; k_status := "active" |}.

Lemma getDPKey_registered d id key now :
  getDPKey (registerDPKey d id key now) id
  = Some {| dp_id := id; public_key := key; key_type := "secp256k1";
            registered_at := now; k_status := "active" |}.
Proof.
  unfold getDPKey, registerDPKey. cbn [dp_keys with_keys].
  apply find_app_fresh; [|cbn; now rewrite String.eqb_refl].
  apply find_none_all. intros y Hy. apply filter_In in Hy as [_ Hy].
  apply negb_true_iff in Hy. now rewrite Hy.
Qed.

(** Served one after the other, requests cannot replace or remove a
    registered key: whatever requests follow, the partner's key is the one
    first stored, and every later registration under its id is refused with
    a 400 or a 409 and writes nothing.  The look-up and the write of a
    registration are two steps, though: of two registrations of one id that
    both look the partner up before either writes, both are answered
    "registered", and the key written second replaces the key written
    first. *)
Theorem registered_key_is_permanent_in_sequence w :
  (forall dp k rqs,
     getDPKey (store w) dp = Some k ->
     getDPKey (store (serve_all rqs w)) dp = Some k
     /\ forall public_key env,
          exists code msg,
            post_dp_register (Some (JStr dp)) public_key env (serve_all rqs w)
              = (Error code msg, serve_all rqs w)
            /\ (code = 400 \/ code = 409)%Z)
  /\ (forall dp_id1 public_key1 env1 dp_id2 public_key2 env2 id key1 key2,
        register_begin dp_id1 public_key1 w = inr (id, key1) ->
        register_begin dp_id2 public_key2 w = inr (id, key2) ->
        exists w1 w2,
          post_dp_register dp_id1 public_key1 env1 w = (Registered id, w1)
          /\ getDPKey (store w1) id = Some (key_row id key1 env1)
          /\ registrations_overlapped dp_id1 public_key1 env1 dp_id2 public_key2 env2 w
             = (Registered id, Registered id, w2)
          /\ getDPKey (store w2) id = Some (key_row id key2 env2)).
Proof.
  split.
  - intros dp k rqs Hk. pose proof (getDPKey_serve_all rqs dp k w Hk) as Hlater.
    split; [exact Hlater|]. intros public_key env.
    destruct (post_dp_register_cases (Some (JStr dp)) public_key env (serve_all rqs w))
      as [(code & msg & Hcode & He)|(id & key & (Hid & _) & Hnone & _)].
    + exists code, msg. now split.
    + injection Hid as <-. congruence.
  - intros dp_id1 public_key1 env1 dp_id2 public_key2 env2 id key1 key2 Hb1 Hb2.
    assert (Hseq : post_dp_register dp_id1 public_key1 env1 w
                   = register_resume (register_begin dp_id1 public_key1 w) env1 w).
    { unfold post_dp_register, post_dp_register_body, register_begin, register_handle,
        bind.
      assert (Hw : snd (register_checks dp_id1 public_key1 w) = w).
      { unfold register_checks.
        destruct (string_arg dp_id1); [|reflexivity].
        destruct (blank _); [reflexivity|].
        destruct (string_arg public_key1); [|reflexivity].
        destruct (blank _); [reflexivity|].
        destruct (negb _); [reflexivity|]. destruct (negb _); [reflexivity|].
        destruct (negb _); [reflexivity|]. unfold bind, query.
        now destruct (getDPKey _ _). }
      destruct (register_checks dp_id1 public_key1 w) as [[[r|[i k]]|e] w'] eqn:Hc;
        cbn in Hw; subst w'; cbn [register_resume].
      - reflexivity.
      - reflexivity.
      - unfold register_begin in Hb1. rewrite Hc in Hb1. discriminate. }
    unfold registrations_overlapped. rewrite Hseq, Hb1, Hb2.
    cbn [register_resume register_end register_handle register_commit fst snd].
    unfold bind, update, ret. cbn [fst snd store with_store].
    eexists _, _. split; [reflexivity|]. split; [apply getDPKey_registered|].
    split; [reflexivity|]. apply getDPKey_registered.
Qed.

(** A registration answered "registered" was given an id of 1 to 128
    letters, digits, underscores and hyphens that had no key, and a key
    that trims to 130 hexadecimal characters the curve accepts; the trimmed
    key is what the partner's look-up returns afterwards, and the look-up
    of every other partner is as before. *)
Theorem registration_stores_the_validated_key dp_id public_key env w id :
  fst (post_dp_register dp_id public_key env w) = Registered id ->
  exists key,
    registrable dp_id public_key id key
    /\ getDPKey (store w) id = None
    /\ getDPKey (store (snd (post_dp_register dp_id public_key env w))) id
       = Some (registered_key id key env)
    /\ forall other,
         other <> id ->
         getDPKey (store (snd (post_dp_register dp_id public_key env w))) other
         = getDPKey (store w) other.
Proof.
  intros Hr.
  destruct (post_dp_register_cases dp_id public_key env w)
    as [(code & msg & _ & He)|(id' & key & Hreg & Hnone & He)];
    rewrite He in Hr; [discriminate|].
  injection Hr as ->. rewrite He. cbn [snd store with_store].
  exists key. split; [exact Hreg|]. split; [exact Hnone|].
  unfold getDPKey, registerDPKey. cbn [dp_keys with_keys]. split.
  - apply find_app_fresh; [|cbn; now rewrite String.eqb_refl].
    apply find_none_all. intros y Hy. apply filter_In in Hy as [_ Hy].
    apply negb_true_iff in Hy. now rewrite Hy.
  - intros other Hne. apply find_filter_app_other.
    + intros y Hy. apply andb_prop in Hy as [Hy _]. apply String.eqb_eq in Hy.
      apply negb_true_iff, String.eqb_neq. congruence.
    + cbn. apply String.eqb_neq in Hne. rewrite String.eqb_sym in Hne.
      now rewrite Hne.
Qed.

End Lifetimes.

(** The session of the examples after its delivery. *)
Lemma session_changes_only_by_completion_witness :
  exists s',
    getSession (store (serve_all (P := Demo.platform)
                         [(PostDeliveries (Scenario.proof Scenario.right_hash),
                           Demo.env "d" 4000)]
                         (Scenario.issued 300 3000 None))) Scenario.sid = Some s'
    /\ ephemeral_token s' = Scenario.token
    /\ s_expires_at s' = 302000%Z.
Proof.
  assert (Hs : getSession (store (Scenario.issued 300 3000 None)) Scenario.sid
               = Some (ScenarioFacts.the_session 302000)) by by_running.
  destruct (session_changes_only_by_completion (P := Demo.platform) _ _ _
              [(PostDeliveries (Scenario.proof Scenario.right_hash), Demo.env "d" 4000)]
              Hs)
    as (s' & Hs' & _ & _ & _ & Htoken & _ & _ & Hexp & _).
  exists s'. split; [exact Hs'|]. split; [exact Htoken|exact Hexp].
Defined.

(** A second challenge asked for the session of the examples after its
    delivery and the activation of another customer. *)
Lemma completed_session_issues_no_challenge_witness :
  let later := [(PostSessions {| sr_customer_id := Some "cus_2";
                                 sr_order_id := Some "ord_2";
                                 sr_ttl_seconds := None |}, Demo.env "e" 4500)] in
  exists msg,
    post_challenge (P := Demo.platform) Scenario.sid (Some Scenario.dp)
      (Demo.env "f" 5000) (serve_all (P := Demo.platform) later accepted)
    = (Error 400 msg, serve_all (P := Demo.platform) later accepted).
Proof.
  intros later.
  destruct (completed_session_issues_no_challenge (P := Demo.platform) _ _ _ _ _ _
              (JStr Scenario.sid) accepted_at_4000 eq_refl later (Some Scenario.dp)
              (Demo.env "f" 5000)) as (msg & Hr & _).
  exists msg. exact Hr.
Defined.

(** The partner of the examples registers another key: after a further
    challenge was asked, and in a request that overlaps the first
    registration. *)
Lemma registered_key_is_permanent_in_sequence_witness :
  let other := ("04" ++ Demo.hex_fixed 128 1)%string in
  let later := [(PostChallenge Scenario.sid (Some Scenario.dp), Demo.env "e" 4500)] in
  (exists code msg,
     post_dp_register (P := Demo.platform) (Some (JStr Scenario.dp)) (Some (JStr other))
       (Demo.env "f" 5000)
       (serve_all (P := Demo.platform) later (Scenario.issued 300 3000 None))
     = (Error code msg,
        serve_all (P := Demo.platform) later (Scenario.issued 300 3000 None)))
  /\ exists w2,
       registrations_overlapped (P := Demo.platform)
         (Some (JStr Scenario.dp)) (Some (JStr Demo.key)) (Demo.env "a" 1000)
         (Some (JStr Scenario.dp)) (Some (JStr other)) (Demo.env "f" 1001)
         (Demo.fresh None)
       = (Registered Scenario.dp, Registered Scenario.dp, w2)
       /\ getDPKey (store w2) Scenario.dp
          = Some (key_row Scenario.dp other (Demo.env "f" 1001)).
Proof.
  intros other later. split.
  - assert (Hk : getDPKey (store (Scenario.issued 300 3000 None)) Scenario.dp
                 = Some ScenarioFacts.the_key) by by_running.
    destruct (registered_key_is_permanent_in_sequence (P := Demo.platform)
                (Scenario.issued 300 3000 None)) as [Hseq _].
    destruct (Hseq _ _ later Hk) as [_ Hre].
    destruct (Hre (Some (JStr other)) (Demo.env "f" 5000)) as (code & msg & Hr & _).
    exists code, msg. exact Hr.
  - destruct (registered_key_is_permanent_in_sequence (P := Demo.platform)
                (Demo.fresh None)) as [_ Hover].
    assert (Hb1 : register_begin (P := Demo.platform) (Some (JStr Scenario.dp))
                    (Some (JStr Demo.key)) (Demo.fresh None)
                  = inr (Scenario.dp, Demo.key)) by by_running.
    assert (Hb2 : register_begin (P := Demo.platform) (Some (JStr Scenario.dp))
                    (Some (JStr other)) (Demo.fresh None)
                  = inr (Scenario.dp, other)) by by_running.
    destruct (Hover _ _ (Demo.env "a" 1000) _ _ (Demo.env "f" 1001) _ _ _ Hb1 Hb2)
      as (w1 & w2 & _ & _ & Hrun & Hkey).
    exists w2. split; [exact Hrun|exact Hkey].
Defined.

(** The first registration of the examples. *)
Lemma registration_stores_the_validated_key_witness :
  getDPKey
    (store (snd (post_dp_register (P := Demo.platform) (Some (JStr Scenario.dp))
                   (Some (JStr Demo.key)) (Demo.env "a" 1000) (Demo.fresh None))))
    Scenario.dp
  = Some ScenarioFacts.the_key.
Proof.
  assert (Hr : fst (post_dp_register (P := Demo.platform) (Some (JStr Scenario.dp))
                      (Some (JStr Demo.key)) (Demo.env "a" 1000) (Demo.fresh None))
               = Registered Scenario.dp) by by_running.
  destruct (registration_stores_the_validated_key (P := Demo.platform) _ _ _ _ _ Hr)
    as (key & (_ & Hkey & _) & _ & Hget & _).
  rewrite Hget. injection Hkey as <-. by_running.
Defined.

(** ** Refusals and failures *)

Section Refusals.

Context {P : Platform}.

(** A request answered with an error status other than 500 has written
    nothing: store and contract are as they were. *)
Theorem refused_request_writes_nothing rq env w code msg :
  fst (serve rq env w) = Error code msg -> code <> 500%Z ->
  snd (serve rq env w) = w.
Proof.
  intros Hr Hcode. destruct rq as [req|sid dp_id|req|id|dp_id public_key];
    simpl in *.
  - destruct (post_sessions_cases req env w)
      as [[_ He]|[[_ He]|(c & o & _ & _ & _ & _ & [[_ He]|(iso & _ & He)])]];
      try (now rewrite He); rewrite He in Hr; congruence.
  - destruct (post_challenge_cases sid dp_id env w)
      as [(c & m & _ & He)|[[_ He]
          |(dp & s & k & _ & _ & _ & _ & _ & _ & _ & [[_ He]|(iso & _ & He)])]];
      try (now rewrite He); rewrite He in Hr; congruence.
  - destruct (post_deliveries_worlds req env w)
      as [(c & m & He)|(t & _ & _ & [[_ He]|[[_ He]|(_ & ch & n & _ & _ & _ & _
          & [[_ He]|[_ He]])]])];
      try (now rewrite He); rewrite He in Hr; cbn in Hr; congruence.
  - apply get_verify_frame.
  - destruct (post_dp_register_cases dp_id public_key env w)
      as [(c & m & _ & He)|(id & key & _ & _ & He)];
      try (now rewrite He); rewrite He in Hr; discriminate.
Qed.

(** The writes a request can leave behind when it fails after them: the
    session of an activation or the challenge of a challenge request whose
    expiry cannot be written as a date, and the mark on the challenge of a
    delivery whose drawn event id is taken. *)
Definition left_behind (rq : request) (env : io) (w w' : world) : Prop :=
  (exists req customer_id order_id,
     let s := activated req env customer_id order_id in
     rq = PostSessions req
     /\ toISOString (s_expires_at s) = None
     /\ w' = with_store w (with_sessions (store w) (sessions (store w) ++ [s])))
  \/ (exists sid dp_id dp,
        let c := issued_challenge sid dp env in
        rq = PostChallenge sid dp_id
        /\ toISOString (c_expires_at c) = None
        /\ w' = with_store w (with_challenges (store w) (challenges (store w) ++ [c])))
  \/ (exists req t,
        rq = PostDeliveries req
        /\ deliveries_begin req env w = inr t
        /\ getDeliveryEvent (store w) (event_id (eventData_of t env)) <> None
        /\ w' = with_store w
                  (markChallengeUsed (store w) (challenge_id (t_challenge t)))).

(** A request answered 500 has written nothing, with three exceptions
    where the failure comes after a write: an activation whose expiry
    cannot be written as a date leaves its session stored, a challenge
    request whose expiry cannot be written as a date leaves its challenge
    stored, and a delivery whose drawn event id is taken leaves its
    challenge marked used without an event. *)
Theorem internal_error_after_a_write rq env w msg :
  fst (serve rq env w) = Error 500 msg ->
  snd (serve rq env w) = w \/ left_behind rq env w (snd (serve rq env w)).
Proof.
  intros Hr. unfold left_behind.
  destruct rq as [req|sid dp_id|req|id|dp_id public_key]; simpl in *.
  - destruct (post_sessions_cases req env w)
      as [[_ He]|[[_ He]|(c & o & _ & _ & _ & Hw & [[Hiso He]|(iso & _ & He)])]].
    + left. now rewrite He.
    + left. now rewrite He.
    + right; left. exists req, c, o. now repeat split.
    + rewrite He in Hr. discriminate.
  - destruct (post_challenge_cases sid dp_id env w)
      as [(c & m & _ & He)|[[_ He]
          |(dp & s & k & _ & _ & _ & _ & _ & _ & Hw & [[Hiso He]|(iso & _ & He)])]].
    + left. now rewrite He.
    + left. now rewrite He.
    + right; right; left. exists sid, dp_id, dp. now repeat split.
    + rewrite He in Hr. discriminate.
  - destruct (post_deliveries_worlds req env w)
      as [(c & m & He)|(t & Hb & _ & [[Htaken He]|[[_ He]|(_ & ch & n & _ & _ & _ & _
          & [[_ He]|[_ He]])]])].
    + left. now rewrite He.
    + right; right; right. exists req, t. rewrite He. now repeat split.
    + rewrite He in Hr. discriminate.
    + rewrite He in Hr. discriminate.
    + rewrite He in Hr. discriminate.
  - left. apply get_verify_frame.
  - destruct (post_dp_register_cases dp_id public_key env w)
      as [(c & m & _ & He)|(id & key & _ & _ & He)].
    + left. now rewrite He.
    + rewrite He in Hr. discriminate.
Qed.

End Refusals.

(** A challenge asked for a session that does not exist. *)
Lemma refused_request_writes_nothing_witness :
  snd (serve (P := Demo.platform) (PostChallenge "s_0" (Some Scenario.dp))
         (Demo.env "f" 5000) (Scenario.issued 300 3000 None))
  = Scenario.issued 300 3000 None.
Proof.
  apply (refused_request_writes_nothing (P := Demo.platform) _ _ _ 404%Z
           "Session not found"); [by_running|discriminate].
Defined.

(** An activation for 10^13 seconds: the session is stored and the answer
    is a 500. *)
Lemma internal_error_after_a_write_witness :
  let rq := PostSessions {| sr_customer_id := Some "cus_1"; sr_order_id := Some "ord_1";
                            sr_ttl_seconds := Some 10000000000000%Z |} in
  let r := serve (P := Demo.platform) rq (Demo.env "b" 2000) (Demo.fresh None) in
  fst r = Error 500 "Internal server error"
  /\ (exists s, getSession (store (snd r)) Scenario.sid = Some s)
  /\ (snd r = Demo.fresh None
      \/ left_behind (P := Demo.platform) rq (Demo.env "b" 2000) (Demo.fresh None)
           (snd r)).
Proof.
  intros rq r. split; [by_running|]. split; [eexists; by_running|].
  apply (internal_error_after_a_write (P := Demo.platform) rq (Demo.env "b" 2000)
           (Demo.fresh None) "Internal server error").
  by_running.
Defined.

(** ** What an acceptance stands for *)

Section Acceptance.

Context {P : Platform}.

(** [verifySignature] answers [true] only for a signature of 128
    hexadecimal characters whose halves the curve verifies, under a key the
    curve accepts, over the SHA-256 of the message. *)
Lemma verifySignature_true_inv pk m sg :
  verifySignature (Some (JStr pk)) (Some (JStr m)) (Some (JStr sg)) = Ret true ->
  all_chars is_hex_char sg = true
  /\ String.length sg = 128
  /\ ec_keyFromPublic pk = true
  /\ ec_verify pk (hashString m) (substring 0 64 sg) (substring 64 64 sg) = Ret true.
Proof.
  unfold verifySignature, verifySignature_try, string_arg. cbn [not_a_string].
  destruct (falsy (Some (JStr pk))); cbn [orb]; [discriminate|].
  destruct (falsy (Some (JStr sg))); cbn [orb]; [discriminate|].
  destruct (all_chars is_hex_char sg) eqn:Hhex; cbn [negb]; [|discriminate].
  destruct (Nat.eqb_spec (String.length sg) 128) as [Hlen|]; cbn [negb]; [|discriminate].
  destruct (ec_keyFromPublic pk) eqn:Hkey; cbn [negb]; [|discriminate].
  cbn [hashString_any].
  destruct (ec_verify pk (hashString m) (substring 0 64 sg) (substring 64 64 sg))
    as [[|]|] eqn:Hv; try discriminate.
  intros _. now repeat split.
Qed.

(** The stored row of the event a ticket mints, given its transaction hash. *)
Definition stored_event (t : ticket) (env : io) (txHash : option string)
    : delivery_event :=
  match txHash with
  | None => eventData_of t env
  | Some txh =>
      set_anchor (anchor_hash_of t env) txh (iso_clock env 2) (eventData_of t env)
  end.

(** What a delivery answered "verified" leaves: the ticket it was checked
    with, the row it stored, the world. *)
Lemma verified_cases req env w evt txHash w1 :
  post_deliveries req env w = (Verified evt txHash, w1) ->
  exists t,
    deliveries_begin req env w = inr t
    /\ admitted req env w t
    /\ evt = event_id (eventData_of t env)
    /\ getDeliveryEvent (store w) evt = None
    /\ getDeliveryEvent (store w1) evt = Some (stored_event t env txHash)
    /\ ((txHash = None /\ w1 = recorded_world w t env)
        \/ exists chain n,
             contract w = Some chain /\ rpc_ok env = true
             /\ bytes32_of_hex (anchor_hash_of t env) = Some n
             /\ AnchorRegistry.isAnchored chain n = false
             /\ ((txHash = None /\ wait_ok env = false
                  /\ w1 = sent_world (recorded_world w t env) t env chain n)
                 \/ (txHash = Some (receipt_hash env) /\ wait_ok env = true
                     /\ w1 = anchored_world (recorded_world w t env) t env chain n))).
Proof.
  intros Hr.
  destruct (post_deliveries_worlds req env w)
    as [(code & msg & He)|(t & Hb & Hadm & Hcase)]; [congruence|].
  exists t. split; [exact Hb|]. split; [exact Hadm|].
  destruct Hcase as [[_ He]|[[Hfresh He]|(Hfresh & chain & n & Hc & Hrpc & Hn & Hh
                     & [[Hwait He]|[Hwait He]])]];
    rewrite He in Hr; try discriminate; injection Hr as <- <- <-.
  - split; [reflexivity|]. split; [exact Hfresh|]. split.
    + now apply getDeliveryEvent_recorded_new.
    + left. now split.
  - split; [reflexivity|]. split; [exact Hfresh|]. split.
    + cbn [store sent_world recorded_world with_store stored_event].
      now apply getDeliveryEvent_recorded_new.
    + right. exists chain, n. repeat (split; [assumption|]). left. now repeat split.
  - split; [reflexivity|]. split; [exact Hfresh|]. split.
    + cbn [store anchored_world recorded_world with_store stored_event].
      apply getDeliveryEvent_anchor_same. now apply getDeliveryEvent_recorded_new.
    + right. exists chain, n. repeat (split; [assumption|]). right. now repeat split.
Qed.

(** A delivery is answered "verified" only when the request named a stored
    session and a registered partner, the challenge the handler picked for
    the pair was stored, unused and unexpired, the blob carried a message
    and a 128-character hexadecimal signature that the registered key
    verifies over the SHA-256 of the message, and the message named the
    session and the challenge's nonce.  The event then stored under the
    returned id carries the session's order, customer and token hash, the
    partner, the nonce, the signature and the returned transaction hash. *)
Theorem verified_delivery_passed_every_check req env w evt txHash :
  fst (post_deliveries req env w) = Verified evt txHash ->
  exists sid dp session challenge dpKey message signature messageData e,
    selects req env w sid dp session challenge dpKey
    /\ In challenge (challenges (store w)) /\ used challenge = false
    /\ c_session_id challenge = sql_text sid /\ c_dp_id challenge = sql_text dp
    /\ carries req (Some (JStr message)) (Some (JStr signature))
    /\ all_chars is_hex_char signature = true /\ String.length signature = 128
    /\ ec_verify (public_key dpKey) (hashString message)
         (substring 0 64 signature) (substring 64 64 signature) = Ret true
    /\ consistent message sid (challenge_nonce challenge) messageData
    /\ evt = generateId (random env) 0 "evt"
    /\ getDeliveryEvent (store w) evt = None
    /\ getDeliveryEvent (store (snd (post_deliveries req env w))) evt = Some e
    /\ e_session_id e = sql_text sid /\ e_dp_id e = sql_text dp
    /\ e_order_id e = s_order_id session /\ e_customer_id e = s_customer_id session
    /\ ephemeral_token_hash e
       = ("sha256:" ++ hashString (ephemeral_token session))%string
    /\ e_challenge_nonce e = challenge_nonce challenge
    /\ dp_signature e = signature
    /\ tx_hash e = txHash.
Proof.
  intros Hr.
  destruct (post_deliveries req env w) as [r w1] eqn:Hrun. cbn [fst snd] in *. subst r.
  destruct (verified_cases req env w evt txHash w1 Hrun)
    as (t & _ & Hadm & Hevt & Hfresh & Hget & _).
  destruct Hadm as (dpKey & message & messageData & Hsel & Hcar & Hsig & Hcons & _).
  pose proof Hsel as (_ & _ & _ & Hch & _).
  apply getChallenge_open in Hch as (Hin & Hcs & Hcd & Hused).
  apply verifySignature_true_inv in Hsig as (Hhex & Hlen & _ & Hv).
  exists (t_session_id t), (t_dp_id t), (t_session t), (t_challenge t), dpKey,
    message, (t_signature t), messageData, (stored_event t env txHash).
  repeat (split; [assumption|]).
  destruct txHash; cbn; repeat (split; [reflexivity|]); reflexivity.
Qed.

End Acceptance.

(** The proof of the examples, accepted at 4000. *)
Lemma verified_delivery_passed_every_check_witness :
  exists e,
    getDeliveryEvent (store accepted) "evt_6464646464646464" = Some e
    /\ e_session_id e = Scenario.sid /\ e_dp_id e = Scenario.dp
    /\ tx_hash e = None.
Proof.
  assert (Hr : fst (post_deliveries (P := Demo.platform)
                      (Scenario.proof Scenario.right_hash) (Demo.env "d" 4000)
                      (Scenario.issued 300 3000 None))
               = Verified "evt_6464646464646464" None) by by_running.
  destruct (verified_delivery_passed_every_check (P := Demo.platform) _ _ _ _ _ Hr)
    as (sid & dp & s & c & k & m & sg & md & e & Hsel & _ & _ & _ & _ & _ & _ & _ & _
        & _ & _ & _ & Hget & Hsid & Hdp & _ & _ & _ & _ & _ & Htx).
  destruct Hsel as (Hs & Hd & _).
  exists e. split; [exact Hget|].
  split; [rewrite Hsid; now injection Hs as <-|].
  split; [rewrite Hdp; now injection Hd as <-|exact Htx].
Defined.

(** ** The challenge a proof is checked against *)

Section Selection.

Context {P : Platform}.

Lemma later_of_some best c : exists b, later_of best c = Some b.
Proof.
  unfold later_of. destruct best as [b|]; [|eauto].
  destruct (_ <? _)%Z; eauto.
Qed.

Lemma later_of_fold_some l : forall b, exists c, fold_left later_of l (Some b) = Some c.
Proof.
  induction l as [|x l IH]; intros b; cbn [fold_left]; [eauto|].
  destruct (later_of_some (Some b) x) as (b' & ->). apply IH.
Qed.

Lemma later_of_fold_none l : fold_left later_of l None = None -> l = [].
Proof.
  destruct l as [|x l]; [reflexivity|]. cbn [fold_left later_of].
  destruct (later_of_fold_some l x) as (c & ->). discriminate.
Qed.

Lemma later_of_fold_latest l : forall best c,
  fold_left later_of l best = Some c ->
  (forall b, best = Some b -> (c_created_at b <= c_created_at c)%Z)
  /\ (forall x, In x l -> (c_created_at x <= c_created_at c)%Z).
Proof.
  induction l as [|x l IH]; simpl; intros best c H.
  - split; [|contradiction]. intros b ->. injection H as ->. lia.
  - destruct (IH _ _ H) as [Hbest Hl]. split.
    + intros b ->. simpl in Hbest.
      destruct (c_created_at b <? c_created_at x)%Z eqn:Hlt.
      * apply Z.ltb_lt in Hlt. specialize (Hbest x eq_refl). lia.
      * now apply Hbest.
    + intros y [<-|Hy]; [|now apply Hl].
      unfold later_of in Hbest. destruct best as [b|].
      * destruct (c_created_at b <? c_created_at x)%Z eqn:Hlt.
        -- now apply Hbest.
        -- apply Z.ltb_ge in Hlt. specialize (Hbest b eq_refl). lia.
      * now apply Hbest.
Qed.

(** [getChallenge] yields nothing exactly when the pair has no unused
    challenge; otherwise it yields a stored, unused challenge of the pair
    that no other unused challenge of the pair was created after. *)
Theorem getChallenge_picks_latest_open d sid dp :
  match getChallenge d sid dp with
  | None => forall c, In c (challenges d) -> open_for sid dp c = false
  | Some c =>
      In c (challenges d) /\ c_session_id c = sid /\ c_dp_id c = dp
      /\ used c = false
      /\ forall c', In c' (challenges d) -> open_for sid dp c' = true ->
                    (c_created_at c' <= c_created_at c)%Z
  end.
Proof.
  destruct (getChallenge d sid dp) as [c|] eqn:Hget.
  - pose proof (getChallenge_open d sid dp c Hget) as (Hin & Hs & Hd & Hu).
    repeat (split; [assumption|]). intros c' Hin' Hopen.
    unfold getChallenge in Hget. apply later_of_fold_latest in Hget as [_ Hl].
    apply Hl. apply filter_In. now split.
  - intros c Hin. unfold getChallenge in Hget. apply later_of_fold_none in Hget.
    destruct (open_for sid dp c) eqn:Hopen; [|reflexivity].
    assert (Hc : In c (List.filter (open_for sid dp) (challenges d)))
      by (apply filter_In; now split).
    rewrite Hget in Hc. contradiction.
Qed.

(** A challenge added after every open challenge of its pair was created
    is the one picked. *)
Lemma getChallenge_app_latest d sid dp c :
  open_for sid dp c = true ->
  (forall c', In c' (challenges d) -> open_for sid dp c' = true ->
              (c_created_at c' < c_created_at c)%Z) ->
  getChallenge (with_challenges d (challenges d ++ [c])) sid dp = Some c.
Proof.
  intros Hopen Hlater. unfold getChallenge. cbn [challenges with_challenges].
  rewrite List.filter_app. simpl. rewrite Hopen. rewrite fold_left_app. simpl.
  destruct (fold_left later_of (List.filter (open_for sid dp) (challenges d)) None)
    as [b|] eqn:Hb; [|reflexivity].
  apply later_of_fold in Hb as [Hb|Hb]; [|discriminate].
  apply filter_In in Hb as [Hin Hob]. simpl.
  pose proof (Hlater b Hin Hob) as Hlt. apply Z.ltb_lt in Hlt. now rewrite Hlt.
Qed.

(** A challenge is issued only to a registered partner for a stored
    session that is active and has not passed its expiry; the nonce of the
    answer is the stored one, and when every unused challenge of the pair
    was created before it, the challenge just issued is the one the next
    proof of the pair is checked against. *)
Theorem challenge_is_issued_only_when_checked sid dp_id env w nonce iso :
  fst (post_challenge sid dp_id env w) = ChallengeIssued nonce iso ->
  exists dp session dpKey,
    let c := issued_challenge sid dp env in
    let w' := snd (post_challenge sid dp_id env w) in
    given dp_id = Some dp
    /\ getSession (store w) sid = Some session
    /\ (clock env 0 <= s_expires_at session)%Z
    /\ s_status session = "active"
    /\ getDPKey (store w) dp = Some dpKey
    /\ nonce = challenge_nonce c
    /\ toISOString (c_expires_at c) = Some iso
    /\ challenges (store w') = challenges (store w) ++ [c]
    /\ ((forall c', In c' (challenges (store w)) -> open_for sid dp c' = true ->
                    (c_created_at c' < clock env 1)%Z) ->
        getChallenge (store w') sid dp = Some c).
Proof.
  intros Hr.
  destruct (post_challenge_cases sid dp_id env w)
    as [(code & msg & _ & He)|[[_ He]
        |(dp & s & k & Hdp & Hs & Hexp & Hact & Hk & _ & Hw & [[_ He]|(i & Hiso & He)])]];
    rewrite He in Hr; try discriminate.
  injection Hr as <- <-. exists dp, s, k. cbv zeta. rewrite Hw.
  apply Z.ltb_ge in Hexp.
  repeat (split; [assumption || reflexivity|]).
  intros Hlater. cbn [store with_store].
  apply getChallenge_app_latest; [|exact Hlater].
  unfold open_for, issued_challenge. cbn. now rewrite !String.eqb_refl.
Qed.

End Selection.

(** The challenge of the examples, asked at 3000. *)
Lemma challenge_is_issued_only_when_checked_witness :
  getChallenge
    (store (snd (post_challenge (P := Demo.platform) Scenario.sid (Some Scenario.dp)
                   (Demo.env "c" 3000) opened)))
    Scenario.sid Scenario.dp
  = Some (ScenarioFacts.the_challenge 3000).
Proof.
  assert (Hr : exists iso,
             fst (post_challenge (P := Demo.platform) Scenario.sid (Some Scenario.dp)
                    (Demo.env "c" 3000) opened)
             = ChallengeIssued Scenario.nonce iso) by (eexists; by_running).
  destruct Hr as (iso & Hr).
  destruct (challenge_is_issued_only_when_checked (P := Demo.platform) _ _ _ _ _ _ Hr)
    as (dp & s & k & Hdp & _ & _ & _ & _ & _ & _ & _ & Hget).
  injection Hdp as <-. rewrite Hget; [by_running|].
  intros c' Hin. vm_compute in Hin. contradiction.
Defined.

(** ** Events, their reports and the ledger *)

Section Reports.

Context {P : Platform}.

Lemma given_bytes32 h n : bytes32_of_hex h = Some n -> given (Some h) = Some h.
Proof. destruct h; [discriminate|reflexivity]. Qed.

(** A stored event is never altered or removed: whatever requests follow,
    looking it up yields the same row, and its verification reports the
    same nine stored fields. *)
Theorem stored_event_is_never_altered w id e rqs env :
  getDeliveryEvent (store w) id = Some e ->
  getDeliveryEvent (store (serve_all rqs w)) id = Some e
  /\ exists r,
       get_verify id env (serve_all rqs w) = (Report r, serve_all rqs w)
       /\ (v_event_id r, v_session_id r, v_order_id r, v_dp_id r, v_timestamp r,
           v_status r, v_tx_hash r, v_anchor_hash r, v_anchored_at r)
          = reported e.
Proof.
  intros He. pose proof (event_stays rqs w id e He) as Hlater.
  split; [exact Hlater|].
  destruct (get_verify_found id env _ e Hlater) as (b & Hr & _).
  eexists. split; [exact Hr|reflexivity].
Qed.

(** The event of a delivery answered "verified" can be looked up under the
    returned id from then on.  Its report shows the returned transaction
    hash; without one the event is "pending" and not confirmed by the
    ledger; with one it is "anchored", and the ledger confirms it whenever
    the node can be reached. *)
Theorem verified_delivery_is_reported req env w evt txHash w1 :
  post_deliveries req env w = (Verified evt txHash, w1) ->
  forall rqs env2,
    exists r,
      get_verify evt env2 (serve_all rqs w1) = (Report r, serve_all rqs w1)
      /\ v_event_id r = evt
      /\ v_tx_hash r = txHash
      /\ v_status r = match txHash with Some _ => "anchored" | None => "pending" end
      /\ (v_anchor_hash r = None <-> txHash = None)
      /\ blockchain_verified r = match txHash with Some _ => rpc_ok env2 | None => false end.
Proof.
  intros Hr rqs env2.
  destruct (verified_cases req env w evt txHash w1 Hr)
    as (t & _ & _ & Hevt & _ & Hget & Hcase).
  pose proof (event_stays rqs w1 evt _ Hget) as Hlater.
  destruct (get_verify_found evt env2 _ _ Hlater) as (b & Hrep & Hb).
  eexists. split; [exact Hrep|]. cbn [v_event_id v_tx_hash v_status v_anchor_hash
                                      blockchain_verified].
  assert (Hpending : txHash = None ->
            v_event_id
              {| v_event_id := event_id (stored_event t env txHash);
                 v_session_id := e_session_id (stored_event t env txHash);
                 v_order_id := e_order_id (stored_event t env txHash);
                 v_dp_id := e_dp_id (stored_event t env txHash);
                 v_timestamp := timestamp (stored_event t env txHash);
                 v_status := e_status (stored_event t env txHash);
                 v_tx_hash := tx_hash (stored_event t env txHash);
                 v_anchor_hash := anchor_hash (stored_event t env txHash);
                 v_anchored_at := anchored_at (stored_event t env txHash);
                 blockchain_verified := b |} = evt
            /\ tx_hash (stored_event t env txHash) = txHash
            /\ e_status (stored_event t env txHash)
               = match txHash with Some _ => "anchored" | None => "pending" end
            /\ (anchor_hash (stored_event t env txHash) = None <-> txHash = None)
            /\ b = match txHash with Some _ => rpc_ok env2 | None => false end).
  { intros ->. cbn [stored_event] in *. repeat (split; [now cbn|]).
    destruct b; [|reflexivity]. destruct Hb as [Hb _].
    destruct (Hb eq_refl) as (? & ? & ? & _ & Hgiven & _). discriminate. }
  destruct Hcase as [[Hnone _]|(chain & n & Hc & _ & Hn & Hh
                     & [(Hnone & _ & _)|(-> & _ & Hw1)])];
    try (now apply Hpending).
  cbn [stored_event] in *.
  split; [now cbn|]. split; [reflexivity|]. split; [reflexivity|].
  split; [split; discriminate|].
  assert (Hc1 : contract w1
                = Some (AnchorRegistry.emit (AnchorRegistry.set_anchored chain n)
                          (anchor_record env n (event_id (eventData_of t env)))))
    by now subst w1.
  destruct (contract_stays rqs w1 _ Hc1) as (chain' & Hc' & Hext & _).
  assert (Hon : AnchorRegistry.isAnchored chain' n = true).
  { apply Hext. rewrite isAnchored_emit, isAnchored_set. now rewrite N.eqb_refl. }
  destruct (rpc_ok env2) eqn:Hrpc.
  + apply Hb. exists chain', (anchor_hash_of t env), n.
    split; [exact Hc'|]. split; [exact (given_bytes32 _ _ Hn)|].
    split; [exact Hrpc|]. split; [exact Hn|exact Hon].
  + destruct b; [|reflexivity]. destruct Hb as [Hb _].
    destruct (Hb eq_refl) as (? & ? & ? & _ & _ & Hok & _). congruence.
Qed.

(** Without a contract handle nothing is ever anchored: the handle stays
    absent, every delivery answered "verified" carries no transaction hash,
    and every verification reports that the ledger does not confirm. *)
Theorem without_contract_nothing_is_anchored w rqs rq env :
  contract w = None ->
  contract (serve_all rqs w) = None
  /\ (forall evt txHash,
        fst (serve rq env (serve_all rqs w)) = Verified evt txHash -> txHash = None)
  /\ (forall r,
        fst (serve rq env (serve_all rqs w)) = Report r -> blockchain_verified r = false).
Proof.
  intros Hc. pose proof (no_contract_stays rqs w Hc) as Hnone.
  split; [exact Hnone|]. set (w2 := serve_all rqs w) in *. split.
  - intros evt txHash Hr. destruct rq as [req|sid dp_id|req|id|dp_id public_key];
      simpl in Hr.
    + destruct (post_sessions_cases req env w2)
        as [[_ He]|[[_ He]|(c & o & _ & _ & _ & _ & [[_ He]|(iso & _ & He)])]];
        rewrite He in Hr; discriminate.
    + destruct (post_challenge_cases sid dp_id env w2)
        as [(c & m & _ & He)|[[_ He]
            |(dp & s & k & _ & _ & _ & _ & _ & _ & _ & [[_ He]|(iso & _ & He)])]];
        rewrite He in Hr; discriminate.
    + destruct (post_deliveries req env w2) as [r w3] eqn:Hrun. cbn in Hr. subst r.
      destruct (verified_cases req env w2 evt txHash w3 Hrun)
        as (_ & _ & _ & _ & _ & _ & [[-> _]|(chain & n & Hsome & _)]);
        [reflexivity|congruence].
    + unfold get_verify, handle, get_verify_body, bind, query, ret in Hr.
      destruct (getDeliveryEvent _ _); discriminate.
    + destruct (post_dp_register_cases dp_id public_key env w2)
        as [(c & m & _ & He)|(id & key & _ & _ & He)];
        rewrite He in Hr; discriminate.
  - intros r Hr. destruct rq as [req|sid dp_id|req|id|dp_id public_key];
      simpl in Hr.
    + destruct (post_sessions_cases req env w2)
        as [[_ He]|[[_ He]|(c & o & _ & _ & _ & _ & [[_ He]|(iso & _ & He)])]];
        rewrite He in Hr; discriminate.
    + destruct (post_challenge_cases sid dp_id env w2)
        as [(c & m & _ & He)|[[_ He]
            |(dp & s & k & _ & _ & _ & _ & _ & _ & _ & [[_ He]|(iso & _ & He)])]];
        rewrite He in Hr; discriminate.
    + destruct (post_deliveries_worlds req env w2)
        as [(c & m & He)|(t & _ & _ & [[_ He]|[[_ He]|(_ & ch & n & _ & _ & _ & _
          & [[_ He]|[_ He]])]])];
        rewrite He in Hr; discriminate.
    + unfold get_verify, handle, get_verify_body, bind, query, ret in Hr.
      destruct (getDeliveryEvent _ _); [|discriminate].
      rewrite Hnone in Hr. cbn in Hr. now injection Hr as <-.
    + destruct (post_dp_register_cases dp_id public_key env w2)
        as [(c & m & _ & He)|(id & key & _ & _ & He)];
        rewrite He in Hr; discriminate.
Qed.

End Reports.

(** The anchored delivery of the examples. *)
Lemma delivered_at_4000 :
  post_deliveries (P := Demo.platform) (Scenario.proof Scenario.right_hash)
    (Demo.env "d" 4000) (Scenario.issued 300 3000 (Some AnchorRegistry.genesis))
  = (Verified "evt_6464646464646464" (Some (receipt_hash (Demo.env "d" 4000))),
     delivered).
Proof. by_running. Qed.

(** The requests of a second customer, after the delivery of the examples. *)
Definition second_customer : list (request * io) :=
  [ (PostSessions {| sr_customer_id := Some "cus_2"; sr_order_id := Some "ord_2";
                     sr_ttl_seconds := None |}, Demo.env "e" 5000);
    (PostChallenge "s_6565656565656565" (Some Scenario.dp), Demo.env "f" 6000) ].

Lemma stored_event_is_never_altered_witness :
  getDeliveryEvent
    (store (serve_all (P := Demo.platform) second_customer delivered))
    "evt_6464646464646464"
  = getDeliveryEvent (store delivered) "evt_6464646464646464".
Proof.
  assert (He : exists e,
             getDeliveryEvent (store delivered) "evt_6464646464646464" = Some e)
    by (eexists; by_running).
  destruct He as (e & He). rewrite He.
  exact (proj1 (stored_event_is_never_altered (P := Demo.platform) delivered _ e
                  second_customer (Demo.env "g" 7000) He)).
Defined.

Lemma verified_delivery_is_reported_witness :
  exists r,
    get_verify "evt_6464646464646464" (Demo.env "g" 7000)
      (serve_all (P := Demo.platform) second_customer delivered)
    = (Report r, serve_all (P := Demo.platform) second_customer delivered)
    /\ v_status r = "anchored"
    /\ blockchain_verified r = true.
Proof.
  destruct (verified_delivery_is_reported (P := Demo.platform) _ _ _ _ _ _
              delivered_at_4000 second_customer (Demo.env "g" 7000))
    as (r & Hr & _ & _ & Hst & _ & Hb).
  exists r. split; [exact Hr|]. split; [exact Hst|exact Hb].
Defined.

(** The delivery of the examples, served without a contract handle. *)
Lemma without_contract_nothing_is_anchored_witness :
  exists evt,
    fst (serve (P := Demo.platform)
           (PostDeliveries (Scenario.proof Scenario.right_hash)) (Demo.env "d" 4000)
           (Scenario.issued 300 3000 None))
    = Verified evt None.
Proof.
  assert (Hr : exists evt txHash,
             fst (serve (P := Demo.platform)
                    (PostDeliveries (Scenario.proof Scenario.right_hash))
                    (Demo.env "d" 4000) (Scenario.issued 300 3000 None))
             = Verified evt txHash) by (eexists _, _; by_running).
  destruct Hr as (evt & txHash & Hr). exists evt. rewrite Hr. f_equal.
  exact (proj1 (proj2 (without_contract_nothing_is_anchored (P := Demo.platform)
                         (Demo.fresh None)
                         [ (PostRegister (Some (JStr Scenario.dp)) (Some (JStr Demo.key)),
                            Demo.env "a" 1000);
                           (PostSessions {| sr_customer_id := Some "cus_1";
                                            sr_order_id := Some "ord_1";
                                            sr_ttl_seconds := Some 300%Z |},
                            Demo.env "b" 2000);
                           (PostChallenge Scenario.sid (Some Scenario.dp),
                            Demo.env "c" 3000) ]
                         (PostDeliveries (Scenario.proof Scenario.right_hash))
                         (Demo.env "d" 4000) eq_refl)) evt txHash Hr).
Defined.

(** ** Invariants of the store *)

Section StoreInvariants.

Context {P : Platform}.

(** *** Anchored events and the ledger *)

(** An event without an anchor hash is pending and has no transaction; an
    event with one is anchored, the hash is the one of the event as the
    handler built it, and the chain behind the contract handle holds the
    hash with a record that names the event. *)
Definition on_ledger (w : world) (e : delivery_event) : Prop :=
  match anchor_hash e with
  | None => tx_hash e = None /\ anchored_at e = None /\ e_status e = "pending"
  | Some h =>
      hash_as_built e h
      /\ tx_hash e <> None /\ anchored_at e <> None /\ e_status e = "anchored"
      /\ exists chain n record,
           contract w = Some chain
           /\ bytes32_of_hex h = Some n
           /\ AnchorRegistry.isAnchored chain n = true
           /\ In record (AnchorRegistry.records_of chain n)
           /\ AnchorRegistry.log_eventId record = event_id e
  end.

Definition ledger_agrees (w : world) : Prop :=
  forall e, In e (delivery_events (store w)) -> on_ledger w e.

Lemma on_ledger_extends w w' chain chain' e :
  contract w = Some chain -> contract w' = Some chain' -> extends chain chain' ->
  on_ledger w e -> on_ledger w' e.
Proof.
  intros Hc Hc' (Ha & Hr & _). unfold on_ledger.
  destruct (anchor_hash e) as [h|]; [|trivial].
  intros (Hh & Htx & Hat & Hst & chain0 & n & record & Hc0 & Hn & Hon & Hin & Hid).
  rewrite Hc in Hc0. injection Hc0 as <-.
  repeat (split; [assumption|]). exists chain', n, record.
  split; [assumption|]. split; [assumption|]. split; [now apply Ha|].
  split; [now rewrite Hr|assumption].
Qed.

Lemma on_ledger_same w w' e :
  contract w' = contract w -> on_ledger w e -> on_ledger w' e.
Proof.
  intros Hc. unfold on_ledger. destruct (anchor_hash e); [|trivial]. now rewrite Hc.
Qed.

Lemma in_anchor_map id h txh time l e' :
  In e' (List.map (fun e => if String.eqb (event_id e) id
                            then set_anchor h txh time e else e) l) ->
  exists e, In e l
            /\ ((event_id e <> id /\ e' = e)
                \/ (event_id e = id /\ e' = set_anchor h txh time e)).
Proof.
  intros Hin. apply in_map_iff in Hin as (e & He & Hin). exists e. split; [exact Hin|].
  destruct (String.eqb_spec (event_id e) id); [right|left]; now split.
Qed.

Lemma in_recorded d t env e :
  In e (delivery_events (recorded d t env)) ->
  In e (delivery_events d) \/ e = eventData_of t env.
Proof.
  unfold recorded, updateSessionStatus.
  cbn [delivery_events with_events with_sessions].
  intros Hin. apply in_app_or in Hin as [Hin|[<-|[]]]; [now left|now right].
Qed.

Lemma ledger_agrees_effect w w' : ledger_agrees w -> effect w w' -> ledger_agrees w'.
Proof.
  intros Hinv He.
  destruct He as [|s Hf Hst|c s k Hs Hact Hk Hf Hu|id key now Hnone|req env t Hadm
                  |req env t Hadm Hfresh
                  |req env t chain n Hadm Hfresh Hc Hn Hh|req env t chain n Hadm Hfresh Hc Hn Hh];
    try exact Hinv;
    try (intros e Hin; apply (on_ledger_same w); [reflexivity|now apply Hinv]).
  - intros e Hin. apply in_recorded in Hin as [Hin| ->].
    + apply (on_ledger_same w); [reflexivity|now apply Hinv].
    + unfold on_ledger. cbn. now repeat split.
  - intros e Hin. cbn [store sent_world recorded_world with_store] in Hin.
    apply in_recorded in Hin as [Hin| ->].
    + eapply on_ledger_extends;
        [exact Hc|reflexivity|now apply (extends_anchor chain (tx env) n)
        |now apply Hinv].
    + unfold on_ledger. cbn. now repeat split.
  - intros e' Hin. cbn [store anchored_world recorded_world] in Hin.
    unfold updateEventAnchor in Hin. cbn [delivery_events with_events] in Hin.
    apply in_anchor_map in Hin as (e & Hin & Hcase).
    cbn [store with_store] in Hin. apply in_recorded in Hin as [Hold| ->].
    + pose proof (getDeliveryEvent_none _ _ _ Hfresh Hold) as Hne.
      destruct Hcase as [[_ ->]|[Heq _]]; [|contradiction].
      eapply on_ledger_extends;
        [exact Hc|reflexivity|now apply (extends_anchor chain (tx env) n)
        |now apply Hinv].
    + destruct Hcase as [[Hne _]|[_ ->]]; [contradiction|].
      unfold on_ledger. cbn [anchor_hash set_anchor tx_hash anchored_at e_status].
      split; [apply hash_as_built_ticket|]. split; [discriminate|].
      split; [discriminate|].
      split; [reflexivity|].
      eexists _, n, (anchor_record env n (event_id (eventData_of t env))).
      split; [reflexivity|]. split; [exact Hn|].
      split; [rewrite isAnchored_emit, isAnchored_set; now rewrite N.eqb_refl|].
      split; [|reflexivity].
      rewrite records_emit. cbn [AnchorRegistry.log_anchorHash anchor_record].
      rewrite N.eqb_refl. apply in_or_app. right. now left.
Qed.

(** In every state the server reaches from an empty store by requests
    served one after the other, whatever chain its contract handle points
    at, each stored event is either pending, with no anchor hash and no
    transaction hash, or anchored, with the hash of the canonical form of
    the event as the handler built it, which the chain holds under a record
    that names the event. *)
Theorem anchored_events_are_on_the_ledger rqs c :
  ledger_agrees (serve_all rqs {| store := empty_db; contract := c |}).
Proof.
  apply (serve_all_keeps ledger_agrees).
  - intros w w'. apply ledger_agrees_effect.
  - intros e [].
Qed.

(** *** Events and the rows they were minted from *)

(** The session of the event is stored and completed and gave the event
    its order, its customer and its token hash; a used challenge of the
    event's session and partner carries its nonce; the partner has a key. *)
Definition backed (d : db) (e : delivery_event) : Prop :=
  exists s c k,
    getSession d (e_session_id e) = Some s
    /\ s_status s = "completed"
    /\ e_order_id e = s_order_id s
    /\ e_customer_id e = s_customer_id s
    /\ ephemeral_token_hash e = ("sha256:" ++ hashString (ephemeral_token s))%string
    /\ In c (challenges d)
    /\ c_session_id c = e_session_id e /\ c_dp_id c = e_dp_id e
    /\ challenge_nonce c = e_challenge_nonce e /\ used c = true
    /\ getDPKey d (e_dp_id e) = Some k.

Definition events_backed (w : world) : Prop :=
  forall e, In e (delivery_events (store w)) -> backed (store w) e.

Lemma backed_effect w w' e : effect w w' -> backed (store w) e -> backed (store w') e.
Proof.
  intros He (s & c & k & Hs & Hst & Ho & Hcu & Hth & Hin & Hcs & Hcd & Hn & Hu & Hk).
  pose proof (effect_key_stays w w' _ k He Hk) as Hk'.
  assert (Hc' : exists c', In c' (challenges (store w'))
                           /\ c_session_id c' = e_session_id e
                           /\ c_dp_id c' = e_dp_id e
                           /\ challenge_nonce c' = e_challenge_nonce e
                           /\ used c' = true).
  { destruct (effect_challenge_stays w w' c He Hin) as [H|H];
      eexists; (split; [exact H|]); now repeat split. }
  destruct Hc' as (c' & Hin' & Hcs' & Hcd' & Hn' & Hu').
  destruct (effect_session_stays w w' _ s He Hs) as [Hs'|Hs'].
  - exists s, c', k. now repeat split.
  - exists (set_status "completed" s), c', k. now repeat split.
Qed.

Lemma backed_tables d d' e :
  sessions d' = sessions d -> challenges d' = challenges d -> dp_keys d' = dp_keys d ->
  backed d e -> backed d' e.
Proof.
  intros Hs Hc Hk. unfold backed, getSession, getDPKey. now rewrite Hs, Hc, Hk.
Qed.

Lemma backed_new req env w t :
  admitted req env w t -> backed (recorded (store w) t env) (eventData_of t env).
Proof.
  intros (k & m & md & (_ & _ & Hsess & Hch & _ & Hkey) & _).
  pose proof (getChallenge_open _ _ _ _ Hch) as (Hin & Hcs & Hcd & _).
  exists (set_status "completed" (t_session t)), (set_used (t_challenge t)), k.
  split.
  { rewrite (getSession_recorded _ t env _ _ Hsess).
    apply find_some in Hsess as [_ Hid]. cbv beta in Hid. now rewrite Hid. }
  repeat (split; [reflexivity || assumption|]).
  split.
  { unfold recorded, updateSessionStatus.
    cbn [challenges with_sessions with_events markChallengeUsed with_challenges].
    apply in_map_iff. exists (t_challenge t). rewrite String.eqb_refl. now split. }
  repeat (split; [reflexivity || assumption|]). exact Hkey.
Qed.

Lemma events_backed_effect w w' : events_backed w -> effect w w' -> events_backed w'.
Proof.
  intros Hinv He. pose proof (fun e => backed_effect w w' e He) as Hstep.
  destruct He; try exact Hinv; try (intros e Hin; apply Hstep; now apply Hinv).
  - intros e Hin. apply in_recorded in Hin as [Hin| ->].
    + apply Hstep. now apply Hinv.
    + now apply (backed_new req).
  - intros e Hin. cbn [store sent_world recorded_world with_store] in Hin.
    apply in_recorded in Hin as [Hin| ->].
    + apply Hstep. now apply Hinv.
    + now apply (backed_new req).
  - intros e' Hin. cbn [store anchored_world recorded_world] in Hin.
    unfold updateEventAnchor in Hin. cbn [delivery_events with_events] in Hin.
    apply in_anchor_map in Hin as (e & Hin & Hcase).
    cbn [store with_store] in Hin.
    assert (He : backed
                   (store (anchored_world (recorded_world w t env) t env chain n)) e).
    { apply in_recorded in Hin as [Hold| ->].
      - apply Hstep. now apply Hinv.
      - apply (backed_tables (recorded (store w) t env)); try reflexivity.
        now apply (backed_new req). }
    destruct Hcase as [[_ ->]|[_ ->]]; exact He.
Qed.

Lemma events_backed_reached rqs c :
  events_backed (serve_all rqs {| store := empty_db; contract := c |}).
Proof.
  apply (serve_all_keeps events_backed).
  - intros w w'. apply events_backed_effect.
  - intros e [].
Qed.

(** In every state the server reaches from an empty store, each stored
    event refers to a stored session that is completed and whose order,
    customer and token hash it carries, to a used challenge of its session
    and partner that carries its nonce, and to a partner with a key. *)
Theorem events_are_backed_by_session_and_challenge rqs c :
  events_backed (serve_all rqs {| store := empty_db; contract := c |}).
Proof.
  apply (serve_all_keeps events_backed).
  - intros w w' Hinv He e Hin. now apply (events_backed_effect w w' Hinv He).
  - intros e Hin. contradiction.
Qed.

End StoreInvariants.

(** The anchored event of the examples. *)
Lemma anchored_events_are_on_the_ledger_witness :
  exists e,
    getDeliveryEvent (store delivered) "evt_6464646464646464" = Some e
    /\ anchor_hash e <> None
    /\ on_ledger (P := Demo.platform) delivered e.
Proof.
  assert (He : exists e h,
             getDeliveryEvent (store delivered) "evt_6464646464646464" = Some e
             /\ anchor_hash e = Some h).
  { eexists _, _. split; by_running. }
  destruct He as (e & h & Hget & Hh).
  exists e. split; [exact Hget|]. split; [congruence|].
  pose proof (getDeliveryEvent_in _ _ _ Hget) as Hin.
  rewrite delivered_history in Hin |- *.
  exact (anchored_events_are_on_the_ledger (P := Demo.platform) delivery_history
           (Some AnchorRegistry.genesis) e Hin).
Defined.

Lemma events_are_backed_by_session_and_challenge_witness :
  exists e,
    getDeliveryEvent (store delivered) "evt_6464646464646464" = Some e
    /\ backed (P := Demo.platform) (store delivered) e.
Proof.
  assert (He : exists e,
             getDeliveryEvent (store delivered) "evt_6464646464646464" = Some e)
    by (eexists; by_running).
  destruct He as (e & Hget).
  exists e. split; [exact Hget|].
  pose proof (getDeliveryEvent_in _ _ _ Hget) as Hin.
  rewrite delivered_history in Hin |- *.
  exact (events_are_backed_by_session_and_challenge (P := Demo.platform)
           delivery_history (Some AnchorRegistry.genesis) e Hin).
Defined.

(** ** Primary keys *)

Section PrimaryKeys.

Context {P : Platform}.

Lemma find_none_not_in {A} (key : A -> string) id l :
  List.find (fun x => String.eqb (key x) id) l = None -> ~ In id (List.map key l).
Proof.
  intros Hnone Hin. apply in_map_iff in Hin as (x & Hx & Hin).
  pose proof (find_none _ _ Hnone x Hin) as H. cbv beta in H.
  rewrite Hx, String.eqb_refl in H. discriminate.
Qed.

Lemma NoDup_snoc {A} (l : list A) x : List.NoDup l -> ~ In x l -> List.NoDup (l ++ [x]).
Proof.
  induction l as [|y l IH]; intros Hl Hx; simpl.
  - constructor; [intros []|constructor].
  - inversion Hl as [|? ? Hy Hl']; subst. constructor.
    + intros Hin. apply in_app_or in Hin as [Hin|[->|[]]]; [contradiction|].
      apply Hx. now left.
    + apply IH; [exact Hl'|]. intros Hin. apply Hx. now right.
Qed.

Lemma map_key_map {A} (key : A -> string) (g : A -> A) l :
  (forall x, key (g x) = key x) -> List.map key (List.map g l) = List.map key l.
Proof.
  intros Hg. induction l as [|x l IH]; simpl; [reflexivity|]. now rewrite Hg, IH.
Qed.

Lemma NoDup_map_filter {A} (key : A -> string) (f : A -> bool) l :
  List.NoDup (List.map key l) -> List.NoDup (List.map key (List.filter f l)).
Proof.
  induction l as [|x l IH]; simpl; intros Hl; [constructor|].
  inversion Hl as [|? ? Hx Hl']; subst.
  destruct (f x); simpl; [|now apply IH]. constructor; [|now apply IH].
  intros Hin. apply Hx. apply in_map_iff in Hin as (y & Hy & Hin).
  apply filter_In in Hin as [Hin _]. apply in_map_iff. now exists y.
Qed.

Lemma find_by_key {A} (key : A -> string) (also : A -> bool) l x :
  List.NoDup (List.map key l) -> In x l -> also x = true ->
  List.find (fun y => String.eqb (key y) (key x) && also y) l = Some x.
Proof.
  induction l as [|y l IH]; simpl; intros Hl Hin Hx; [contradiction|].
  inversion Hl as [|? ? Hy Hl']; subst. destruct Hin as [->|Hin].
  - now rewrite String.eqb_refl, Hx.
  - destruct (String.eqb_spec (key y) (key x)) as [Heq|]; [|now apply IH].
    exfalso. apply Hy. rewrite Heq. now apply in_map.
Qed.

Lemma find_key {A} (key : A -> string) l x :
  List.NoDup (List.map key l) -> In x l ->
  List.find (fun y => String.eqb (key y) (key x)) l = Some x.
Proof.
  induction l as [|y l IH]; simpl; intros Hl Hin; [contradiction|].
  inversion Hl as [|? ? Hy Hl']; subst. destruct Hin as [->|Hin].
  - now rewrite String.eqb_refl.
  - destruct (String.eqb_spec (key y) (key x)) as [Heq|]; [|now apply IH].
    exfalso. apply Hy. rewrite Heq. now apply in_map.
Qed.

(** No two rows of a table share its primary key, and every key is active. *)
Definition keys_unique (d : db) : Prop :=
  List.NoDup (List.map session_id (sessions d))
  /\ List.NoDup (List.map challenge_id (challenges d))
  /\ List.NoDup (List.map event_id (delivery_events d))
  /\ List.NoDup (List.map dp_id (dp_keys d))
  /\ (forall k, In k (dp_keys d) -> k_status k = "active").

Lemma keys_unique_recorded d t env :
  getDeliveryEvent d (event_id (eventData_of t env)) = None ->
  keys_unique d -> keys_unique (recorded d t env).
Proof.
  intros Hfresh (Hs & Hc & He & Hk & Ha). unfold recorded, updateSessionStatus.
  repeat split;
    cbn [sessions challenges delivery_events dp_keys with_sessions with_events
         with_challenges markChallengeUsed]; trivial.
  - rewrite map_key_map; [exact Hs|]. intros s. now destruct (String.eqb _ _).
  - rewrite map_key_map; [exact Hc|]. intros c. now destruct (String.eqb _ _).
  - rewrite List.map_app. apply NoDup_snoc; [exact He|].
    now apply (find_none_not_in event_id).
Qed.

Lemma keys_unique_effect w w' :
  keys_unique (store w) -> effect w w' -> keys_unique (store w').
Proof.
  intros Hinv He. pose proof Hinv as (Hs & Hc & Hev & Hk & Ha).
  destruct He as [|s Hf Hst|c s k Hsess Hact Hkey Hf Hu|id key now Hnone|req env t Hadm
                  |req env t Hadm Hfresh
                  |req env t chain n Hadm Hfresh Hch Hn Hh|req env t chain n Hadm Hfresh Hch Hn Hh];
    try exact Hinv.
  - repeat split; cbn; trivial. rewrite List.map_app. apply NoDup_snoc; [exact Hs|].
    now apply (find_none_not_in session_id).
  - repeat split; cbn; trivial. rewrite List.map_app. apply NoDup_snoc; [exact Hc|].
    now apply (find_none_not_in challenge_id).
  - repeat split; cbn [store with_store sessions challenges delivery_events dp_keys
                       registerDPKey with_keys]; trivial.
    + rewrite List.map_app. apply NoDup_snoc; [now apply NoDup_map_filter|].
      intros Hin. apply in_map_iff in Hin as (k & Hid & Hin).
      apply filter_In in Hin as [_ Hne]. rewrite Hid, String.eqb_refl in Hne.
      discriminate.
    + intros k Hin. apply in_app_or in Hin as [Hin|[<-|[]]]; [|reflexivity].
      apply filter_In in Hin as [Hin _]. now apply Ha.
  - repeat split; cbn [store with_store sessions challenges delivery_events dp_keys
                       markChallengeUsed with_challenges]; trivial.
    rewrite map_key_map; [exact Hc|]. intros c. now destruct (String.eqb _ _).
  - now apply keys_unique_recorded.
  - now apply (keys_unique_recorded _ t env).
  - pose proof (keys_unique_recorded _ t env Hfresh Hinv) as (Hs' & Hc' & Hev' & Hk' & Ha').
    repeat split; cbn [store anchored_world recorded_world with_store sessions
                       challenges delivery_events dp_keys updateEventAnchor
                       with_events]; trivial.
    rewrite map_key_map; [exact Hev'|]. intros e. now destruct (String.eqb _ _).
Qed.

Lemma keys_unique_reached rqs c :
  keys_unique (store (serve_all rqs {| store := empty_db; contract := c |})).
Proof.
  apply (serve_all_keeps (fun w => keys_unique (store w))).
  - intros w w'. apply keys_unique_effect.
  - repeat split; try constructor. intros k [].
Qed.

(** In every state the server reaches from an empty store no two rows of a
    table share its primary key, so each look-up by key has one candidate:
    a stored session, event or key is what [getSession], [getDeliveryEvent]
    and [getDPKey] return for its id. *)
Theorem stored_rows_are_found_by_their_keys rqs c :
  let d := store (serve_all rqs {| store := empty_db; contract := c |}) in
  List.NoDup (List.map session_id (sessions d))
  /\ List.NoDup (List.map challenge_id (challenges d))
  /\ List.NoDup (List.map event_id (delivery_events d))
  /\ List.NoDup (List.map dp_id (dp_keys d))
  /\ (forall s, In s (sessions d) -> getSession d (session_id s) = Some s)
  /\ (forall e, In e (delivery_events d) -> getDeliveryEvent d (event_id e) = Some e)
  /\ (forall k, In k (dp_keys d) -> getDPKey d (dp_id k) = Some k).
Proof.
  cbv zeta. destruct (keys_unique_reached rqs c) as (Hs & Hc & He & Hk & Ha).
  repeat (split; [assumption|]). split; [|split].
  - intros s Hin. now apply (find_key session_id).
  - intros e Hin. now apply (find_key event_id).
  - intros k Hin. unfold getDPKey.
    apply (find_by_key dp_id (fun k => String.eqb (k_status k) "active") _ k Hk Hin).
    rewrite (Ha k Hin). reflexivity.
Qed.

(** Whatever requests follow, a stored challenge is never removed, keeps
    its id, session, partner, nonce, creation time and expiry, and once
    used stays used. *)
Theorem challenge_is_never_removed_or_reopened w c rqs :
  In c (challenges (store w)) ->
  exists c',
    In c' (challenges (store (serve_all rqs w)))
    /\ challenge_id c' = challenge_id c
    /\ c_session_id c' = c_session_id c
    /\ c_dp_id c' = c_dp_id c
    /\ challenge_nonce c' = challenge_nonce c
    /\ c_created_at c' = c_created_at c
    /\ c_expires_at c' = c_expires_at c
    /\ (used c = true -> used c' = true).
Proof.
  intros Hin. destruct (challenge_stays rqs w c Hin) as [H|H]; eexists;
    (split; [exact H|]); cbn; repeat (split; [reflexivity|]); auto.
Qed.

End PrimaryKeys.

(** The used challenge of the examples, after the requests of a second
    customer. *)
Lemma challenge_is_never_removed_or_reopened_witness :
  exists c',
    In c' (challenges (store (serve_all (P := Demo.platform) second_customer delivered)))
    /\ challenge_nonce c' = Scenario.nonce
    /\ used c' = true.
Proof.
  assert (Hch : challenges (store delivered)
                = [set_used (ScenarioFacts.the_challenge 3000)]) by by_running.
  assert (Hin : In (set_used (ScenarioFacts.the_challenge 3000))
                  (challenges (store delivered))) by (rewrite Hch; now left).
  destruct (challenge_is_never_removed_or_reopened (P := Demo.platform) _ _
              second_customer Hin)
    as (c' & Hin' & _ & _ & _ & Hn & _ & _ & Hu).
  exists c'. split; [exact Hin'|]. split.
  - rewrite Hn. reflexivity.
  - apply Hu. reflexivity.
Defined.

(** The keys of the examples after the delivery. *)
Lemma stored_rows_are_found_by_their_keys_witness :
  getDPKey (store delivered) (dp_id ScenarioFacts.the_key) = Some ScenarioFacts.the_key.
Proof.
  assert (Hk : dp_keys (store delivered) = [ScenarioFacts.the_key]) by by_running.
  assert (Hin : In ScenarioFacts.the_key (dp_keys (store delivered)))
    by (rewrite Hk; now left).
  rewrite delivered_history in Hin |- *.
  destruct (stored_rows_are_found_by_their_keys (P := Demo.platform) delivery_history
              (Some AnchorRegistry.genesis)) as (_ & _ & _ & _ & _ & _ & Hfound).
  exact (Hfound _ Hin).
Defined.

(** ** Generated tokens and ids *)

Lemma hex_of_byte_is_hex b :
  is_hex_char (hex_digit (Byte.to_N b / 16)) && is_hex_char (hex_digit (Byte.to_N b mod 16))
  = true.
Proof. destruct b; vm_compute; reflexivity. Qed.

Lemma hex_of_bytes_is_hex bs : all_chars is_hex_char (hex_of_bytes bs) = true.
Proof.
  induction bs as [|b bs IH]; [reflexivity|].
  rewrite hex_of_bytes_cons. cbn [all_chars]. rewrite IH, andb_true_r.
  apply hex_of_byte_is_hex.
Qed.

Lemma append_inj_l (p x y : string) : (p ++ x = p ++ y)%string -> x = y.
Proof.
  induction p as [|c p IH]; [trivial|]. rewrite !append_cons. intros H.
  apply IH. now injection H.
Qed.

Lemma length_append (a b : string) :
  String.length (a ++ b)%string = String.length a + String.length b.
Proof.
  induction a as [|c a IH]; [reflexivity|]. rewrite append_cons. cbn [String.length].
  now rewrite IH.
Qed.

(** [generateToken(n)] is 2n hexadecimal characters that determine the n
    random bytes, so two tokens coincide only when their bytes do; a
    generated id is its prefix, an underscore and 16 such characters, and
    two ids of one prefix coincide only when their 8 bytes do. *)
Theorem generated_tokens_determine_their_bytes r off n prefix :
  String.length (generateToken r off n) = 2 * n
  /\ all_chars is_hex_char (generateToken r off n) = true
  /\ (forall r', generateToken r' off n = generateToken r off n ->
                 randomBytes r' off n = randomBytes r off n)
  /\ String.length (generateId r off prefix) = String.length prefix + 17
  /\ (forall r', generateId r' off prefix = generateId r off prefix ->
                 randomBytes r' off 8 = randomBytes r off 8).
Proof.
  unfold generateToken, generateId. split; [|split; [|split; [|split]]].
  - now rewrite length_hex_of_bytes, length_randomBytes.
  - apply hex_of_bytes_is_hex.
  - intros r' H. now apply hex_of_bytes_inj.
  - rewrite !length_append, length_hex_of_bytes, length_randomBytes. cbn. lia.
  - intros r' H. apply append_inj_l in H. apply append_inj_l in H.
    now apply hex_of_bytes_inj.
Qed.

(** ** What the server writes to the ledger *)

Section LedgerWrites.

Context {P : Platform}.

(** The chain behind the handle is the chain [c0] the server started with,
    followed by records that each name a stored event and carry the anchor
    hash of that event as the handler built it; the event is stored with
    that hash, or is pending without one when the transaction was not
    confirmed. *)
Definition records_accounted (c0 : AnchorRegistry.state) (w : world) : Prop :=
  exists chain added,
    contract w = Some chain
    /\ AnchorRegistry.logs chain = AnchorRegistry.logs c0 ++ added
    /\ forall r, In r added ->
         exists e h,
           In e (delivery_events (store w))
           /\ event_id e = AnchorRegistry.log_eventId r
           /\ hash_as_built e h
           /\ bytes32_of_hex h = Some (AnchorRegistry.log_anchorHash r)
           /\ (anchor_hash e = Some h
               \/ (anchor_hash e = None /\ e_status e = "pending")).

Lemma records_accounted_events c0 w w' :
  contract w' = contract w ->
  (forall e, In e (delivery_events (store w)) -> In e (delivery_events (store w'))) ->
  records_accounted c0 w -> records_accounted c0 w'.
Proof.
  intros Hc Hev (chain & added & Hch & Hlogs & Hall).
  exists chain, added. split; [congruence|]. split; [exact Hlogs|].
  intros r Hr. destruct (Hall r Hr) as (e & h & Hin & Hrest).
  exists e, h. split; [now apply Hev|exact Hrest].
Qed.

Lemma in_recorded_old d t env e :
  In e (delivery_events d) -> In e (delivery_events (recorded d t env)).
Proof.
  intros Hin. unfold recorded, updateSessionStatus.
  cbn [delivery_events with_events with_sessions]. apply in_or_app. now left.
Qed.

Lemma in_recorded_new d t env : In (eventData_of t env) (delivery_events (recorded d t env)).
Proof.
  unfold recorded, updateSessionStatus.
  cbn [delivery_events with_events with_sessions]. apply in_or_app. right. now left.
Qed.

Lemma records_accounted_effect c0 w w' :
  records_accounted c0 w -> effect w w' -> records_accounted c0 w'.
Proof.
  intros Hinv He.
  destruct He as [|s Hf Hst|c s k Hs Hact Hk Hf Hu|id key now Hnone|req env t Hadm
                  |req env t Hadm Hfresh
                  |req env t chain n Hadm Hfresh Hc Hn Hh
                  |req env t chain n Hadm Hfresh Hc Hn Hh];
    try exact Hinv;
    try (apply (records_accounted_events c0 w);
         [reflexivity|intros e Hin; exact Hin|exact Hinv]).
  - apply (records_accounted_events c0 w); [reflexivity| |exact Hinv].
    intros e Hin. now apply in_recorded_old.
  - destruct Hinv as (chain0 & added & Hch & Hlogs & Hall).
    rewrite Hc in Hch. injection Hch as <-.
    eexists _, (added ++ [anchor_record env n (event_id (eventData_of t env))]).
    split; [reflexivity|]. split.
    { cbn [AnchorRegistry.logs AnchorRegistry.emit AnchorRegistry.set_anchored].
      now rewrite Hlogs, app_assoc. }
    intros r Hr. cbn [store sent_world recorded_world with_store].
    apply in_app_or in Hr as [Hr|[<-|[]]].
    + destruct (Hall r Hr) as (e & h & Hin & Hrest).
      exists e, h. split; [now apply in_recorded_old|exact Hrest].
    + exists (eventData_of t env), (anchor_hash_of t env).
      split; [apply in_recorded_new|]. split; [reflexivity|].
      split; [apply hash_as_built_pending|]. split; [exact Hn|].
      right. split; reflexivity.
  - destruct Hinv as (chain0 & added & Hch & Hlogs & Hall).
    rewrite Hc in Hch. injection Hch as <-.
    eexists _, (added ++ [anchor_record env n (event_id (eventData_of t env))]).
    split; [reflexivity|]. split.
    { cbn [AnchorRegistry.logs AnchorRegistry.emit AnchorRegistry.set_anchored].
      now rewrite Hlogs, app_assoc. }
    intros r Hr. cbn [store anchored_world recorded_world with_store].
    unfold updateEventAnchor. cbn [delivery_events with_events].
    apply in_app_or in Hr as [Hr|[<-|[]]].
    + destruct (Hall r Hr) as (e & h & Hin & Hid & Hrest).
      exists e, h. split; [|split; [exact Hid|exact Hrest]].
      apply in_map_iff. exists e. split; [|now apply in_recorded_old].
      pose proof (getDeliveryEvent_none _ _ _ Hfresh Hin) as Hne.
      apply String.eqb_neq in Hne. now rewrite Hne.
    + exists (set_anchor (anchor_hash_of t env) (receipt_hash env) (iso_clock env 2)
                (eventData_of t env)), (anchor_hash_of t env).
      split; [|split; [reflexivity|split; [apply hash_as_built_ticket
                                          |split; [exact Hn|now left]]]].
      apply in_map_iff. exists (eventData_of t env).
      rewrite String.eqb_refl. split; [reflexivity|apply in_recorded_new].
Qed.

(** What the server adds to the ledger names its stored events: in every
    state reached from an empty store by requests served one after the
    other, the chain behind the handle is the chain the server started
    with, followed by records that each carry the id of a stored event and
    the anchor hash of that event as the handler built it.  The event is
    stored as anchored with that hash, or, when the transaction reached the
    chain and its confirmation failed, as pending without a hash. *)
Theorem every_ledger_record_names_a_stored_event rqs c0 :
  records_accounted c0 (serve_all rqs {| store := empty_db; contract := Some c0 |}).
Proof.
  apply (serve_all_keeps (records_accounted c0)).
  - intros w w'. apply records_accounted_effect.
  - exists c0, []. split; [reflexivity|]. split; [now rewrite app_nil_r|].
    intros r [].
Qed.

End LedgerWrites.

(** The same request when the confirmation of its transaction fails. *)
Definition unconfirmed (env : io) : io :=
  {| clock := clock env; iso_clock := iso_clock env; random := random env;
     tx := tx env; receipt_hash := receipt_hash env; rpc_ok := rpc_ok env;
     wait_ok := false |}.

(** The requests of the examples, the delivery left unconfirmed. *)
Definition unconfirmed_history : list (request * io) :=
  [ (PostRegister (Some (JStr Scenario.dp)) (Some (JStr Demo.key)), Demo.env "a" 1000);
    (PostSessions {| sr_customer_id := Some "cus_1"; sr_order_id := Some "ord_1";
                     sr_ttl_seconds := Some 300%Z |}, Demo.env "b" 2000);
    (PostChallenge Scenario.sid (Some Scenario.dp), Demo.env "c" 3000);
    (PostDeliveries (Scenario.proof Scenario.right_hash),
     unconfirmed (Demo.env "d" 4000)) ].

(** The chain of the examples after the delivery, confirmed or not: left
    unconfirmed, the event is pending and its record is on the chain. *)
Lemma every_ledger_record_names_a_stored_event_witness :
  let w := serve_all (P := Demo.platform) unconfirmed_history
             {| store := empty_db; contract := Some AnchorRegistry.genesis |} in
  records_accounted (P := Demo.platform) AnchorRegistry.genesis delivered
  /\ records_accounted (P := Demo.platform) AnchorRegistry.genesis w
  /\ exists chain r e,
       contract w = Some chain
       /\ AnchorRegistry.logs chain = [r]
       /\ getDeliveryEvent (store w) (AnchorRegistry.log_eventId r) = Some e
       /\ anchor_hash e = None /\ e_status e = "pending".
Proof.
  intros w. split; [|split].
  - rewrite delivered_history.
    exact (every_ledger_record_names_a_stored_event (P := Demo.platform)
             delivery_history AnchorRegistry.genesis).
  - exact (every_ledger_record_names_a_stored_event (P := Demo.platform)
             unconfirmed_history AnchorRegistry.genesis).
  - eexists _, _, _. repeat apply conj; by_running.
Defined.

(** ** GET /health and the demo runner's wait for it *)

Section Health.

Context {P : Platform}.

(** With the handle set and the node out of reach, /health still answers
    "connected", while a delivery answered "verified" carries no transaction
    hash and no verification is confirmed by the ledger. *)
Theorem health_does_not_probe_the_node w chain env :
  contract w = Some chain -> rpc_ok env = false ->
  h_blockchain (get_health env w) = "connected"
  /\ (forall req evt txHash,
        fst (post_deliveries req env w) = Verified evt txHash -> txHash = None)
  /\ (forall id r,
        fst (get_verify id env w) = Report r -> blockchain_verified r = false).
Proof.
  intros Hc Hrpc. split; [unfold get_health; now rewrite Hc|]. split.
  - intros req evt txHash Hr.
    destruct (post_deliveries req env w) as [r w1] eqn:Hrun. cbn in Hr. subst r.
    destruct (verified_cases req env w evt txHash w1 Hrun)
      as (_ & _ & _ & _ & _ & _ & [[-> _]|(c & n & _ & Hok & _)]);
      [reflexivity|congruence].
  - intros id r Hr.
    destruct (getDeliveryEvent (store w) id) as [e|] eqn:He.
    + destruct (get_verify_found id env w e He) as (b & Hrep & Hb).
      rewrite Hrep in Hr. cbn in Hr. injection Hr as <-. cbn.
      destruct b; [|reflexivity]. destruct Hb as [Hb _].
      destruct (Hb eq_refl) as (? & ? & ? & _ & _ & Hok & _). congruence.
    + unfold get_verify, handle, get_verify_body, bind, query in Hr.
      rewrite He in Hr. discriminate.
Qed.

End Health.

Lemma checkHealth_loop_failed probes maxAttempts : forall remaining paused k,
  remaining + k = maxAttempts ->
  (forall i, k <= i < maxAttempts -> probes i = Unhealthy) ->
  checkHealth_loop probes maxAttempts remaining paused
  = Some (Throw "Backend health check failed",
          paused + (remaining - (if Nat.eqb remaining 0 then 0 else 1))).
Proof.
  induction remaining as [|rest IH]; intros paused k Hk Hall.
  - simpl. now rewrite Nat.add_0_r.
  - cbn [checkHealth_loop]. rewrite (Hall (maxAttempts - S rest)) by lia.
    rewrite (IH _ (S k)); [|lia|intros i Hi; apply Hall; lia].
    f_equal. f_equal.
    destruct (Nat.ltb_spec (maxAttempts - S rest) (maxAttempts - 1));
      destruct (Nat.eqb_spec rest 0); cbn [Nat.eqb]; lia.
Qed.

Lemma checkHealth_loop_decided probes maxAttempts : forall remaining paused k,
  remaining + (maxAttempts - remaining) = maxAttempts ->
  maxAttempts - remaining <= k < maxAttempts ->
  (forall i, maxAttempts - remaining <= i < k -> probes i = Unhealthy) ->
  checkHealth_loop probes maxAttempts remaining paused
  = match probes k with
    | Healthy => Some (Ret true, paused + (k - (maxAttempts - remaining)))
    | Pending => None
    | Unhealthy =>
        checkHealth_loop probes maxAttempts (maxAttempts - S k)
          (paused + (k - (maxAttempts - remaining))
           + (if Nat.ltb k (maxAttempts - 1) then 1 else 0))
    end.
Proof.
  induction remaining as [|rest IH]; intros paused k Hle Hk Hall; [lia|].
  cbn [checkHealth_loop].
  destruct (Nat.eq_dec k (maxAttempts - S rest)) as [->|Hne].
  - rewrite Nat.sub_diag, Nat.add_0_r.
    destruct (probes (maxAttempts - S rest)); trivial.
    replace (maxAttempts - S (maxAttempts - S rest)) with rest by lia.
    f_equal. destruct (Nat.ltb _ _); lia.
  - rewrite (Hall (maxAttempts - S rest)) by lia.
    rewrite (IH _ k); [|lia|lia|intros i Hi; apply Hall; lia].
    assert (Hlt : Nat.ltb (maxAttempts - S rest) (maxAttempts - 1) = true)
      by (apply Nat.ltb_lt; lia).
    rewrite Hlt.
    assert (Hsum : S paused + (k - (maxAttempts - rest))
                   = paused + (k - (maxAttempts - S rest))) by lia.
    rewrite Hsum. reflexivity.
Qed.

(** [checkHealth] probes until the first probe that is not a failure, at
    most [maxAttempts] times, pausing 1000 ms after every failure but the
    last allowed one: it returns [true] at the first healthy probe [k],
    after [k] pauses; it never returns when that probe never settles; and
    when all [maxAttempts] probes fail it raises "Backend health check
    failed" after [maxAttempts - 1] pauses (none when [maxAttempts] is 0). *)
Theorem checkHealth_stops_at_first_answer probes maxAttempts k :
  k <= maxAttempts ->
  (forall i, i < k -> probes i = Unhealthy) ->
  (k = maxAttempts ->
   checkHealth probes maxAttempts
   = Some (Throw "Backend health check failed", maxAttempts - 1))
  /\ (k < maxAttempts -> probes k = Healthy ->
      checkHealth probes maxAttempts = Some (Ret true, k))
  /\ (k < maxAttempts -> probes k = Pending ->
      checkHealth probes maxAttempts = None).
Proof.
  intros Hk Hall. unfold checkHealth. split; [|split].
  - intros ->. rewrite (checkHealth_loop_failed probes maxAttempts maxAttempts 0 0);
      [|lia|intros i Hi; apply Hall; lia].
    f_equal. f_equal. destruct (Nat.eqb_spec maxAttempts 0); lia.
  - intros Hlt Hok.
    rewrite (checkHealth_loop_decided probes maxAttempts maxAttempts 0 k);
      [|lia|lia|intros i Hi; apply Hall; lia].
    rewrite Hok. f_equal. f_equal. lia.
  - intros Hlt Hpend.
    rewrite (checkHealth_loop_decided probes maxAttempts maxAttempts 0 k);
      [|lia|lia|intros i Hi; apply Hall; lia].
    now rewrite Hpend.
Qed.

(** The backend of the examples with its node down. *)
Lemma health_does_not_probe_the_node_witness :
  let env := {| clock := fun _ => 4000%Z; iso_clock := fun _ => "T4000";
                random := fun _ => "d"%byte;
                tx := {| AnchorRegistry.msg_sender := 1;
                         AnchorRegistry.block_timestamp := 4000 |};
                receipt_hash := "0xtx"; rpc_ok := false; wait_ok := true |} in
  h_blockchain (get_health env (Scenario.issued 300 3000 (Some AnchorRegistry.genesis)))
  = "connected"
  /\ fst (post_deliveries (P := Demo.platform) (Scenario.proof Scenario.right_hash) env
            (Scenario.issued 300 3000 (Some AnchorRegistry.genesis)))
     = Verified "evt_6464646464646464" None.
Proof.
  intros env.
  destruct (health_does_not_probe_the_node (P := Demo.platform)
              (Scenario.issued 300 3000 (Some AnchorRegistry.genesis))
              AnchorRegistry.genesis env eq_refl eq_refl) as (Hh & Hd & _).
  split; [exact Hh|].
  assert (Hr : exists evt txHash,
             fst (post_deliveries (P := Demo.platform)
                    (Scenario.proof Scenario.right_hash) env
                    (Scenario.issued 300 3000 (Some AnchorRegistry.genesis)))
             = Verified evt txHash /\ evt = "evt_6464646464646464").
  { eexists _, _. split; by_running. }
  destruct Hr as (evt & txHash & Hr & ->). rewrite Hr. f_equal.
  exact (Hd _ _ _ Hr).
Defined.

(** Two failed probes, then a healthy one, with 30 attempts allowed. *)
Lemma checkHealth_stops_at_first_answer_witness :
  checkHealth (fun i => if Nat.ltb i 2 then Unhealthy else Healthy) 30
  = Some (Ret true, 2).
Proof.
  apply (checkHealth_stops_at_first_answer _ 30 2); [lia| |lia|reflexivity].
  intros i Hi. apply Nat.ltb_lt in Hi. now rewrite Hi.
Defined.

(** ** Deliveries and the state of the ledger *)

(** The same request with the node reachable or not. *)
Definition with_rpc (env : io) (reachable : bool) : io :=
  {| clock := clock env; iso_clock := iso_clock env; random := random env;
     tx := tx env; receipt_hash := receipt_hash env; rpc_ok := reachable;
     wait_ok := wait_ok env |}.

Section LedgerIndependence.

Context {P : Platform}.

Lemma checks_ignore_ledger req env w c reachable :
  fst (deliveries_checks req (with_rpc env reachable) {| store := store w; contract := c |})
  = fst (deliveries_checks req env w).
Proof.
  open_checks.
  destruct (present (dr_session_id req)); [|reflexivity].
  destruct (present (dr_dp_id req)); [|reflexivity].
  destruct (present (dr_signed_blob req)) as [blob|]; [|reflexivity].
  destruct (getSession _ _); [|reflexivity].
  destruct (getChallenge _ _ _); [|reflexivity].
  destruct (_ <? _)%Z; [reflexivity|].
  destruct (getDPKey _ _); [|reflexivity].
  destruct (blob_text blob) as [text|]; [|reflexivity].
  destruct (JSON_parse _) as [signedData|]; [|reflexivity].
  destruct (get_prop signedData "message") as [message|]; [|reflexivity].
  destruct (get_prop signedData "signature") as [signature|]; [|reflexivity].
  destruct (verifySignature _ _ _) as [[|]|]; try reflexivity.
  destruct message as [[| | | m | |]|]; try reflexivity.
  destruct signature as [[| | | sg | |]|]; try reflexivity.
  destruct (JSON_parse m) as [messageData|]; [|reflexivity].
  destruct (get_prop messageData "session_id"); [|reflexivity].
  destruct (get_prop messageData "challenge_nonce"); [|reflexivity].
  destruct (_ || _); reflexivity.
Qed.

Lemma begin_ignores_ledger req env w c reachable :
  deliveries_begin req (with_rpc env reachable) {| store := store w; contract := c |}
  = deliveries_begin req env w.
Proof.
  unfold deliveries_begin.
  pose proof (checks_ignore_ledger req env w c reachable) as H.
  destruct (deliveries_checks req (with_rpc env reachable) _) as [o1 w1].
  destruct (deliveries_checks req env w) as [o2 w2]. cbn in H. now subst o1.
Qed.

(** Whether a delivery is answered "verified" does not depend on the
    ledger: on the same store, with any contract handle or none and the
    node reachable or not, an error answer is the same answer and a
    "verified" answer is "verified" for the same event id; only the
    transaction hash can differ. *)
Theorem delivery_outcome_ignores_the_ledger req env w c reachable :
  let r := fst (post_deliveries req env w) in
  let r' := fst (post_deliveries req (with_rpc env reachable)
                   {| store := store w; contract := c |}) in
  (forall code msg, r = Error code msg -> r' = Error code msg)
  /\ (forall evt txHash, r = Verified evt txHash -> exists txHash', r' = Verified evt txHash').
Proof.
  cbv zeta. rewrite !post_deliveries_split, begin_ignores_ledger.
  destruct (deliveries_begin req env w) as [rejected|t]; cbn [fst].
  { split; [trivial|eauto]. }
  destruct (getDeliveryEvent (store w) (event_id (eventData_of t env))) as [e|] eqn:He.
  - rewrite (end_conflict t env w e He).
    rewrite (end_conflict t (with_rpc env reachable)
               {| store := store w; contract := c |} e He).
    cbn [fst]. split; [trivial|eauto].
  - assert (Hv : forall env0 w0,
               getDeliveryEvent (store w0) (event_id (eventData_of t env0)) = None ->
               exists txHash,
                 fst (deliveries_end t env0 w0)
                 = Verified (event_id (eventData_of t env0)) txHash).
    { intros env0 w0 Hf.
      destruct (commit_cases t env0 w0 Hf)
        as [->|(ch & n & _ & _ & _ & _ & [[_ ->]|[_ ->]])]; eauto. }
    destruct (Hv env w He) as (tx1 & ->).
    destruct (Hv (with_rpc env reachable) {| store := store w; contract := c |} He)
      as (tx2 & ->).
    split; [discriminate|]. intros evt txHash [= <- <-]. eauto.
Qed.

End LedgerIndependence.

(** The delivery of the examples, served with a contract handle and the
    node out of reach. *)
Lemma delivery_outcome_ignores_the_ledger_witness :
  exists txHash,
    fst (post_deliveries (P := Demo.platform) (Scenario.proof Scenario.right_hash)
           (with_rpc (Demo.env "d" 4000) false)
           {| store := store (Scenario.issued 300 3000 None);
              contract := Some AnchorRegistry.genesis |})
    = Verified "evt_6464646464646464" txHash.
Proof.
  destruct (delivery_outcome_ignores_the_ledger (P := Demo.platform)
              (Scenario.proof Scenario.right_hash) (Demo.env "d" 4000)
              (Scenario.issued 300 3000 None) (Some AnchorRegistry.genesis) false)
    as [_ Hv].
  apply (Hv "evt_6464646464646464" None). now rewrite accepted_at_4000.
Defined.

(** ** Completed sessions *)

Section Completion.

Context {P : Platform}.

(** A stored session is active, or completed with an event of its id. *)
Definition sessions_accounted (d : db) : Prop :=
  forall s, In s (sessions d) ->
    s_status s = "active"
    \/ (s_status s = "completed"
        /\ exists e, In e (delivery_events d) /\ e_session_id e = session_id s).

Lemma sessions_accounted_events d d' :
  sessions d' = sessions d ->
  (forall e, In e (delivery_events d) ->
             exists e', In e' (delivery_events d') /\ e_session_id e' = e_session_id e) ->
  sessions_accounted d -> sessions_accounted d'.
Proof.
  intros Hs Hev Hinv s Hin. rewrite Hs in Hin.
  destruct (Hinv s Hin) as [Ha|[Hc (e & He & Hid)]]; [now left|right].
  split; [exact Hc|]. destruct (Hev e He) as (e' & He' & Hid').
  exists e'. split; [exact He'|congruence].
Qed.

Lemma sessions_accounted_recorded req env w t :
  admitted req env w t ->
  sessions_accounted (store w) -> sessions_accounted (recorded (store w) t env).
Proof.
  intros (k & m & md & (_ & _ & Hsess & _) & _) Hinv s' Hin.
  unfold recorded, updateSessionStatus in Hin |- *.
  cbn [sessions delivery_events with_sessions with_events] in Hin |- *.
  apply in_map_iff in Hin as (s & Hs' & Hin).
  destruct (String.eqb_spec (session_id s) (sql_text (t_session_id t))) as [Hid|Hne];
    subst s'.
  - right. split; [reflexivity|]. exists (eventData_of t env).
    split; [apply in_or_app; right; now left|]. cbn. now rewrite Hid.
  - destruct (Hinv s Hin) as [Ha|[Hc (e & He & Heq)]]; [now left|right].
    split; [exact Hc|]. exists e. split; [apply in_or_app; now left|exact Heq].
Qed.

Lemma sessions_accounted_effect w w' :
  sessions_accounted (store w) -> effect w w' -> sessions_accounted (store w').
Proof.
  intros Hinv He.
  destruct He as [|s Hf Hst|c s k Hs Hact Hk Hf Hu|id key now Hnone|req env t Hadm
                  |req env t Hadm Hfresh
                  |req env t chain n Hadm Hfresh Hc Hn Hh|req env t chain n Hadm Hfresh Hc Hn Hh];
    try exact Hinv.
  - intros s' Hin. cbn [store with_store sessions with_sessions] in Hin.
    apply in_app_or in Hin as [Hin|[<-|[]]]; [now apply Hinv|now left].
  - now apply (sessions_accounted_recorded req).
  - now apply (sessions_accounted_recorded req).
  - apply (sessions_accounted_events (recorded (store w) t env)); [reflexivity| |].
    + intros e He. cbn [store anchored_world recorded_world with_store].
      unfold updateEventAnchor. cbn [delivery_events with_events].
      eexists. split; [apply in_map, He|]. now destruct (String.eqb _ _).
    + now apply (sessions_accounted_recorded req).
Qed.

Lemma sessions_accounted_reached rqs c :
  sessions_accounted (store (serve_all rqs {| store := empty_db; contract := c |})).
Proof.
  apply (serve_all_keeps (fun w => sessions_accounted (store w))).
  - intros w w'. apply sessions_accounted_effect.
  - intros s [].
Qed.

(** In every state the server reaches from an empty store, the status of a
    stored session is "active" or "completed", and it is "completed"
    exactly when a delivery event of the session is stored. *)
Theorem session_is_completed_exactly_when_delivered rqs c s :
  let d := store (serve_all rqs {| store := empty_db; contract := c |}) in
  In s (sessions d) ->
  (s_status s = "active" \/ s_status s = "completed")
  /\ (s_status s = "completed"
      <-> exists e, In e (delivery_events d) /\ e_session_id e = session_id s).
Proof.
  cbv zeta. intros Hin.
  pose proof (sessions_accounted_reached rqs c s Hin) as Hacc.
  split; [destruct Hacc as [Ha|[Hc _]]; auto|]. split.
  - intros Hc. destruct Hacc as [Ha|[_ He]]; [congruence|exact He].
  - intros (e & He & Hid).
    destruct (events_backed_reached rqs c e He) as (s' & _ & _ & Hs' & Hst & _).
    destruct (keys_unique_reached rqs c) as (Hnd & _).
    pose proof (find_key session_id _ s Hnd Hin) as Hfound.
    unfold getSession in Hs'. rewrite Hid in Hs'. rewrite Hfound in Hs'.
    now injection Hs' as <-.
Qed.

End Completion.

(** The session of the examples after its delivery. *)
Lemma session_is_completed_exactly_when_delivered_witness :
  exists e,
    In e (delivery_events (store delivered)) /\ e_session_id e = Scenario.sid.
Proof.
  assert (Hs : sessions (store delivered)
               = [set_status "completed" (ScenarioFacts.the_session 302000)])
    by by_running.
  assert (Hin : In (set_status "completed" (ScenarioFacts.the_session 302000))
                  (sessions (store delivered))) by (rewrite Hs; now left).
  rewrite delivered_history in Hin |- *.
  destruct (session_is_completed_exactly_when_delivered (P := Demo.platform)
              delivery_history (Some AnchorRegistry.genesis) _ Hin) as [_ [Hev _]].
  exact (Hev eq_refl).
Defined.

(** ** Challenges and the rows they refer to *)

Section ChallengeReferences.

Context {P : Platform}.

(** The session and the partner a challenge names are stored. *)
Definition refers (d : db) (c : challenge) : Prop :=
  (exists s, getSession d (c_session_id c) = Some s)
  /\ exists k, getDPKey d (c_dp_id c) = Some k.

Definition challenges_refer (w : world) : Prop :=
  forall c, In c (challenges (store w)) -> refers (store w) c.

Lemma refers_effect w w' c : effect w w' -> refers (store w) c -> refers (store w') c.
Proof.
  intros He [(s & Hs) (k & Hk)]. split.
  - destruct (effect_session_stays w w' _ s He Hs) as [H|H]; eauto.
  - exists k. exact (effect_key_stays w w' _ k He Hk).
Qed.

Lemma refers_marked d id c :
  refers d (if String.eqb (challenge_id c) id then set_used c else c) <-> refers d c.
Proof. now destruct (String.eqb _ _). Qed.

Lemma challenges_refer_effect w w' :
  challenges_refer w -> effect w w' -> challenges_refer w'.
Proof.
  intros Hinv He. pose proof (fun c => refers_effect w w' c He) as Hstep.
  assert (Hmark : forall id w0,
             challenges (store w0) = mark_in id (challenges (store w)) ->
             (forall c, refers (store w) c -> refers (store w0) c) ->
             challenges_refer w0).
  { intros id w0 Hch Hkeep c' Hin. rewrite Hch in Hin.
    apply in_map_iff in Hin as (c & <- & Hin).
    apply refers_marked. apply Hkeep. now apply Hinv. }
  destruct He as [|s Hf Hst|c s k Hs Hact Hk Hf Hu|id key now Hnone|req env t Hadm
                  |req env t Hadm Hfresh
                  |req env t chain n Hadm Hfresh Hc Hn Hh|req env t chain n Hadm Hfresh Hc Hn Hh];
    try exact Hinv; try (intros c' Hin; apply Hstep; now apply Hinv).
  - intros c' Hin. cbn [store with_store challenges with_challenges] in Hin.
    apply in_app_or in Hin as [Hin|[<-|[]]]; [apply Hstep; now apply Hinv|].
    split; cbn [store with_store]; eauto.
  - now apply (Hmark (challenge_id (t_challenge t))).
  - now apply (Hmark (challenge_id (t_challenge t))).
  - now apply (Hmark (challenge_id (t_challenge t))).
  - now apply (Hmark (challenge_id (t_challenge t))).
Qed.

(** In every state the server reaches from an empty store, each stored
    challenge names a stored session and a partner with a registered key:
    the handlers keep the references of the [challenges] table whole. *)
Theorem challenges_refer_to_session_and_partner rqs c0 :
  challenges_refer (serve_all rqs {| store := empty_db; contract := c0 |}).
Proof.
  apply (serve_all_keeps challenges_refer).
  - intros w w'. apply challenges_refer_effect.
  - intros c Hin. contradiction.
Qed.

End ChallengeReferences.

(** The used challenge of the examples. *)
Lemma challenges_refer_to_session_and_partner_witness :
  refers (store delivered) (set_used (ScenarioFacts.the_challenge 3000)).
Proof.
  assert (Hch : challenges (store delivered)
                = [set_used (ScenarioFacts.the_challenge 3000)]) by by_running.
  assert (Hin : In (set_used (ScenarioFacts.the_challenge 3000))
                  (challenges (store delivered))) by (rewrite Hch; now left).
  rewrite delivered_history in Hin |- *.
  exact (challenges_refer_to_session_and_partner (P := Demo.platform) delivery_history
           (Some AnchorRegistry.genesis) _ Hin).
Defined.
